(** * Surface-hopping transition engine of UNI-xMD

    A shallow embedding of the fewest-switches surface-hopping engine found in
    [src/mqc/sh.py] (module [Mqc]) and in its cavity-coupled descendant
    [src/mqc_qed/sh.py] (module [Qed]): [hop_prob], [hop_check],
    [evaluate_hop], [update_energy] and [print_step], for the plain engine
    the checks of [__init__], and for the cavity variant [correct_dec_idc],
    [correct_dec_edc] and the decoherence and reporting lines of [run];
    together with [trivial_hop] of [src/mqc_qed/bomd.py] (module [Bomd]).

    Modelling conventions.
    - Python floats and numpy float64 values are idealised as real numbers
      ([R]); complex128 values are pairs of reals.  Rounding is therefore
      absent, and the non-finite values that IEEE arithmetic produces on a
      division by zero are not represented: a theorem whose conclusion
      rests on a quotient assumes the divisor non-zero, unless it says
      otherwise.
    - One-dimensional numpy arrays and Python lists are lists; the engine
      writes them by index, which is stdpp's list insert.  Arrays of rank two
      and more that are only read, or written entry by entry inside loops
      bounded by their own dimension, are total functions of their indices.
    - The attributes of the [SH] object and of the molecule (polariton) object
      it owns are record fields; a method is a function from the record to
      the updated record.  A list owned by the caller ([bo_list],
      [pol_list]) is passed in and returned.
    - [random.random()] is an argument of [hop_check].
    - What [print] receives is a list of lines; the decimal text of a float
      is an uninterpreted function of width, precision and value. *)

From Stdlib Require Import Reals Lra Lia.
From stdpp Require Import base list strings pretty.

Open Scope R_scope.

(** ** Numbers *)

#[global] Instance R_inhabited : Inhabited R := populate 0.

(** Comparisons of floats, as the booleans Python tests. *)
Definition Rltb (x y : R) : bool := if Rlt_dec x y then true else false.
Definition Rgtb (x y : R) : bool := Rltb y x.
Definition Rleb (x y : R) : bool := if Rle_dec x y then true else false.

(** complex128 as real and imaginary part. *)
Definition C : Type := R * R.

Definition Cre (z : C) : R := fst z.
Definition Cim (z : C) : R := snd z.
Definition Cconj (z : C) : C := (Cre z, - Cim z).
Definition Cminus (z w : C) : C := (Cre z - Cre w, Cim z - Cim w).
Definition Cmult (z w : C) : C :=
  (Cre z * Cre w - Cim z * Cim w, Cre z * Cim w + Cim z * Cre w).
Definition Cnorm2 (z : C) : R := Cre z * Cre z + Cim z * Cim z.
Definition Cdiv (z w : C) : C :=
  ((Cre z * Cre w + Cim z * Cim w) / Cnorm2 w,
   (Cim z * Cre w - Cre z * Cim w) / Cnorm2 w).
Definition Cmod (z : C) : R := sqrt (Cnorm2 z).

(** Principal square root, the branch [np.sqrt] takes on complex input. *)
Definition Csqrt (z : C) : C :=
  (sqrt ((Cmod z + Cre z) / 2),
   (if Rltb (Cim z) 0 then -1 else 1) * sqrt ((Cmod z - Cre z) / 2)).

#[global] Instance C_inhabited : Inhabited C := populate (0, 0).

(** ** numpy on lists

    A row of an array of shape (atoms, ndim) is the list of its components. *)

Abbreviation vec := (list R).

(** [np.sum(v)] *)
Definition rsum (l : list R) : R := foldr Rplus 0 l.

(** [np.sum(A, axis=1)] *)
Definition row_sum (A : list vec) : list R := fmap rsum A.

(** [A ** 2.] *)
Definition arr_sq (A : list vec) : list vec :=
  fmap (fun row : vec => fmap (fun y => y ^ 2) row) A.

(** [A * B], elementwise, both of rank two *)
Definition arr_mul (A B : list vec) : list vec := zip_with (zip_with Rmult) A B.

(** [A + B], elementwise, both of rank two *)
Definition arr_add (A B : list vec) : list vec := zip_with (zip_with Rplus) A B.

(** [x * A] for a scalar [x] *)
Definition arr_scale (x : R) (A : list vec) : list vec :=
  fmap (fun row : vec => fmap (Rmult x) row) A.

(** [u * v], elementwise, both of rank one *)
Definition vec_mul (u v : list R) : list R := zip_with Rmult u v.

(** [1. / u] *)
Definition vec_inv (u : list R) : list R := fmap (fun y => 1 / y) u.

(** [A / u.reshape((-1, 1))]: row [i] of [A] divided by [u[i]] *)
Definition arr_div_col (A : list vec) (u : list R) : list vec :=
  zip_with (fun row y => fmap (fun z => z / y) row) A u.

(** [l[0:n] = rows]: the first [n] entries replaced, the rest kept. *)
Definition assign_head {A} (n : nat) (rows : list A) (l : list A) : list A :=
  rows ++ drop n l.

(** Two arrays of rank two whose rows have equal length, pairwise (and which
    have equally many rows): the shapes numpy requires of [A * B] and [A + B]. *)
Definition same_rows (A B : list vec) : Prop :=
  Forall2 (fun ra rb : vec => length ra = length rb) A B.

(** Every entry of the array is zero. *)
Definition zero_rows (A : list vec) : Prop :=
  Forall (fun row : vec => Forall (fun y => y = 0) row) A.

(** ** Cumulative probability vectors

    [acc] has one entry more than there are states; candidate [ist] owns the
    interval from [acc[ist]], excluded, to [acc[ist + 1]], included. *)

(** The draw falls into the interval of candidate [ist]. *)
Definition hits (acc : list R) (draw : R) (ist : nat) : Prop :=
  acc !!! ist < draw <= acc !!! S ist.

(** [acc] does not decrease over the indices [0 .. n]. *)
Definition nondecreasing (n : nat) (acc : list R) : Prop :=
  forall i j, (i <= j <= n)%nat -> acc !!! i <= acc !!! j.

(** A raw probability with its negative values replaced by zero. *)
Definition clamp (q : R) : R := if Rltb q 0 then 0 else q.

(** The sum of [g i] over the candidates [i < j] other than the running
    state [r]: the value [accum] has after [j] turns of the loop of
    [hop_prob]. *)
Definition partial_sum (r : nat) (g : nat -> R) (j : nat) : R :=
  rsum (fmap (fun i => if (i =? r)%nat then 0 else g i) (seq 0 j)).

(** ** Configuration enumerations

    [__init__] raises [ValueError] unless the rescaling name is one of the
    four below and the rejection name one of the two; an engine that exists
    holds one of these values. *)

Inductive Rescale := Energy | Velocity | Momentum | Augment.
Inductive Reject := Keep | Reverse.

Definition is_energy (r : Rescale) : bool :=
  match r with Energy => true | _ => false end.
Definition is_augment (r : Rescale) : bool :=
  match r with Augment => true | _ => false end.
Definition is_keep (r : Reject) : bool :=
  match r with Keep => true | _ => false end.

(** ** The lines appended to [event["HOP"]] *)

Definition ev_reject_kinetic (rstate rstate_old : nat) : string :=
  "Reject hopping: smaller kinetic energy than potential energy difference between "
  +:+ pretty rstate +:+ " and " +:+ pretty rstate_old.
Definition ev_reject_keep : string :=
  "Reject hopping: no solution to find rescale factor, velocity is not changed".
Definition ev_reject_reverse : string :=
  "Reject hopping: no solution to find rescale factor, velocity is reversed along coupling direction".
Definition ev_accept_simple : string :=
  "Accept hopping: no solution to find rescale factor, but velocity is simply rescaled".
Definition ev_accept (rstate_old rstate : nat) : string :=
  "Accept hopping: hop " +:+ pretty rstate_old +:+ " -> " +:+ pretty rstate.
Definition ev_trivial (rstate_old rstate : nat) : string :=
  "Trivial crossing hopping: hop " +:+ pretty rstate_old +:+ " -> " +:+ pretty rstate.

(** ** The lines [print_step] writes for the events *)

Fixpoint spaces (n : nat) : string :=
  match n with
  | O => ""
  | S n => " " +:+ spaces n
  end.

(** [f"{text:>w}"]: the text, with spaces before it up to the width [w]. *)
Definition rjust (w : nat) (text : string) : string :=
  spaces (w - String.length text) +:+ text.

(** [f" {category}{istep + 1:>9d}  {ievent}"] *)
Definition event_line (istep : Z) (category ievent : string) : string :=
  " " +:+ category +:+ rjust 9 (pretty (istep + 1)%Z) +:+ "  " +:+ ievent.

(** Modelled from the spec: [update_kinetic] of the molecule and polariton
    classes, which are not part of the sources at hand.  The spec names the
    quantity ("update kinetic energy", "kinetic energy in the QM region")
    without a formula; the kinetic energy of point masses is
    one half of the sum of mass times squared speed, over all atoms for
    [ekin] and over the first [nat_qm] atoms for [ekin_qm]. *)
Definition kinetic (mass : list R) (vel : list vec) : R :=
  rsum (vec_mul (fmap (Rmult 0.5) mass) (row_sum (arr_sq vel))).

(** ** src/mqc/sh.py *)

Module Mqc.

(** One entry of [mol.states]; the engine reads its energy only. *)
Record State := { energy : R }.

#[global] Instance State_inhabited : Inhabited State := populate {| energy := 0 |}.

(** The attributes of the molecule object that the engine touches. *)
Record Mol := {
  nst : nat;                      (* number of electronic states *)
  nat_qm : nat;                   (* number of atoms of the QM region *)
  mass : list R;                  (* shape (nat) *)
  vel : list vec;                 (* shape (nat, ndim) *)
  nac : nat -> nat -> list vec;   (* nac[i, j] has shape (nat, ndim) *)
  nacme : nat -> nat -> R;
  rho : nat -> nat -> C;
  states : list State;
  ekin : R;
  ekin_qm : R
}.

(** The attributes of the [SH] object. *)
Record SH := {
  mol : Mol;
  dt : R;
  rstate : nat;
  rstate_old : nat;
  rand : R;
  prob : list R;
  acc_prob : list R;
  l_hop : bool;
  l_reject : bool;
  vel_rescale : Rescale;
  vel_reject : Reject;
  event : list string             (* event["HOP"] *)
}.

Definition set_vel (m : Mol) (v : list vec) : Mol :=
  {| nst := nst m; nat_qm := nat_qm m; mass := mass m; vel := v; nac := nac m;
     nacme := nacme m; rho := rho m; states := states m;
     ekin := ekin m; ekin_qm := ekin_qm m |}.

(** The molecule with other coupling vectors [mol.nac]. *)
Definition set_nac (m : Mol) (d : nat -> nat -> list vec) : Mol :=
  {| nst := nst m; nat_qm := nat_qm m; mass := mass m; vel := vel m; nac := d;
     nacme := nacme m; rho := rho m; states := states m;
     ekin := ekin m; ekin_qm := ekin_qm m |}.

(** Modelled from the spec: [mol.update_kinetic] (see [kinetic]). *)
Definition update_kinetic (m : Mol) : Mol :=
  {| nst := nst m; nat_qm := nat_qm m; mass := mass m; vel := vel m; nac := nac m;
     nacme := nacme m; rho := rho m; states := states m;
     ekin := kinetic (mass m) (vel m);
     ekin_qm := kinetic (take (nat_qm m) (mass m)) (take (nat_qm m) (vel m)) |}.

Section Engine.

(** [misc.eps], the threshold below which a kinetic energy counts as zero;
    the module [misc] is not part of the sources at hand. *)
Variable eps : R.

(** *** hop_prob *)

(** One turn of the loop [for ist in range(self.mol.nst)], on the triple
    [(self.prob, self.acc_prob, accum)].  The quotient by the population of
    the running state is what the code computes when that population is not
    zero; at zero the code leaves values that are not numbers, and the
    theorems about the probabilities assume it away. *)
Definition hop_prob_step (m : Mol) (dt : R) (rstate : nat)
    (st : list R * list R * R) (ist : nat) : list R * list R * R :=
  let '(prob, acc_prob, accum) := st in
  if negb (ist =? rstate)%nat then
    let p := - 2 * Cre (rho m ist rstate) * nacme m ist rstate * dt
             / Cre (rho m rstate rstate) in
    let p := if Rltb p 0 then 0 else p in
    let accum := accum + p in
    (<[ist := p]> prob, <[S ist := accum]> acc_prob, accum)
  else
    (prob, <[S ist := accum]> acc_prob, accum).

Definition hop_prob (s : SH) : SH :=
  let m := mol s in
  let rstate_old := rstate s in
  let prob := replicate (nst m) 0 in
  let acc_prob := replicate (S (nst m)) 0 in
  let '(prob, acc_prob, _) :=
    foldl (hop_prob_step m (dt s) (rstate s)) (prob, acc_prob, 0) (seq 0 (nst m)) in
  let psum := acc_prob !!! nst m in
  let '(prob, acc_prob) :=
    if Rgtb psum 1
    then (fmap (fun p => p / psum) prob, fmap (fun p => p / psum) acc_prob)
    else (prob, acc_prob) in
  {| mol := m; dt := dt s; rstate := rstate s; rstate_old := rstate_old;
     rand := rand s; prob := prob; acc_prob := acc_prob;
     l_hop := false; l_reject := l_reject s;
     vel_rescale := vel_rescale s; vel_reject := vel_reject s;
     event := event s |}.

(** The quotient that [hop_prob] computes for candidate [ist], before
    negative values are replaced by zero. *)
Definition quotient (s : SH) (ist : nat) : R :=
  - 2 * Cre (rho (mol s) ist (rstate s)) * nacme (mol s) ist (rstate s) * dt s
  / Cre (rho (mol s) (rstate s) (rstate s)).

(** *** hop_check *)

(** One turn of the loop of [hop_check], on [(self.l_hop, self.rstate,
    bo_list)].  The test [ist == self.rstate] reads the running state as the
    earlier turns left it.  [bo_list[0] = ...] is an index assignment;
    [run] builds [bo_list] with one entry, and on an empty list Python would
    raise where the insert below leaves the list empty. *)
Definition hop_check_step (acc_prob : list R) (rand : R)
    (st : bool * nat * list nat) (ist : nat) : bool * nat * list nat :=
  let '(l_hop, rstate, bo_list) := st in
  if (ist =? rstate)%nat then st
  else if Rgtb rand (acc_prob !!! ist) && Rleb rand (acc_prob !!! S ist)
  then (true, ist, <[0%nat := ist]> bo_list)
  else st.

(** [draw] is the value [random.random()] returns. *)
Definition hop_check (draw : R) (s : SH) (bo_list : list nat) : SH * list nat :=
  let '(l_hop, rstate, bo_list) :=
    foldl (hop_check_step (acc_prob s) draw) (l_hop s, rstate s, bo_list)
          (seq 0 (nst (mol s))) in
  ({| mol := mol s; dt := dt s; rstate := rstate; rstate_old := rstate_old s;
      rand := draw; prob := prob s; acc_prob := acc_prob s;
      l_hop := l_hop; l_reject := l_reject s;
      vel_rescale := vel_rescale s; vel_reject := vel_reject s;
      event := event s |}, bo_list).

(** *** evaluate_hop *)

(** [pot_diff] *)
Definition pot_diff (s : SH) : R :=
  energy (states (mol s) !!! rstate s) - energy (states (mol s) !!! rstate_old s).

(** The coefficients [(a, b, det)] of the quadratic for the rescaling factor;
    the defaults [1., 1., 1.] stay in "energy" mode. *)
Definition quadratic (s : SH) : R * R * R :=
  let m := mol s in
  let d := nac m (rstate_old s) (rstate s) in
  match vel_rescale s with
  | Energy => (1, 1, 1)
  | Velocity =>
      let a := rsum (vec_mul (mass m) (row_sum (arr_sq d))) in
      let b := 2 * rsum (vec_mul (mass m) (row_sum (arr_mul d (vel m)))) in
      let c := 2 * pot_diff s in
      (a, b, b ^ 2 - 4 * a * c)
  | Momentum | Augment =>
      let a := rsum (vec_mul (vec_inv (mass m)) (row_sum (arr_sq d))) in
      let b := 2 * rsum (row_sum (arr_mul d (vel m))) in
      let c := 2 * pot_diff s in
      (a, b, b ^ 2 - 4 * a * c)
  end.

(** The four tests that set [self.l_reject], in the order of the source. *)
Definition decide_reject (resc : Rescale) (ekin_qm pot_diff det : R) : bool :=
  let l_reject := false in
  let l_reject := if is_energy resc && Rltb ekin_qm eps then true else l_reject in
  let l_reject := if Rltb ekin_qm pot_diff then true else l_reject in
  let l_reject := if Rltb det 0 then true else l_reject in
  let l_reject := if is_augment resc && Rgtb ekin_qm pot_diff then false else l_reject in
  l_reject.

(** The value [self.l_reject] receives when a selected hop is evaluated. *)
Definition rejects (s : SH) : bool :=
  decide_reject (vel_rescale s) (ekin_qm (mol s)) (pot_diff s) (quadratic s).2.

(** The block "Rescale velocities for QM atoms", on [self.mol.vel]. *)
Definition rescale_vel (m : Mol) (resc : Rescale) (d : list vec)
    (x det pot_diff : R) : list vec :=
  let n := nat_qm m in
  match resc with
  | Energy => assign_head n (arr_scale x (take n (vel m))) (vel m)
  | Velocity =>
      assign_head n (arr_add (take n (vel m)) (arr_scale x (take n d))) (vel m)
  | Momentum =>
      assign_head n
        (arr_add (take n (vel m))
                 (arr_div_col (arr_scale x (take n d)) (take n (mass m))))
        (vel m)
  | Augment =>
      if Rgtb det 0 || Rltb (ekin_qm m) pot_diff then
        assign_head n
          (arr_add (take n (vel m))
                   (arr_div_col (arr_scale x (take n d)) (take n (mass m))))
          (vel m)
      else assign_head n (arr_scale x (take n (vel m))) (vel m)
  end.

(** The factor [x] is the code's when [a] is not zero (and, for the isotropic
    factor, when the stored kinetic energy is not zero); the theorems about
    the velocities after a rescaling assume it. *)
Definition evaluate_hop (s : SH) (bo_list : list nat) : SH * list nat :=
  let '(s, bo_list) :=
    if l_hop s then
      let m := mol s in
      let pot_diff := pot_diff s in
      let '(a, b, det) := quadratic s in
      let l_reject := decide_reject (vel_rescale s) (ekin_qm m) pot_diff det in
      (* [x] is unbound in Python after a rejection under "keep"; it is not
         read on that path, and stands as 0 here. *)
      let '(event, x, l_hop, rstate, bo_list) :=
        if l_reject then
          let event :=
            if Rltb (ekin_qm m) pot_diff
            then event s ++ [ev_reject_kinetic (rstate s) (rstate_old s)]
            else event s in
          let '(event, x) :=
            match vel_reject s with
            | Keep => (event ++ [ev_reject_keep], 0)
            | Reverse => (event ++ [ev_reject_reverse], - b / a)
            end in
          (event, x, false, rstate_old s, <[0%nat := rstate_old s]> bo_list)
        else
          if is_energy (vel_rescale s) || (Rltb det 0 && is_augment (vel_rescale s))
          then
            let event :=
              if Rltb det 0 then event s ++ [ev_accept_simple] else event s in
            (event, sqrt (1 - pot_diff / ekin_qm m), l_hop s, rstate s, bo_list)
          else
            let x :=
              if Rltb b 0 then 0.5 * (- b - sqrt det) / a
              else 0.5 * (- b + sqrt det) / a in
            (event s, x, l_hop s, rstate s, bo_list) in
      (* the coupling vector is read after [self.rstate] may have been restored *)
      let d := nac m (rstate_old s) rstate in
      let vel :=
        if negb (is_keep (vel_reject s) && l_reject)
        then rescale_vel m (vel_rescale s) d x det pot_diff
        else vel m in
      ({| mol := update_kinetic (set_vel m vel); dt := dt s;
          rstate := rstate; rstate_old := rstate_old s;
          rand := rand s; prob := prob s; acc_prob := acc_prob s;
          l_hop := l_hop; l_reject := l_reject;
          vel_rescale := vel_rescale s; vel_reject := vel_reject s;
          event := event |}, bo_list)
    else (s, bo_list) in
  if negb (rstate s =? rstate_old s)%nat then
    ({| mol := mol s; dt := dt s; rstate := rstate s; rstate_old := rstate_old s;
        rand := rand s; prob := prob s; acc_prob := acc_prob s;
        l_hop := l_hop s; l_reject := l_reject s;
        vel_rescale := vel_rescale s; vel_reject := vel_reject s;
        event := event s ++ [ev_accept (rstate_old s) (rstate s)] |}, bo_list)
  else (s, bo_list).

(** The three calls [run] makes at every nuclear step, in its order. *)
Definition step (draw : R) (s : SH) (bo_list : list nat) : SH * list nat :=
  let s := hop_prob s in
  let '(s, bo_list) := hop_check draw s bo_list in
  evaluate_hop s bo_list.

End Engine.

(** *** update_energy *)

Definition set_mol (s : SH) (m : Mol) : SH :=
  {| mol := m; dt := dt s; rstate := rstate s; rstate_old := rstate_old s;
     rand := rand s; prob := prob s; acc_prob := acc_prob s;
     l_hop := l_hop s; l_reject := l_reject s;
     vel_rescale := vel_rescale s; vel_reject := vel_reject s;
     event := event s |}.

(** [update_energy] refreshes the kinetic energies and writes [mol.epot] and
    [mol.etot]; these two attributes, which the engine never reads, are
    returned beside the engine as the pair [(epot, etot)]. *)
Definition update_energy (s : SH) : SH * (R * R) :=
  let m := update_kinetic (mol s) in
  let epot := energy (states m !!! rstate s) in
  let etot := epot + ekin m in
  (set_mol s m, (epot, etot)).

(** *** __init__

    The part of the constructor that follows [super().__init__]: the base
    class, which is not part of the sources at hand, has stored the molecule
    and the time step.  [md_type] and [call_name] are the two names the error
    messages quote ([self.md_type] and [call_name()]); [l_nacme] is the
    attribute [mol.l_nacme].  A raised [ValueError] is the left summand,
    holding its message. *)

Definition rescale_of_name (name : string) : option Rescale :=
  if String.eqb name "energy" then Some Energy
  else if String.eqb name "velocity" then Some Velocity
  else if String.eqb name "momentum" then Some Momentum
  else if String.eqb name "augment" then Some Augment
  else None.

Definition reject_of_name (name : string) : option Reject :=
  if String.eqb name "keep" then Some Keep
  else if String.eqb name "reverse" then Some Reverse
  else None.

Definition name_of_rescale (r : Rescale) : string :=
  match r with
  | Energy => "energy" | Velocity => "velocity"
  | Momentum => "momentum" | Augment => "augment"
  end.

Definition name_of_reject (r : Reject) : string :=
  match r with Keep => "keep" | Reverse => "reverse" end.

Definition init_error (md_type call_name text value : string) : string :=
  "( " +:+ md_type +:+ "." +:+ call_name +:+ " ) " +:+ text +:+ " " +:+ value.

Definition init (md_type call_name : string) (m : Mol) (l_nacme : bool)
    (istate : nat) (dt : R) (vel_rescale vel_reject : string) : string + SH :=
  match rescale_of_name vel_rescale with
  | None => inl (init_error md_type call_name "Invalid 'vel_rescale'!" vel_rescale)
  | Some resc =>
      match reject_of_name vel_reject with
      | None => inl (init_error md_type call_name "Invalid 'vel_reject'!" vel_reject)
      | Some rej =>
          if l_nacme && negb (is_energy resc) then
            inl (init_error md_type call_name
                   "Use 'energy' rescaling for 'vel_rescale'!" vel_rescale)
          else if l_nacme && negb (is_keep rej) then
            inl (init_error md_type call_name
                   "Use 'keep' rescaling for 'vel_reject'!" vel_reject)
          else
            inr {| mol := m; dt := dt; rstate := istate; rstate_old := istate;
                   rand := 0; prob := replicate (nst m) 0;
                   acc_prob := replicate (S (nst m)) 0;
                   l_hop := false; l_reject := false;
                   vel_rescale := resc; vel_reject := rej; event := [] |}
      end
  end.

(** *** print_step

    What [print] receives is returned as the list of the lines, in order.
    The decimal text of a float is not modelled: [fmt w p x] stands for
    [f"{x:w.pf}"].  [au_to_K] is the constant of the module [misc];
    [verbosity], [mol.dof], [mol.epot] and [mol.etot] are attributes that no
    other routine modelled here reads, and are passed as arguments. *)

Definition set_event (s : SH) (ev : list string) : SH :=
  {| mol := mol s; dt := dt s; rstate := rstate s; rstate_old := rstate_old s;
     rand := rand s; prob := prob s; acc_prob := acc_prob s;
     l_hop := l_hop s; l_reject := l_reject s;
     vel_rescale := vel_rescale s; vel_reject := vel_reject s;
     event := ev |}.

(** [max(l)]: the built-in keeps the first of the largest items, and raises
    [ValueError] on an empty sequence. *)
Definition max_list (l : list R) : option R :=
  match l with
  | [] => None
  | x :: l => Some (foldl (fun m y => if Rgtb y m then y else m) x l)
  end.

(** [np.where(l == x)[0][0]]: the first index that holds [x]; [IndexError]
    when there is none. *)
Fixpoint where_first (x : R) (l : list R) : option nat :=
  match l with
  | [] => None
  | y :: l => if Req_dec_T y x then Some O else S <$> where_first x l
  end.

(** The first block of [print_step]: [(max_prob, hstate)]. *)
Definition max_prob_hstate (istep : Z) (s : SH) : option (R * nat) :=
  if (istep =? -1)%Z then Some (0, rstate s)
  else
    match max_list (prob s) with
    | None => None
    | Some max_prob =>
        match where_first max_prob (prob s) with
        | None => None
        | Some hstate => Some (max_prob, hstate)
        end
    end.

Section Report.

Variable fmt : nat -> nat -> R -> string.
Variable au_to_K : R.

Definition print_step (verbosity istep : Z) (dof epot etot : R) (s : SH)
    : option (list string * SH) :=
  match max_prob_hstate istep s with
  | None => None
  | Some (max_prob, hstate) =>
      let m := mol s in
      let ctemp := ekin m * 2 / dof * au_to_K in
      let norm := foldl (fun norm ist => norm + Cre (rho m ist ist)) 0 (seq 0 (nst m)) in
      let INFO :=
        " INFO" +:+ rjust 9 (pretty (istep + 1)%Z) +:+ rjust 5 (pretty (rstate s))
        +:+ fmt 11 5 max_prob
        +:+ " (" +:+ pretty (rstate s) +:+ "->" +:+ pretty hstate +:+ ")"
        +:+ fmt 11 5 (rand s) in
      let INFO := INFO +:+ (fmt 14 8 (ekin m) +:+ fmt 15 8 epot +:+ fmt 15 8 etot) in
      let INFO := INFO +:+ fmt 13 6 ctemp in
      let INFO := INFO +:+ fmt 11 5 norm in
      let debug1 :=
        if (1 <=? verbosity)%Z then
          [foldl (fun DEBUG1 ist =>
                    DEBUG1 +:+ (fmt 17 8 (energy (states m !!! ist)) +:+ " "))
                 (" DEBUG1" +:+ rjust 7 (pretty (istep + 1)%Z)) (seq 0 (nst m))]
        else [] in
      let debug2 :=
        if (2 <=? verbosity)%Z then
          [foldl (fun DEBUG2 ist =>
                    DEBUG2 +:+ (fmt 12 5 (acc_prob s !!! ist) +:+ " ("
                                +:+ pretty (rstate s) +:+ "->" +:+ pretty ist +:+ ")"))
                 (" DEBUG2" +:+ rjust 7 (pretty (istep + 1)%Z)) (seq 0 (nst m))]
        else [] in
      let events := fmap (event_line istep "HOP") (event s) in
      Some (INFO :: debug1 ++ debug2 ++ events, set_event s [])
  end.

End Report.

End Mqc.

(** ** src/mqc_qed/sh.py *)

Module Qed.

(** One entry of [pol.pol_states]: its energy and its coefficient. *)
Record PolState := { energy : R; coef_a : C }.

#[global] Instance PolState_inhabited : Inhabited PolState :=
  populate {| energy := 0; coef_a := (0, 0) |}.

Definition set_coef (p : PolState) (c : C) : PolState :=
  {| energy := energy p; coef_a := c |}.

(** The attributes of the polariton object that the engine touches. *)
Record Pol := {
  pst : nat;                       (* number of polaritonic states *)
  nat_qm : nat;
  mass : list R;                   (* shape (nat) *)
  vel : list vec;                  (* shape (nat, ndim) *)
  pnac : nat -> nat -> list vec;   (* pnac[i, j] has shape (nat_qm, ndim) *)
  pnacme : nat -> nat -> R;
  rho_a : nat -> nat -> C;
  pol_states : list PolState;
  ekin : R;
  ekin_qm : R
}.

(** The attributes of the QED object that the engine reads. *)
Record QED := {
  unitary : nat -> nat -> R;
  ham_d : nat -> nat -> R;
  l_trivial : bool;
  trivial_state : nat
}.

Inductive ElecObject := Coefficient | Density.
Inductive DecCorrection := Idc | Edc.

(** The attributes of the [SH] object. *)
Record SH := {
  pol : Pol;
  dt : R;
  elec_object : ElecObject;
  rstate : nat;
  rstate_old : nat;
  rand : R;
  prob : list R;
  acc_prob : list R;
  l_hop : bool;
  l_reject : bool;
  hop_rescale : Rescale;
  hop_reject : Reject;
  dec_correction : option DecCorrection;
  edc_parameter : R;
  event : list string              (* event["HOP"] *)
}.

Definition set_vel (p : Pol) (v : list vec) : Pol :=
  {| pst := pst p; nat_qm := nat_qm p; mass := mass p; vel := v; pnac := pnac p;
     pnacme := pnacme p; rho_a := rho_a p; pol_states := pol_states p;
     ekin := ekin p; ekin_qm := ekin_qm p |}.

Definition set_electronic (p : Pol) (sts : list PolState) (rho : nat -> nat -> C) : Pol :=
  {| pst := pst p; nat_qm := nat_qm p; mass := mass p; vel := vel p; pnac := pnac p;
     pnacme := pnacme p; rho_a := rho; pol_states := sts;
     ekin := ekin p; ekin_qm := ekin_qm p |}.

Definition set_pol (s : SH) (p : Pol) : SH :=
  {| pol := p; dt := dt s; elec_object := elec_object s;
     rstate := rstate s; rstate_old := rstate_old s;
     rand := rand s; prob := prob s; acc_prob := acc_prob s;
     l_hop := l_hop s; l_reject := l_reject s;
     hop_rescale := hop_rescale s; hop_reject := hop_reject s;
     dec_correction := dec_correction s; edc_parameter := edc_parameter s;
     event := event s |}.

(** Modelled from the spec: [pol.update_kinetic] (see [kinetic]). *)
Definition update_kinetic (p : Pol) : Pol :=
  {| pst := pst p; nat_qm := nat_qm p; mass := mass p; vel := vel p; pnac := pnac p;
     pnacme := pnacme p; rho_a := rho_a p; pol_states := pol_states p;
     ekin := kinetic (mass p) (vel p);
     ekin_qm := kinetic (take (nat_qm p) (mass p)) (take (nat_qm p) (vel p)) |}.

(** [np.transpose] and [np.matmul] on square arrays of dimension [n]. *)
Definition transpose (A : nat -> nat -> R) : nat -> nat -> R := fun i j => A j i.
Definition matmul (n : nat) (A B : nat -> nat -> R) : nat -> nat -> R :=
  fun i j => rsum (fmap (fun k => A i k * B k j) (seq 0 n)).

(** [A[i, j] = v] *)
Definition upd2 {X} (A : nat -> nat -> X) (i j : nat) (v : X) : nat -> nat -> X :=
  fun i' j' => if (i' =? i)%nat && (j' =? j)%nat then v else A i' j'.

Section Engine.

(** [misc.eps]; the module [misc] is not part of the sources at hand. *)
Variable eps : R.

(** *** hop_prob *)

(** One turn of the loop taken when no trivial crossing is flagged.  As in
    src/mqc/sh.py, the quotient is the code's when the population of the
    running state is not zero. *)
Definition hop_prob_step (p : Pol) (tmp_ham : nat -> nat -> R) (dt : R) (rstate : nat)
    (st : list R * list R * R) (ist : nat) : list R * list R * R :=
  let '(prob, acc_prob, accum) := st in
  if negb (ist =? rstate)%nat then
    let q := - 2 * (Cim (rho_a p rstate ist) * tmp_ham rstate ist
                    - Cre (rho_a p rstate ist) * pnacme p rstate ist)
             * dt / Cre (rho_a p rstate rstate) in
    let q := if Rltb q 0 then 0 else q in
    let accum := accum + q in
    (<[ist := q]> prob, <[S ist := accum]> acc_prob, accum)
  else
    (prob, <[S ist := accum]> acc_prob, accum).

(** One turn of the loop taken when [qed.l_trivial] holds. *)
Definition hop_prob_trivial_step (trivial_state rstate : nat)
    (st : list R * list R * R) (ist : nat) : list R * list R * R :=
  let '(prob, acc_prob, accum) := st in
  if negb (ist =? rstate)%nat then
    let q := if (ist =? trivial_state)%nat then 1 else 0 in
    let accum := accum + q in
    (<[ist := q]> prob, <[S ist := accum]> acc_prob, accum)
  else
    (prob, <[S ist := accum]> acc_prob, accum).

Definition hop_prob (qed : QED) (s : SH) : SH :=
  let p := pol s in
  let rstate_old := rstate s in
  let prob := replicate (pst p) 0 in
  let acc_prob := replicate (S (pst p)) 0 in
  let tmp_ham :=
    matmul (pst p) (transpose (unitary qed)) (matmul (pst p) (ham_d qed) (unitary qed)) in
  let '(prob, acc_prob, _) :=
    if negb (l_trivial qed)
    then foldl (hop_prob_step p tmp_ham (dt s) (rstate s)) (prob, acc_prob, 0)
               (seq 0 (pst p))
    else foldl (hop_prob_trivial_step (trivial_state qed) (rstate s)) (prob, acc_prob, 0)
               (seq 0 (pst p)) in
  let psum := acc_prob !!! pst p in
  let '(prob, acc_prob) :=
    if Rgtb psum 1
    then (fmap (fun q => q / psum) prob, fmap (fun q => q / psum) acc_prob)
    else (prob, acc_prob) in
  {| pol := p; dt := dt s; elec_object := elec_object s;
     rstate := rstate s; rstate_old := rstate_old;
     rand := rand s; prob := prob; acc_prob := acc_prob;
     l_hop := false; l_reject := l_reject s;
     hop_rescale := hop_rescale s; hop_reject := hop_reject s;
     dec_correction := dec_correction s; edc_parameter := edc_parameter s;
     event := event s |}.

(** The quotient that [hop_prob] computes for candidate [ist] when no trivial
    crossing is flagged, before negative values are replaced by zero. *)
Definition quotient (qed : QED) (s : SH) (ist : nat) : R :=
  let p := pol s in
  let tmp_ham :=
    matmul (pst p) (transpose (unitary qed)) (matmul (pst p) (ham_d qed) (unitary qed)) in
  - 2 * (Cim (rho_a p (rstate s) ist) * tmp_ham (rstate s) ist
         - Cre (rho_a p (rstate s) ist) * pnacme p (rstate s) ist)
  * dt s / Cre (rho_a p (rstate s) (rstate s)).

(** *** hop_check *)

Definition hop_check_step (acc_prob : list R) (rand : R)
    (st : bool * nat * list nat) (ist : nat) : bool * nat * list nat :=
  let '(l_hop, rstate, pol_list) := st in
  if (ist =? rstate)%nat then st
  else if Rgtb rand (acc_prob !!! ist) && Rleb rand (acc_prob !!! S ist)
  then (true, ist, <[0%nat := ist]> pol_list)
  else st.

(** [draw] is the value [random.random()] returns. *)
Definition hop_check (draw : R) (s : SH) (pol_list : list nat) : SH * list nat :=
  let '(l_hop, rstate, pol_list) :=
    foldl (hop_check_step (acc_prob s) draw) (l_hop s, rstate s, pol_list)
          (seq 0 (pst (pol s))) in
  ({| pol := pol s; dt := dt s; elec_object := elec_object s;
      rstate := rstate; rstate_old := rstate_old s;
      rand := draw; prob := prob s; acc_prob := acc_prob s;
      l_hop := l_hop; l_reject := l_reject s;
      hop_rescale := hop_rescale s; hop_reject := hop_reject s;
      dec_correction := dec_correction s; edc_parameter := edc_parameter s;
      event := event s |}, pol_list).

(** *** evaluate_hop *)

Definition pot_diff (s : SH) : R :=
  energy (pol_states (pol s) !!! rstate s) - energy (pol_states (pol s) !!! rstate_old s).

(** The coefficients [(a, b, det)]; masses and velocities are cut to the QM
    region, which is the extent of [pnac[i, j]]. *)
Definition quadratic (s : SH) : R * R * R :=
  let p := pol s in
  let n := nat_qm p in
  let d := pnac p (rstate_old s) (rstate s) in
  match hop_rescale s with
  | Energy => (1, 1, 1)
  | Velocity =>
      let a := rsum (vec_mul (take n (mass p)) (row_sum (arr_sq d))) in
      let b := 2 * rsum (vec_mul (take n (mass p))
                                 (row_sum (arr_mul d (take n (vel p))))) in
      let c := 2 * pot_diff s in
      (a, b, b ^ 2 - 4 * a * c)
  | Momentum | Augment =>
      let a := rsum (vec_mul (vec_inv (take n (mass p))) (row_sum (arr_sq d))) in
      let b := 2 * rsum (row_sum (arr_mul d (take n (vel p)))) in
      let c := 2 * pot_diff s in
      (a, b, b ^ 2 - 4 * a * c)
  end.

Definition decide_reject (resc : Rescale) (ekin_qm pot_diff det : R) : bool :=
  let l_reject := false in
  let l_reject := if is_energy resc && Rltb ekin_qm eps then true else l_reject in
  let l_reject := if Rltb ekin_qm pot_diff then true else l_reject in
  let l_reject := if Rltb det 0 then true else l_reject in
  let l_reject := if is_augment resc && Rgtb ekin_qm pot_diff then false else l_reject in
  l_reject.

(** The value [self.l_reject] receives when a selected hop is evaluated and
    no trivial crossing is flagged. *)
Definition rejects (s : SH) : bool :=
  decide_reject (hop_rescale s) (ekin_qm (pol s)) (pot_diff s) (quadratic s).2.

Definition rescale_vel (p : Pol) (resc : Rescale) (d : list vec)
    (x det pot_diff : R) : list vec :=
  let n := nat_qm p in
  match resc with
  | Energy => assign_head n (arr_scale x (take n (vel p))) (vel p)
  | Velocity =>
      assign_head n (arr_add (take n (vel p)) (arr_scale x d)) (vel p)
  | Momentum =>
      assign_head n
        (arr_add (take n (vel p)) (arr_div_col (arr_scale x d) (take n (mass p))))
        (vel p)
  | Augment =>
      if Rgtb det 0 || Rltb (ekin_qm p) pot_diff then
        assign_head n
          (arr_add (take n (vel p)) (arr_div_col (arr_scale x d) (take n (mass p))))
          (vel p)
      else assign_head n (arr_scale x (take n (vel p))) (vel p)
  end.

(** As in src/mqc/sh.py, the factor [x] is the code's when [a] is not
    zero. *)
Definition evaluate_hop (qed : QED) (s : SH) (pol_list : list nat) : SH * list nat :=
  let '(s, pol_list) :=
    if l_hop s then
      if negb (l_trivial qed) then
        let p := pol s in
        let pot_diff := pot_diff s in
        let '(a, b, det) := quadratic s in
        let l_reject := decide_reject (hop_rescale s) (ekin_qm p) pot_diff det in
        (* [x] is unbound in Python after a rejection under "keep"; it is not
           read on that path, and stands as 0 here. *)
        let '(event, x, l_hop, rstate, pol_list) :=
          if l_reject then
            let event :=
              if Rltb (ekin_qm p) pot_diff
              then event s ++ [ev_reject_kinetic (rstate s) (rstate_old s)]
              else event s in
            let '(event, x) :=
              match hop_reject s with
              | Keep => (event ++ [ev_reject_keep], 0)
              | Reverse => (event ++ [ev_reject_reverse], - b / a)
              end in
            (event, x, false, rstate_old s, <[0%nat := rstate_old s]> pol_list)
          else
            if is_energy (hop_rescale s) || (Rltb det 0 && is_augment (hop_rescale s))
            then
              let event :=
                if Rltb det 0 then event s ++ [ev_accept_simple] else event s in
              (event, sqrt (1 - pot_diff / ekin_qm p), l_hop s, rstate s, pol_list)
            else
              let x :=
                if Rltb b 0 then 0.5 * (- b - sqrt det) / a
                else 0.5 * (- b + sqrt det) / a in
              (event s, x, l_hop s, rstate s, pol_list) in
        let d := pnac p (rstate_old s) rstate in
        let vel :=
          if negb (is_keep (hop_reject s) && l_reject)
          then rescale_vel p (hop_rescale s) d x det pot_diff
          else vel p in
        ({| pol := update_kinetic (set_vel p vel); dt := dt s;
            elec_object := elec_object s;
            rstate := rstate; rstate_old := rstate_old s;
            rand := rand s; prob := prob s; acc_prob := acc_prob s;
            l_hop := l_hop; l_reject := l_reject;
            hop_rescale := hop_rescale s; hop_reject := hop_reject s;
            dec_correction := dec_correction s; edc_parameter := edc_parameter s;
            event := event |}, pol_list)
      else (s, pol_list)
    else (s, pol_list) in
  if negb (rstate s =? rstate_old s)%nat then
    let line :=
      if negb (l_trivial qed) then ev_accept (rstate_old s) (rstate s)
      else ev_trivial (rstate_old s) (rstate s) in
    ({| pol := pol s; dt := dt s; elec_object := elec_object s;
        rstate := rstate s; rstate_old := rstate_old s;
        rand := rand s; prob := prob s; acc_prob := acc_prob s;
        l_hop := l_hop s; l_reject := l_reject s;
        hop_rescale := hop_rescale s; hop_reject := hop_reject s;
        dec_correction := dec_correction s; edc_parameter := edc_parameter s;
        event := event s ++ [line] |}, pol_list)
  else (s, pol_list).

(** The three calls [run] makes at every nuclear step, in its order. *)
Definition step (qed : QED) (draw : R) (s : SH) (pol_list : list nat) : SH * list nat :=
  let s := hop_prob qed s in
  let '(s, pol_list) := hop_check draw s pol_list in
  evaluate_hop qed s pol_list.

End Engine.

(** *** correct_dec_idc *)

Definition correct_dec_idc (s : SH) : SH :=
  let p := pol s in
  let sts :=
    match elec_object s with
    | Coefficient =>
        let sts := fmap (fun st => set_coef st (0, 0)) (pol_states p) in
        <[rstate s := set_coef (sts !!! rstate s) (1, 0)]> sts
    | Density => pol_states p
    end in
  let rho := upd2 (fun _ _ => (0, 0)) (rstate s) (rstate s) (1, 0) in
  set_pol s (set_electronic p sts rho).

(** *** correct_dec_edc *)

(** [exp_tau[ist]].  The value is the code's when the kinetic energy of the
    QM region and [1 + C / E_kin] are not zero; the theorems about the decay
    assume both. *)
Definition exp_tau (s : SH) (ist : nat) : R :=
  if (ist =? rstate s)%nat then 1
  else exp (- dt s / ((1 + edc_parameter s / ekin_qm (pol s))
                      / Rabs (energy (pol_states (pol s) !!! ist)
                              - energy (pol_states (pol s) !!! rstate s)))).

(** One turn of the loop "Update coefficients", on
    [(self.pol.pol_states, rho_update)]. *)
Definition edc_coef_step (s : SH) (st : list PolState * C) (ist : nat)
    : list PolState * C :=
  let '(sts, rho_update) := st in
  if negb (ist =? rstate s)%nat then
    let c := coef_a (sts !!! ist) in
    let c := (Cre c * exp_tau s ist, Cim c * exp_tau s ist) in
    (<[ist := set_coef (sts !!! ist) c]> sts, Cminus rho_update (Cmult (Cconj c) c))
  else st.

(** One turn of the inner loop [for jst in range(ist, self.pol.pst)]. *)
Definition edc_rho_inner (sts : list PolState) (ist : nat)
    (rho : nat -> nat -> C) (jst : nat) : nat -> nat -> C :=
  let rho := upd2 rho ist jst
               (Cmult (Cconj (coef_a (sts !!! ist))) (coef_a (sts !!! jst))) in
  upd2 rho jst ist (Cconj (rho ist jst)).

(** One turn of the outer loop [for ist in range(self.pol.pst)]. *)
Definition edc_rho_outer (n : nat) (sts : list PolState)
    (rho : nat -> nat -> C) (ist : nat) : nat -> nat -> C :=
  foldl (edc_rho_inner sts ist) rho (seq ist (n - ist)).

(** The quotient [rho_update / rho_a[rstate, rstate]] is the code's when the
    population of the running state is not zero; at zero the code's
    quotient is not a number (see [correct_dec_edc_at]). *)
Definition correct_dec_edc (s : SH) : SH :=
  let p := pol s in
  match elec_object s with
  | Coefficient =>
      let '(sts, rho_update) :=
        foldl (edc_coef_step s) (pol_states p, (1, 0)) (seq 0 (pst p)) in
      let c := coef_a (sts !!! rstate s) in
      let c := Cmult c (Csqrt (Cdiv rho_update (rho_a p (rstate s) (rstate s)))) in
      let sts := <[rstate s := set_coef (sts !!! rstate s) c]> sts in
      let rho := foldl (edc_rho_outer (pst p) sts) (rho_a p) (seq 0 (pst p)) in
      set_pol s (set_electronic p sts rho)
  | Density => s
  end.

(** The value of [rho_update] when the loop "Update coefficients" ends. *)
Definition edc_rho_update (s : SH) : C :=
  (foldl (edc_coef_step s) (pol_states (pol s), (1, 0)) (seq 0 (pst (pol s)))).2.

(** [correct_dec_edc] with the number [q] standing in the place of the
    quotient [rho_update / self.pol.rho_a[self.rstate, self.rstate]]: what
    the routine does once that quotient has a value. *)
Definition correct_dec_edc_at (q : C) (s : SH) : SH :=
  let p := pol s in
  match elec_object s with
  | Coefficient =>
      let '(sts, _) :=
        foldl (edc_coef_step s) (pol_states p, (1, 0)) (seq 0 (pst p)) in
      let c := coef_a (sts !!! rstate s) in
      let c := Cmult c (Csqrt q) in
      let sts := <[rstate s := set_coef (sts !!! rstate s) c]> sts in
      let rho := foldl (edc_rho_outer (pst p) sts) (rho_a p) (seq 0 (pst p)) in
      set_pol s (set_electronic p sts rho)
  | Density => s
  end.

(** *** The decoherence block of [run]

    What [run] does between [evaluate_hop] and the next request to the
    backend, without the call [qed.transform] that follows either
    correction: the basis transform belongs to the QED object. *)
Definition decoherence (eps : R) (s : SH) : SH :=
  match dec_correction s with
  | Some Idc => if l_hop s || l_reject s then correct_dec_idc s else s
  | Some Edc => if Rgtb (ekin_qm (pol s)) eps then correct_dec_edc s else s
  | None => s
  end.

(** The coefficient of state [ist] times its decay factor [exp_tau[ist]]. *)
Definition decayed (s : SH) (ist : nat) : C :=
  let c := coef_a (pol_states (pol s) !!! ist) in
  (Cre c * exp_tau s ist, Cim c * exp_tau s ist).

(** The population left on the states other than the running one after their
    decay: one minus this number is the value of [rho_update]. *)
Definition decayed_population (s : SH) : R :=
  partial_sum (rstate s) (fun ist => Cnorm2 (decayed s ist)) (pst (pol s)).

(** *** update_energy

    As in src/mqc/sh.py: [pol.epot] and [pol.etot] are returned beside the
    engine. *)
Definition update_energy (s : SH) : SH * (R * R) :=
  let p := update_kinetic (pol s) in
  let epot := energy (pol_states p !!! rstate s) in
  let etot := epot + ekin p in
  (set_pol s p, (epot, etot)).

(** The sum [norm] that [print_step] accumulates: the total population. *)
Definition norm (s : SH) : R :=
  rsum (fmap (fun ist => Cre (rho_a (pol s) ist ist)) (seq 0 (pst (pol s)))).

(** *** print_step and the reporting lines of [run]

    What [print] receives is returned as the list of the lines, in order.
    The decimal text of a float is not modelled: [fmt w p x] stands for
    [f"{x:w.pf}"].  [au_to_K] is the constant of the module [misc];
    [verbosity], [pol.ndof], [pol.epot] and [pol.etot] are attributes that no
    other routine modelled here reads, and are passed as arguments. *)

Definition set_event (s : SH) (ev : list string) : SH :=
  {| pol := pol s; dt := dt s; elec_object := elec_object s;
     rstate := rstate s; rstate_old := rstate_old s;
     rand := rand s; prob := prob s; acc_prob := acc_prob s;
     l_hop := l_hop s; l_reject := l_reject s;
     hop_rescale := hop_rescale s; hop_reject := hop_reject s;
     dec_correction := dec_correction s; edc_parameter := edc_parameter s;
     event := ev |}.

Section Report.

Variable fmt : nat -> nat -> R -> string.
Variable au_to_K : R.

Definition print_step (verbosity istep : Z) (ndof epot etot : R) (s : SH)
    : list string * SH :=
  let p := pol s in
  let ctemp := ekin p * 2 / ndof * au_to_K in
  let norm := foldl (fun norm ist => norm + Cre (rho_a p ist ist)) 0 (seq 0 (pst p)) in
  let INFO := " INFO" +:+ rjust 9 (pretty (istep + 1)%Z) +:+ rjust 5 (pretty (rstate s)) in
  let INFO := INFO +:+ (fmt 16 8 (ekin p) +:+ fmt 15 8 epot +:+ fmt 15 8 etot) in
  let INFO := INFO +:+ fmt 13 6 ctemp in
  let INFO := INFO +:+ fmt 11 5 norm in
  let debug :=
    if (1 <=? verbosity)%Z then
      let DEBUG1 := " DEBUG1" +:+ rjust 7 (pretty (istep + 1)%Z) in
      let DEBUG1 := DEBUG1 +:+ fmt 11 5 (rand s) in
      [foldl (fun DEBUG1 ist =>
                DEBUG1 +:+ (fmt 12 5 (acc_prob s !!! ist) +:+ " (" +:+ pretty (rstate s)
                            +:+ "->" +:+ pretty ist +:+ ")"))
             DEBUG1 (seq 0 (pst p))]
    else [] in
  let events := fmap (event_line istep "HOP") (event s) in
  (INFO :: debug ++ events, set_event s []).

(** The lines of [run] that decide whether [print_step] is called:
    [if ((istep + 1) % self.out_freq == 0 or len(self.event["HOP"]) > 0)].
    The remainder by zero raises [ZeroDivisionError], which is [None]. *)
Definition report (out_freq verbosity istep : Z) (ndof epot etot : R) (s : SH)
    : option (list string * SH) :=
  if (out_freq =? 0)%Z then None
  else if ((istep + 1) mod out_freq =? 0)%Z || (0 <? length (event s))%nat
  then Some (print_step verbosity istep ndof epot etot s)
  else Some ([], s).

End Report.

End Qed.

(** ** src/mqc_qed/bomd.py *)

Module Bomd.

(** The attributes of the [BOMD] object that [trivial_hop] touches; the
    polariton object is the one of src/mqc_qed/sh.py. *)
Record BOMD := {
  pol : Qed.Pol;
  rstate : nat;
  rstate_old : nat;
  l_hop : bool;
  event : list string              (* event["HOP"] *)
}.

(** *** trivial_hop

    [pol_list[0] = self.rstate] is an index assignment, as in [hop_check]:
    [run] builds [pol_list] with one entry. *)

Definition trivial_hop (qed : Qed.QED) (s : BOMD) (pol_list : list nat)
    : BOMD * list nat :=
  let rstate_old := rstate s in
  let l_hop := false in
  let '(l_hop, rstate, pol_list) :=
    if Qed.l_trivial qed
    then (true, Qed.trivial_state qed, <[0%nat := Qed.trivial_state qed]> pol_list)
    else (l_hop, rstate s, pol_list) in
  let event :=
    if negb (rstate =? rstate_old)%nat
    then event s ++ [ev_trivial rstate_old rstate]
    else event s in
  ({| pol := pol s; rstate := rstate; rstate_old := rstate_old;
      l_hop := l_hop; event := event |}, pol_list).

End Bomd.

(** ** Sample inputs

    A two-state system with one atom of unit mass, used to run the engine on
    concrete data.  [d] is the coupling vector between states 0 and 1, [v]
    the velocity of the atom, [e0] and [e1] the energies of the two states
    and [k] the stored kinetic energy of the QM region. *)

Module Sample.

(** A value for [misc.eps], small and positive, for running the engine on
    the samples. *)
Definition eps : R := 1 / 10 ^ 12.

(** [src/mqc/sh.py]; a hop from 0 to 1 has been selected when [hop] holds. *)
Definition mol (d v : vec) (e0 e1 k : R) : Mqc.Mol :=
  {| Mqc.nst := 2; Mqc.nat_qm := 1; Mqc.mass := [1]; Mqc.vel := [v];
     Mqc.nac := fun i j => if (i =? j)%nat then [fmap (fun _ => 0) d] else [d];
     Mqc.nacme := fun _ _ => 0;
     Mqc.rho := fun _ _ => (0, 0);
     Mqc.states := [ {| Mqc.energy := e0 |}; {| Mqc.energy := e1 |} ];
     Mqc.ekin := k; Mqc.ekin_qm := k |}.

Definition sh (resc : Rescale) (rej : Reject) (hop : bool)
    (d v : vec) (e0 e1 k : R) : Mqc.SH :=
  {| Mqc.mol := mol d v e0 e1 k; Mqc.dt := 1;
     Mqc.rstate := if hop then 1%nat else 0%nat; Mqc.rstate_old := 0;
     Mqc.rand := 0; Mqc.prob := [0; 0]; Mqc.acc_prob := [0; 0; 0];
     Mqc.l_hop := hop; Mqc.l_reject := false;
     Mqc.vel_rescale := resc; Mqc.vel_reject := rej; Mqc.event := [] |}.

(** The same engine with another probability vector and cumulative vector. *)
Definition with_prob (s : Mqc.SH) (prob acc : list R) : Mqc.SH :=
  {| Mqc.mol := Mqc.mol s; Mqc.dt := Mqc.dt s;
     Mqc.rstate := Mqc.rstate s; Mqc.rstate_old := Mqc.rstate_old s;
     Mqc.rand := Mqc.rand s; Mqc.prob := prob; Mqc.acc_prob := acc;
     Mqc.l_hop := Mqc.l_hop s; Mqc.l_reject := Mqc.l_reject s;
     Mqc.vel_rescale := Mqc.vel_rescale s; Mqc.vel_reject := Mqc.vel_reject s;
     Mqc.event := Mqc.event s |}.

(** The same engine with another density matrix, coupling matrix elements
    and time step. *)
Definition with_coupling (s : Mqc.SH) (rho : nat -> nat -> C)
    (nacme : nat -> nat -> R) (dt : R) : Mqc.SH :=
  let m := Mqc.mol s in
  {| Mqc.mol :=
       {| Mqc.nst := Mqc.nst m; Mqc.nat_qm := Mqc.nat_qm m; Mqc.mass := Mqc.mass m;
          Mqc.vel := Mqc.vel m; Mqc.nac := Mqc.nac m; Mqc.nacme := nacme;
          Mqc.rho := rho; Mqc.states := Mqc.states m;
          Mqc.ekin := Mqc.ekin m; Mqc.ekin_qm := Mqc.ekin_qm m |};
     Mqc.dt := dt;
     Mqc.rstate := Mqc.rstate s; Mqc.rstate_old := Mqc.rstate_old s;
     Mqc.rand := Mqc.rand s; Mqc.prob := Mqc.prob s; Mqc.acc_prob := Mqc.acc_prob s;
     Mqc.l_hop := Mqc.l_hop s; Mqc.l_reject := Mqc.l_reject s;
     Mqc.vel_rescale := Mqc.vel_rescale s; Mqc.vel_reject := Mqc.vel_reject s;
     Mqc.event := Mqc.event s |}.

(** [src/mqc_qed/sh.py]: the same system, with running state [r] and
    coefficients [c0] and [c1]; the density matrix is their outer product. *)
Definition pol (d v : vec) (e0 e1 k : R) (c0 c1 : C) : Qed.Pol :=
  {| Qed.pst := 2; Qed.nat_qm := 1; Qed.mass := [1]; Qed.vel := [v];
     Qed.pnac := fun i j => if (i =? j)%nat then [fmap (fun _ => 0) d] else [d];
     Qed.pnacme := fun _ _ => 0;
     Qed.rho_a := fun i j =>
       Cmult (Cconj (if (i =? 0)%nat then c0 else c1)) (if (j =? 0)%nat then c0 else c1);
     Qed.pol_states := [ {| Qed.energy := e0; Qed.coef_a := c0 |};
                         {| Qed.energy := e1; Qed.coef_a := c1 |} ];
     Qed.ekin := k; Qed.ekin_qm := k |}.

Definition qsh (resc : Rescale) (rej : Reject) (hop : bool) (r : nat)
    (d v : vec) (e0 e1 k : R) (c0 c1 : C) : Qed.SH :=
  {| Qed.pol := pol d v e0 e1 k c0 c1; Qed.dt := 1;
     Qed.elec_object := Qed.Coefficient;
     Qed.rstate := r; Qed.rstate_old := 0;
     Qed.rand := 0; Qed.prob := [0; 0]; Qed.acc_prob := [0; 0; 0];
     Qed.l_hop := hop; Qed.l_reject := false;
     Qed.hop_rescale := resc; Qed.hop_reject := rej;
     Qed.dec_correction := Some Qed.Edc; Qed.edc_parameter := 0.1;
     Qed.event := [] |}.

(** The same engine with another decoherence correction and rejection flag. *)
Definition with_flags (s : Qed.SH) (dec : option Qed.DecCorrection)
    (l_reject : bool) : Qed.SH :=
  {| Qed.pol := Qed.pol s; Qed.dt := Qed.dt s; Qed.elec_object := Qed.elec_object s;
     Qed.rstate := Qed.rstate s; Qed.rstate_old := Qed.rstate_old s;
     Qed.rand := Qed.rand s; Qed.prob := Qed.prob s; Qed.acc_prob := Qed.acc_prob s;
     Qed.l_hop := Qed.l_hop s; Qed.l_reject := l_reject;
     Qed.hop_rescale := Qed.hop_rescale s; Qed.hop_reject := Qed.hop_reject s;
     Qed.dec_correction := dec; Qed.edc_parameter := Qed.edc_parameter s;
     Qed.event := Qed.event s |}.

Definition qed (trivial : bool) (target : nat) : Qed.QED :=
  {| Qed.unitary := fun i j => if (i =? j)%nat then 1 else 0;
     Qed.ham_d := fun _ _ => 0;
     Qed.l_trivial := trivial; Qed.trivial_state := target |}.

End Sample.

(** * Properties *)

(** ** Comparisons *)

Lemma Rltb_true x y : x < y -> Rltb x y = true.
Proof. intros H. unfold Rltb. destruct (Rlt_dec x y); [reflexivity | contradiction]. Qed.

Lemma Rltb_false x y : ~ x < y -> Rltb x y = false.
Proof. intros H. unfold Rltb. destruct (Rlt_dec x y); [contradiction | reflexivity]. Qed.

Lemma Rltb_lt x y : Rltb x y = true <-> x < y.
Proof. unfold Rltb. destruct (Rlt_dec x y); split; intros; try done. Qed.

Lemma Rltb_ge x y : Rltb x y = false <-> y <= x.
Proof.
  unfold Rltb. destruct (Rlt_dec x y); split; intros; try done; lra.
Qed.

Lemma Rgtb_gt x y : Rgtb x y = true <-> x > y.
Proof. unfold Rgtb. rewrite Rltb_lt. lra. Qed.

Lemma Rgtb_le x y : Rgtb x y = false <-> x <= y.
Proof. unfold Rgtb. apply Rltb_ge. Qed.

Lemma Rleb_le x y : Rleb x y = true <-> x <= y.
Proof. unfold Rleb. destruct (Rle_dec x y); split; intros; try done. Qed.

Lemma Rleb_gt x y : Rleb x y = false <-> y < x.
Proof. unfold Rleb. destruct (Rle_dec x y); split; intros; try done; lra. Qed.

(** Run the engine on concrete data, leaving the real numbers as they are. *)
Ltac runR :=
  cbv -[Rplus Rmult Rminus Rdiv Ropp Rinv IZR Rlt Rgt Rle Rge sqrt exp pow Rabs
        Rltb Rgtb Rleb].

(** Decide every comparison of the goal whose two sides are known numbers. *)
Ltac rdecide :=
  repeat match goal with
  | |- context [Rltb ?x ?y] =>
      first [ rewrite (Rltb_true x y) by (simpl; lra)
            | rewrite (Rltb_false x y) by (simpl; lra) ]
  | |- context [Rgtb ?x ?y] => unfold Rgtb
  | |- context [Rleb ?x ?y] =>
      first [ rewrite (proj2 (Rleb_le x y)) by (simpl; lra)
            | rewrite (proj2 (Rleb_gt x y)) by (simpl; lra) ]
  end.

(** ** [evaluate_hop] of src/mqc/sh.py, case by case *)

Section MqcEvaluate.

Variable eps : R.
Implicit Types (s : Mqc.SH) (bo : list nat).

(** Without a selected hop and with the running state unchanged, nothing
    is touched. *)
Lemma Mqc_evaluate_idle s bo :
  Mqc.l_hop s = false -> Mqc.rstate s = Mqc.rstate_old s ->
  Mqc.evaluate_hop eps s bo = (s, bo).
Proof.
  intros Hhop Hr. unfold Mqc.evaluate_hop.
  rewrite Hhop, Hr, Nat.eqb_refl. reflexivity.
Qed.

(** A selected hop is rejected exactly when [rejects] says so. *)
Lemma Mqc_evaluate_l_reject s bo :
  Mqc.l_hop s = true ->
  Mqc.l_reject (Mqc.evaluate_hop eps s bo).1 = Mqc.rejects eps s.
Proof.
  intros Hhop. unfold Mqc.evaluate_hop, Mqc.rejects. rewrite Hhop.
  destruct (Mqc.quadratic s) as [[a b] det]. cbn [snd].
  destruct (Mqc.decide_reject _ _ _ _ _) eqn:Hrej.
  - destruct (Rltb _ _), (Mqc.vel_reject s); cbn; rewrite Nat.eqb_refl; reflexivity.
  - destruct (is_energy _ || _); [destruct (Rltb det 0) |];
      cbn; destruct (negb _); reflexivity.
Qed.

(** What a rejected hop leaves behind. *)
Lemma Mqc_evaluate_rejected s bo :
  Mqc.l_hop s = true -> Mqc.rejects eps s = true ->
  let r := Mqc.evaluate_hop eps s bo in
  Mqc.rstate r.1 = Mqc.rstate_old s /\ Mqc.rstate_old r.1 = Mqc.rstate_old s /\
  Mqc.l_hop r.1 = false /\ r.2 = <[0%nat := Mqc.rstate_old s]> bo /\
  Mqc.event r.1 =
    Mqc.event s
    ++ (if Rltb (Mqc.ekin_qm (Mqc.mol s)) (Mqc.pot_diff s)
        then [ev_reject_kinetic (Mqc.rstate s) (Mqc.rstate_old s)] else [])
    ++ [match Mqc.vel_reject s with
        | Keep => ev_reject_keep | Reverse => ev_reject_reverse end] /\
  (Mqc.vel_reject s = Keep -> Mqc.vel (Mqc.mol r.1) = Mqc.vel (Mqc.mol s)).
Proof.
  intros Hhop Hrej. unfold Mqc.evaluate_hop. unfold Mqc.rejects in Hrej. rewrite Hhop.
  destruct (Mqc.quadratic s) as [[a b] det]. cbn [snd] in Hrej. rewrite Hrej.
  destruct (Rltb _ _), (Mqc.vel_reject s); cbn; rewrite Nat.eqb_refl; cbn;
    rewrite <- ?app_assoc, ?app_nil_r; repeat split; intros; try done.
Qed.

(** What an accepted hop leaves behind. *)
Lemma Mqc_evaluate_accepted s bo :
  Mqc.l_hop s = true -> Mqc.rejects eps s = false ->
  let r := Mqc.evaluate_hop eps s bo in
  let '(a, b, det) := Mqc.quadratic s in
  let simple := is_energy (Mqc.vel_rescale s)
                || (Rltb det 0 && is_augment (Mqc.vel_rescale s)) in
  let x := if simple then sqrt (1 - Mqc.pot_diff s / Mqc.ekin_qm (Mqc.mol s))
           else if Rltb b 0 then 0.5 * (- b - sqrt det) / a
           else 0.5 * (- b + sqrt det) / a in
  Mqc.rstate r.1 = Mqc.rstate s /\ Mqc.rstate_old r.1 = Mqc.rstate_old s /\
  Mqc.l_hop r.1 = true /\ r.2 = bo /\
  Mqc.event r.1 =
    Mqc.event s
    ++ (if simple && Rltb det 0 then [ev_accept_simple] else [])
    ++ (if (Mqc.rstate s =? Mqc.rstate_old s)%nat then []
        else [ev_accept (Mqc.rstate_old s) (Mqc.rstate s)]) /\
  Mqc.mol r.1 =
    Mqc.update_kinetic (Mqc.set_vel (Mqc.mol s)
      (Mqc.rescale_vel (Mqc.mol s) (Mqc.vel_rescale s)
         (Mqc.nac (Mqc.mol s) (Mqc.rstate_old s) (Mqc.rstate s)) x det (Mqc.pot_diff s))).
Proof.
  intros Hhop Hrej. unfold Mqc.evaluate_hop. unfold Mqc.rejects in Hrej.
  rewrite Hhop.
  destruct (Mqc.quadratic s) as [[a b] det]. cbn [snd] in Hrej. rewrite Hrej.
  rewrite andb_false_r. cbn [negb].
  destruct (is_energy _ || _); [destruct (Rltb det 0) |];
    cbn; destruct (_ =? _)%nat; cbn;
    rewrite <- ?app_assoc, ?app_nil_r; repeat split; done.
Qed.

End MqcEvaluate.

(** ** [evaluate_hop] of src/mqc_qed/sh.py, case by case *)

Section QedEvaluate.

Variable eps : R.
Implicit Types (s : Qed.SH) (pl : list nat) (qed : Qed.QED).

Lemma Qed_evaluate_idle qed s pl :
  Qed.l_hop s = false -> Qed.rstate s = Qed.rstate_old s ->
  Qed.evaluate_hop eps qed s pl = (s, pl).
Proof.
  intros Hhop Hr. unfold Qed.evaluate_hop.
  rewrite Hhop, Hr, Nat.eqb_refl. reflexivity.
Qed.

(** Under a flagged trivial crossing the whole rescaling block is skipped:
    only the event line is written. *)
Lemma Qed_evaluate_trivial qed s pl :
  Qed.l_trivial qed = true ->
  let r := Qed.evaluate_hop eps qed s pl in
  Qed.pol r.1 = Qed.pol s /\ Qed.rstate r.1 = Qed.rstate s /\
  Qed.rstate_old r.1 = Qed.rstate_old s /\
  Qed.l_hop r.1 = Qed.l_hop s /\ Qed.l_reject r.1 = Qed.l_reject s /\
  r.2 = pl /\
  Qed.event r.1 =
    Qed.event s
    ++ (if (Qed.rstate s =? Qed.rstate_old s)%nat then []
        else [ev_trivial (Qed.rstate_old s) (Qed.rstate s)]).
Proof.
  intros Htriv. unfold Qed.evaluate_hop. rewrite Htriv. cbn [negb].
  assert (Hsame : (if Qed.l_hop s then (s, pl) else (s, pl)) = (s, pl))
    by (destruct (Qed.l_hop s); reflexivity).
  rewrite Hsame. destruct (_ =? _)%nat; cbn; rewrite ?app_nil_r; repeat split; done.
Qed.

Lemma Qed_evaluate_l_reject qed s pl :
  Qed.l_hop s = true -> Qed.l_trivial qed = false ->
  Qed.l_reject (Qed.evaluate_hop eps qed s pl).1 = Qed.rejects eps s.
Proof.
  intros Hhop Htriv. unfold Qed.evaluate_hop, Qed.rejects. rewrite Hhop, Htriv.
  cbn [negb].
  destruct (Qed.quadratic s) as [[a b] det]. cbn [snd].
  destruct (Qed.decide_reject _ _ _ _ _) eqn:Hrej.
  - destruct (Rltb _ _), (Qed.hop_reject s); cbn; rewrite Nat.eqb_refl; reflexivity.
  - destruct (is_energy _ || _); [destruct (Rltb det 0) |];
      cbn; destruct (negb _); reflexivity.
Qed.

Lemma Qed_evaluate_rejected qed s pl :
  Qed.l_hop s = true -> Qed.l_trivial qed = false -> Qed.rejects eps s = true ->
  let r := Qed.evaluate_hop eps qed s pl in
  Qed.rstate r.1 = Qed.rstate_old s /\ Qed.rstate_old r.1 = Qed.rstate_old s /\
  Qed.l_hop r.1 = false /\ r.2 = <[0%nat := Qed.rstate_old s]> pl /\
  Qed.event r.1 =
    Qed.event s
    ++ (if Rltb (Qed.ekin_qm (Qed.pol s)) (Qed.pot_diff s)
        then [ev_reject_kinetic (Qed.rstate s) (Qed.rstate_old s)] else [])
    ++ [match Qed.hop_reject s with
        | Keep => ev_reject_keep | Reverse => ev_reject_reverse end] /\
  (Qed.hop_reject s = Keep -> Qed.vel (Qed.pol r.1) = Qed.vel (Qed.pol s)).
Proof.
  intros Hhop Htriv Hrej. unfold Qed.evaluate_hop. unfold Qed.rejects in Hrej.
  rewrite Hhop, Htriv. cbn [negb].
  destruct (Qed.quadratic s) as [[a b] det]. cbn [snd] in Hrej. rewrite Hrej.
  destruct (Rltb _ _), (Qed.hop_reject s); cbn; rewrite Nat.eqb_refl; cbn;
    rewrite <- ?app_assoc, ?app_nil_r; repeat split; intros; try done.
Qed.

Lemma Qed_evaluate_accepted qed s pl :
  Qed.l_hop s = true -> Qed.l_trivial qed = false -> Qed.rejects eps s = false ->
  let r := Qed.evaluate_hop eps qed s pl in
  let '(a, b, det) := Qed.quadratic s in
  let simple := is_energy (Qed.hop_rescale s)
                || (Rltb det 0 && is_augment (Qed.hop_rescale s)) in
  let x := if simple then sqrt (1 - Qed.pot_diff s / Qed.ekin_qm (Qed.pol s))
           else if Rltb b 0 then 0.5 * (- b - sqrt det) / a
           else 0.5 * (- b + sqrt det) / a in
  Qed.rstate r.1 = Qed.rstate s /\ Qed.rstate_old r.1 = Qed.rstate_old s /\
  Qed.l_hop r.1 = true /\ r.2 = pl /\
  Qed.event r.1 =
    Qed.event s
    ++ (if simple && Rltb det 0 then [ev_accept_simple] else [])
    ++ (if (Qed.rstate s =? Qed.rstate_old s)%nat then []
        else [ev_accept (Qed.rstate_old s) (Qed.rstate s)]) /\
  Qed.pol r.1 =
    Qed.update_kinetic (Qed.set_vel (Qed.pol s)
      (Qed.rescale_vel (Qed.pol s) (Qed.hop_rescale s)
         (Qed.pnac (Qed.pol s) (Qed.rstate_old s) (Qed.rstate s)) x det (Qed.pot_diff s))).
Proof.
  intros Hhop Htriv Hrej. unfold Qed.evaluate_hop. unfold Qed.rejects in Hrej.
  rewrite Hhop, Htriv. cbn [negb].
  destruct (Qed.quadratic s) as [[a b] det]. cbn [snd] in Hrej. rewrite Hrej.
  rewrite andb_false_r. cbn [negb].
  destruct (is_energy _ || _); [destruct (Rltb det 0) |];
    cbn; destruct (_ =? _)%nat; cbn;
    rewrite <- ?app_assoc, ?app_nil_r; repeat split; done.
Qed.

End QedEvaluate.

(** ** The claims about [evaluate_hop] *)

(** C10.  When the selector picked no target (the hop flag is false and the
    running state equals its value before the step), [evaluate_hop] returns
    the engine and the caller's state-index list exactly as it received them:
    velocities, kinetic energies, density matrix, running state, flags and
    event log are all those of the input.  This holds for the engine of
    src/mqc/sh.py and for the one of src/mqc_qed/sh.py. *)
Theorem C10_evaluate_hop_without_target_is_noop
    (eps : R) (s : Mqc.SH) (bo_list : list nat)
    (qed : Qed.QED) (q : Qed.SH) (pol_list : list nat) :
  Mqc.l_hop s = false -> Mqc.rstate s = Mqc.rstate_old s ->
  Qed.l_hop q = false -> Qed.rstate q = Qed.rstate_old q ->
  Mqc.evaluate_hop eps s bo_list = (s, bo_list) /\
  Qed.evaluate_hop eps qed q pol_list = (q, pol_list).
Proof.
  intros Hs Hrs Hq Hrq. split.
  - by apply Mqc_evaluate_idle.
  - by apply Qed_evaluate_idle.
Qed.

Lemma C10_witness :
  let s := Sample.sh Momentum Reverse false [1] [1] 0 1 0.5 in
  let q := Sample.qsh Momentum Reverse false 0 [1] [1] 0 1 0.5 (1, 0) (0, 0) in
  Mqc.evaluate_hop Sample.eps s [0%nat] = (s, [0%nat]) /\
  Qed.evaluate_hop Sample.eps (Sample.qed false 0) q [0%nat] = (q, [0%nat]).
Proof.
  apply C10_evaluate_hop_without_target_is_noop; reflexivity.
Defined.

(** C6.  For every frustrated hop, that is a selected hop for which
    [evaluate_hop] sets the reject flag, [evaluate_hop] puts the running
    state back to [rstate_old], the value it had before the selection,
    writes that value into slot 0 of the caller's state-index list
    ([bo_list] in src/mqc/sh.py, [pol_list] in src/mqc_qed/sh.py, where the
    rescaling block runs when no trivial crossing is flagged), and clears the
    hop flag. *)
Theorem C6_rejected_hop_restores_running_state
    (eps : R) (s : Mqc.SH) (bo_list : list nat)
    (qed : Qed.QED) (q : Qed.SH) (pol_list : list nat) :
  Mqc.l_hop s = true ->
  Mqc.l_reject (Mqc.evaluate_hop eps s bo_list).1 = true ->
  Qed.l_hop q = true -> Qed.l_trivial qed = false ->
  Qed.l_reject (Qed.evaluate_hop eps qed q pol_list).1 = true ->
  (let r := Mqc.evaluate_hop eps s bo_list in
   Mqc.rstate r.1 = Mqc.rstate_old s /\
   r.2 = <[0%nat := Mqc.rstate_old s]> bo_list /\
   (bo_list <> [] -> r.2 !! 0%nat = Some (Mqc.rstate_old s)) /\
   Mqc.l_hop r.1 = false) /\
  (let r := Qed.evaluate_hop eps qed q pol_list in
   Qed.rstate r.1 = Qed.rstate_old q /\
   r.2 = <[0%nat := Qed.rstate_old q]> pol_list /\
   (pol_list <> [] -> r.2 !! 0%nat = Some (Qed.rstate_old q)) /\
   Qed.l_hop r.1 = false).
Proof.
  intros Hs Hrs Hq Htriv Hrq.
  rewrite Mqc_evaluate_l_reject in Hrs by done.
  rewrite Qed_evaluate_l_reject in Hrq by done.
  split.
  - destruct (Mqc_evaluate_rejected eps s bo_list Hs Hrs) as (H1 & _ & H3 & H4 & _).
    cbn zeta. rewrite H4. repeat split; try done.
    intros Hne. destruct bo_list; done.
  - destruct (Qed_evaluate_rejected eps qed q pol_list Hq Htriv Hrq)
      as (H1 & _ & H3 & H4 & _).
    cbn zeta. rewrite H4. repeat split; try done.
    intros Hne. destruct pol_list; done.
Qed.

(** C7.  For every selected hop that [evaluate_hop] rejects while the
    rejection policy is "keep", the velocity array after the call is the
    velocity array before it; and in "energy" mode a QM kinetic energy below
    [eps] makes the hop rejected, so that under "keep" the velocities pass
    through untouched. *)
Theorem C7_keep_leaves_velocities_untouched
    (eps : R) (s : Mqc.SH) (bo_list : list nat) :
  Mqc.l_hop s = true -> Mqc.vel_reject s = Keep ->
  let r := Mqc.evaluate_hop eps s bo_list in
  (Mqc.l_reject r.1 = true -> Mqc.vel (Mqc.mol r.1) = Mqc.vel (Mqc.mol s)) /\
  (Mqc.vel_rescale s = Energy -> Mqc.ekin_qm (Mqc.mol s) < eps ->
   Mqc.l_reject r.1 = true /\ Mqc.vel (Mqc.mol r.1) = Mqc.vel (Mqc.mol s)).
Proof.
  intros Hhop Hkeep r.
  assert (Hvel : Mqc.l_reject r.1 = true ->
                 Mqc.vel (Mqc.mol r.1) = Mqc.vel (Mqc.mol s)).
  { subst r. rewrite Mqc_evaluate_l_reject by done. intros Hrej.
    by apply (Mqc_evaluate_rejected eps s bo_list Hhop Hrej). }
  split; [exact Hvel |].
  intros Hmode Hkin.
  assert (Hrej : Mqc.l_reject r.1 = true).
  { subst r. rewrite Mqc_evaluate_l_reject by done.
    unfold Mqc.rejects, Mqc.quadratic, Mqc.decide_reject. rewrite Hmode. cbn.
    rewrite (Rltb_true _ _ Hkin), (Rltb_false 1 0) by lra.
    destruct (Rltb _ _); reflexivity. }
  split; [exact Hrej | by apply Hvel].
Qed.

Lemma C7_witness :
  let s := Sample.sh Energy Keep true [1] [0] 0 1 0 in
  let r := Mqc.evaluate_hop 1 s [1%nat] in
  (Mqc.l_reject r.1 = true -> Mqc.vel (Mqc.mol r.1) = Mqc.vel (Mqc.mol s)) /\
  (Mqc.vel_rescale s = Energy -> Mqc.ekin_qm (Mqc.mol s) < 1 ->
   Mqc.l_reject r.1 = true /\ Mqc.vel (Mqc.mol r.1) = Mqc.vel (Mqc.mol s)).
Proof.
  apply (C7_keep_leaves_velocities_untouched 1
           (Sample.sh Energy Keep true [1] [0] 0 1 0) [1%nat]); reflexivity.
Defined.

(** C3.  In "augment" mode every selected hop whose QM kinetic energy exceeds
    the potential-energy gap is accepted: the reject flag is false, the hop
    flag and the new running state stay, and the caller's list is not rolled
    back, whatever the sign of the discriminant.  When the discriminant is
    negative the velocities of the QM atoms are multiplied by
    [sqrt (1 - pot_diff / ekin_qm)] and the other velocities are kept. *)
Theorem C3_augment_accepts_when_kinetic_energy_suffices
    (eps : R) (s : Mqc.SH) (bo_list : list nat) :
  Mqc.l_hop s = true -> Mqc.vel_rescale s = Augment ->
  Mqc.ekin_qm (Mqc.mol s) > Mqc.pot_diff s ->
  let r := Mqc.evaluate_hop eps s bo_list in
  let m := Mqc.mol s in
  Mqc.l_reject r.1 = false /\ Mqc.l_hop r.1 = true /\
  Mqc.rstate r.1 = Mqc.rstate s /\ r.2 = bo_list /\
  ((Mqc.quadratic s).2 < 0 ->
   Mqc.vel (Mqc.mol r.1) =
     arr_scale (sqrt (1 - Mqc.pot_diff s / Mqc.ekin_qm m))
               (take (Mqc.nat_qm m) (Mqc.vel m))
     ++ drop (Mqc.nat_qm m) (Mqc.vel m)).
Proof.
  intros Hhop Hmode Hkin r m.
  assert (Hacc : Mqc.rejects eps s = false).
  { unfold Mqc.rejects, Mqc.decide_reject. rewrite Hmode. cbn [is_augment andb].
    by rewrite (proj2 (Rgtb_gt _ _) Hkin). }
  pose proof (Mqc_evaluate_accepted eps s bo_list Hhop Hacc) as Hev.
  pose proof (Mqc_evaluate_l_reject eps s bo_list Hhop) as Hrej.
  fold r in Hev, Hrej. rewrite Hacc in Hrej.
  destruct (Mqc.quadratic s) as [[a b] det] eqn:Hq. cbn zeta in Hev.
  destruct Hev as (H1 & _ & H3 & H4 & _ & H6).
  repeat split; try done.
  cbn [snd]. intros Hdet. rewrite H6, Hmode. cbn.
  rewrite (Rltb_true _ _ Hdet).
  assert (Hnd : Rgtb det 0 = false) by (apply Rgtb_le; lra).
  assert (Hnk : Rltb (Mqc.ekin_qm (Mqc.mol s)) (Mqc.pot_diff s) = false)
    by (apply Rltb_ge; lra).
  rewrite Hnd, Hnk. reflexivity.
Qed.

Lemma C3_witness :
  let s := Sample.sh Augment Reverse true [1; 0] [0; 1] 0 0.25 0.5 in
  let r := Mqc.evaluate_hop Sample.eps s [1%nat] in
  Mqc.l_reject r.1 = false /\ Mqc.l_hop r.1 = true /\
  Mqc.rstate r.1 = 1%nat /\ r.2 = [1%nat] /\
  ((Mqc.quadratic s).2 < 0 ->
   Mqc.vel (Mqc.mol r.1) =
     arr_scale (sqrt (1 - Mqc.pot_diff s / 0.5)) [[0; 1]] ++ []).
Proof.
  apply (C3_augment_accepts_when_kinetic_energy_suffices Sample.eps
           (Sample.sh Augment Reverse true [1; 0] [0; 1] 0 0.25 0.5) [1%nat]);
    [reflexivity | reflexivity | runR; lra].
Defined.

Lemma C6_witness :
  let s := Sample.sh Momentum Reverse true [1] [0] 0 1 0 in
  let q := Sample.qsh Momentum Reverse true 1 [1] [0] 0 1 0 (1, 0) (0, 0) in
  (let r := Mqc.evaluate_hop Sample.eps s [1%nat] in
   Mqc.rstate r.1 = 0%nat /\ r.2 = [0%nat] /\
   ([1%nat] <> [] -> r.2 !! 0%nat = Some 0%nat) /\ Mqc.l_hop r.1 = false) /\
  (let r := Qed.evaluate_hop Sample.eps (Sample.qed false 0) q [1%nat] in
   Qed.rstate r.1 = 0%nat /\ r.2 = [0%nat] /\
   ([1%nat] <> [] -> r.2 !! 0%nat = Some 0%nat) /\ Qed.l_hop r.1 = false).
Proof.
  apply (C6_rejected_hop_restores_running_state Sample.eps
           (Sample.sh Momentum Reverse true [1] [0] 0 1 0) [1%nat]
           (Sample.qed false 0)
           (Sample.qsh Momentum Reverse true 1 [1] [0] 0 1 0 (1, 0) (0, 0)) [1%nat]);
    try reflexivity.
  - runR. rdecide. reflexivity.
  - runR. rdecide. reflexivity.
Defined.

(** C9, as the claim states it, fails: a hop from state 0 to state 1 selected
    in "momentum" mode with QM kinetic energy 0 and a gap of 1 is frustrated,
    and [evaluate_hop] appends two lines for it, the one that names the lack
    of kinetic energy and the one that names the velocity policy. *)
Lemma C9_frustrated_hop_logs_two_lines :
  let s := Sample.sh Momentum Keep true [1] [0] 0 1 0 in
  let r := Mqc.evaluate_hop Sample.eps s [1%nat] in
  Mqc.l_hop s = true /\ Mqc.l_reject r.1 = true /\ Mqc.event s = [] /\
  Mqc.event r.1 = [ev_reject_kinetic 1 0; ev_reject_keep] /\
  length (Mqc.event r.1) <> S (length (Mqc.event s)).
Proof.
  runR. rdecide. repeat split; try reflexivity. discriminate.
Qed.

(** C9, amended.  A frustrated hop appends the line that names the velocity
    policy, preceded by one more line when the QM kinetic energy is below the
    gap; an accepted hop appends the line "Accept hopping: hop i -> j",
    preceded by one more line when "augment" mode falls back to the isotropic
    rescaling because the discriminant is negative; so every selected hop
    appends one or two lines.  A silent step, in which no target was selected,
    appends none. *)
Theorem C9_event_lines_per_hop
    (eps : R) (s : Mqc.SH) (bo_list : list nat) (s0 : Mqc.SH) (bo0 : list nat) :
  Mqc.l_hop s = true -> Mqc.rstate s <> Mqc.rstate_old s ->
  Mqc.l_hop s0 = false -> Mqc.rstate s0 = Mqc.rstate_old s0 ->
  let r := Mqc.evaluate_hop eps s bo_list in
  Mqc.event r.1 =
    Mqc.event s ++
    (if Mqc.l_reject r.1 then
       (if Rltb (Mqc.ekin_qm (Mqc.mol s)) (Mqc.pot_diff s)
        then [ev_reject_kinetic (Mqc.rstate s) (Mqc.rstate_old s)] else [])
       ++ [match Mqc.vel_reject s with
           | Keep => ev_reject_keep | Reverse => ev_reject_reverse end]
     else
       (if is_augment (Mqc.vel_rescale s) && Rltb (Mqc.quadratic s).2 0
        then [ev_accept_simple] else [])
       ++ [ev_accept (Mqc.rstate_old s) (Mqc.rstate s)]) /\
  (length (Mqc.event s) < length (Mqc.event r.1) <= length (Mqc.event s) + 2)%nat /\
  Mqc.event (Mqc.evaluate_hop eps s0 bo0).1 = Mqc.event s0.
Proof.
  intros Hhop Hne Hhop0 Hr0 r.
  assert (Hev : Mqc.event r.1 =
    Mqc.event s ++
    (if Mqc.l_reject r.1 then
       (if Rltb (Mqc.ekin_qm (Mqc.mol s)) (Mqc.pot_diff s)
        then [ev_reject_kinetic (Mqc.rstate s) (Mqc.rstate_old s)] else [])
       ++ [match Mqc.vel_reject s with
           | Keep => ev_reject_keep | Reverse => ev_reject_reverse end]
     else
       (if is_augment (Mqc.vel_rescale s) && Rltb (Mqc.quadratic s).2 0
        then [ev_accept_simple] else [])
       ++ [ev_accept (Mqc.rstate_old s) (Mqc.rstate s)])).
  { subst r. rewrite Mqc_evaluate_l_reject by done.
    destruct (Mqc.rejects eps s) eqn:Hrej.
    - by apply (Mqc_evaluate_rejected eps s bo_list Hhop Hrej).
    - pose proof (Mqc_evaluate_accepted eps s bo_list Hhop Hrej) as Hacc.
      apply Nat.eqb_neq in Hne.
      assert (Hdet : is_energy (Mqc.vel_rescale s) = true -> (Mqc.quadratic s).2 = 1)
        by (unfold Mqc.quadratic; destruct (Mqc.vel_rescale s); done).
      destruct (Mqc.quadratic s) as [[a b] det]. cbn zeta in Hacc. cbn [snd] in *.
      destruct Hacc as (_ & _ & _ & _ & H5 & _). rewrite H5, Hne. do 2 f_equal.
      destruct (Mqc.vel_rescale s); cbn; try done.
      + rewrite Hdet by done. by rewrite Rltb_false by lra.
      + by rewrite andb_false_r.
      + by rewrite andb_false_r.
      + by destruct (Rltb det 0). }
  split; [exact Hev | split].
  - rewrite Hev, length_app.
    destruct (Mqc.l_reject r.1); rewrite length_app;
      match goal with |- context [if ?c then _ else _] => destruct c end;
      cbn; lia.
  - by rewrite Mqc_evaluate_idle.
Qed.

Lemma C9_witness :
  let s := Sample.sh Momentum Keep true [1] [0] 0 1 0 in
  let s0 := Sample.sh Momentum Keep false [1] [0] 0 1 0 in
  let r := Mqc.evaluate_hop Sample.eps s [1%nat] in
  Mqc.event r.1 =
    Mqc.event s ++
    (if Mqc.l_reject r.1 then
       (if Rltb (Mqc.ekin_qm (Mqc.mol s)) (Mqc.pot_diff s)
        then [ev_reject_kinetic (Mqc.rstate s) (Mqc.rstate_old s)] else [])
       ++ [match Mqc.vel_reject s with
           | Keep => ev_reject_keep | Reverse => ev_reject_reverse end]
     else
       (if is_augment (Mqc.vel_rescale s) && Rltb (Mqc.quadratic s).2 0
        then [ev_accept_simple] else [])
       ++ [ev_accept (Mqc.rstate_old s) (Mqc.rstate s)]) /\
  (length (Mqc.event s) < length (Mqc.event r.1) <= length (Mqc.event s) + 2)%nat /\
  Mqc.event (Mqc.evaluate_hop Sample.eps s0 [0%nat]).1 = Mqc.event s0.
Proof.
  apply (C9_event_lines_per_hop Sample.eps
           (Sample.sh Momentum Keep true [1] [0] 0 1 0) [1%nat]
           (Sample.sh Momentum Keep false [1] [0] 0 1 0) [0%nat]);
    try reflexivity.
  cbn. lia.
Defined.

(** ** Loops over [range(n)] *)

(** An invariant indexed by the number of turns taken holds after the loop. *)
Lemma foldl_seq_invariant {A} (f : A -> nat -> A) (P : nat -> A -> Prop)
    (n : nat) (a0 : A) :
  P 0%nat a0 ->
  (forall k a, (k < n)%nat -> P k a -> P (S k) (f a k)) ->
  P n (foldl f a0 (seq 0 n)).
Proof.
  intros H0 Hstep. induction n as [|n IH].
  - exact H0.
  - rewrite seq_S, foldl_app. cbn. apply Hstep; [lia |].
    apply IH. intros k a Hk. apply Hstep. lia.
Qed.

(** ** The state selector *)

(** The intervals of a non-decreasing vector are disjoint. *)
Lemma hits_unique (n : nat) (acc : list R) (draw : R) (i j : nat) :
  nondecreasing n acc -> (i < n)%nat -> (j < n)%nat ->
  hits acc draw i -> hits acc draw j -> i = j.
Proof.
  intros Hmono Hi Hj [Hi1 Hi2] [Hj1 Hj2].
  destruct (Nat.lt_trichotomy i j) as [Hlt | [Heq | Hgt]]; [| exact Heq |].
  - pose proof (Hmono (S i) j ltac:(lia)). lra.
  - pose proof (Hmono (S j) i ltac:(lia)). lra.
Qed.

(** The test of [hop_check], as a proposition. *)
Lemma hits_test (acc : list R) (draw : R) (ist : nat) :
  Rgtb draw (acc !!! ist) && Rleb draw (acc !!! S ist) = true <-> hits acc draw ist.
Proof.
  unfold hits. rewrite andb_true_iff, Rgtb_gt, Rleb_le. lra.
Qed.

(** The loop of [hop_check] on a non-decreasing vector: either one candidate
    other than the running state owns the draw and is selected, or nothing
    changes. *)
Lemma hop_check_loop (n : nat) (acc : list R) (draw : R)
    (h0 : bool) (r0 : nat) (bo0 : list nat) :
  nondecreasing n acc ->
  let st := foldl (Mqc.hop_check_step acc draw) (h0, r0, bo0) (seq 0 n) in
  (exists i, (i < n)%nat /\ i <> r0 /\ hits acc draw i /\
             st = (true, i, <[0%nat := i]> bo0)) \/
  ((forall i, (i < n)%nat -> i <> r0 -> ~ hits acc draw i) /\ st = (h0, r0, bo0)).
Proof.
  intros Hmono.
  apply (foldl_seq_invariant (Mqc.hop_check_step acc draw)
    (fun k st =>
       (exists i, (i < k)%nat /\ i <> r0 /\ hits acc draw i /\
                  st = (true, i, <[0%nat := i]> bo0)) \/
       ((forall i, (i < k)%nat -> i <> r0 -> ~ hits acc draw i) /\
        st = (h0, r0, bo0)))).
  - right. split; [intros; lia | reflexivity].
  - intros k st Hk [(i & Hi & Hne & Hhit & ->) | (Hnone & ->)].
    + left. exists i. split; [lia |]. do 2 (split; [done |]).
      unfold Mqc.hop_check_step.
      destruct (Nat.eqb_spec k i) as [-> | Hki]; [lia |].
      destruct (Rgtb _ _ && Rleb _ _) eqn:Htest; [| reflexivity].
      apply hits_test in Htest.
      exfalso. apply Hki. eapply hits_unique; eauto. lia.
    + unfold Mqc.hop_check_step.
      destruct (Nat.eqb_spec k r0) as [-> | Hkr].
      * right. split; [| reflexivity].
        intros i Hi Hne. apply Hnone; [lia | done].
      * destruct (Rgtb _ _ && Rleb _ _) eqn:Htest.
        -- apply hits_test in Htest. left. exists k. split; [lia |]. done.
        -- right. split; [| reflexivity].
           intros i Hi Hne Hhit.
           destruct (Nat.eq_dec i k) as [-> | Hik].
           ++ apply hits_test in Hhit. congruence.
           ++ apply (Hnone i); [lia | done | done].
Qed.

(** C4.  For every cumulative probability vector (a vector that does not
    decrease over its indices 0 .. nst) and every draw, [hop_check] selects
    candidate [i], other than the running state, exactly when
    [acc[i] < rand <= acc[i+1]]: it then makes [i] the running state, raises
    the hop flag and writes [i] into slot 0 of the caller's list.  At most one
    interval contains the draw; a draw equal to [acc[i]] does not select [i];
    and when no candidate interval contains the draw, the running state, the
    hop flag (which [hop_prob] has set to false) and the caller's list are
    unchanged. *)
Theorem C4_selector_picks_the_interval_of_the_draw
    (draw : R) (s : Mqc.SH) (bo_list : list nat) :
  nondecreasing (Mqc.nst (Mqc.mol s)) (Mqc.acc_prob s) ->
  let n := Mqc.nst (Mqc.mol s) in
  let acc := Mqc.acc_prob s in
  let r := Mqc.hop_check draw s bo_list in
  (forall i, (i < n)%nat -> i <> Mqc.rstate s ->
     (hits acc draw i <->
      Mqc.rstate r.1 = i /\ Mqc.l_hop r.1 = true /\ r.2 = <[0%nat := i]> bo_list)) /\
  (forall i j, (i < n)%nat -> (j < n)%nat ->
     hits acc draw i -> hits acc draw j -> i = j) /\
  (forall i, (i < n)%nat -> i <> Mqc.rstate s -> draw = acc !!! i ->
     Mqc.rstate r.1 <> i) /\
  ((forall i, (i < n)%nat -> i <> Mqc.rstate s -> ~ hits acc draw i) ->
   Mqc.rstate r.1 = Mqc.rstate s /\ Mqc.l_hop r.1 = Mqc.l_hop s /\ r.2 = bo_list).
Proof.
  intros Hmono n acc r.
  pose proof (hop_check_loop n acc draw (Mqc.l_hop s) (Mqc.rstate s) bo_list Hmono)
    as Hloop.
  assert (Hr : r = Mqc.hop_check draw s bo_list) by reflexivity.
  unfold Mqc.hop_check in Hr. fold n acc in Hr. cbn zeta in Hloop.
  destruct (foldl _ _ _) as [[h' r'] bo'].
  assert (Hexact : forall i, (i < n)%nat -> i <> Mqc.rstate s ->
     (hits acc draw i <->
      Mqc.rstate r.1 = i /\ Mqc.l_hop r.1 = true /\ r.2 = <[0%nat := i]> bo_list)).
  { intros i Hi Hne. rewrite Hr. cbn.
    destruct Hloop as [(k & Hk & Hkne & Hhit & [= -> -> ->]) | (Hnone & [= -> -> ->])].
    - split.
      + intros Hi'. assert (i = k) as -> by (eapply hits_unique; eauto). done.
      + intros (-> & _). done.
    - split.
      + intros Hhit. exfalso. by apply (Hnone i).
      + intros (Heq & _). congruence. }
  split; [exact Hexact |]. split; [| split].
  - intros i j Hi Hj. by apply hits_unique with (n := n).
  - intros i Hi Hne Hdraw. rewrite Hr. cbn.
    destruct Hloop as [(k & Hk & Hkne & Hhit & [= -> -> ->]) | (Hnone & [= -> -> ->])].
    + intros ->. destruct Hhit as [Hlt _]. lra.
    + congruence.
  - intros Hnone. rewrite Hr. cbn.
    destruct Hloop as [(k & Hk & Hkne & Hhit & _) | (_ & [= -> -> ->])]; [| done].
    exfalso. by apply (Hnone k).
Qed.

Lemma nondecreasing_sample : nondecreasing 2 [0; 0; 0.3].
Proof.
  intros i j [Hij Hj].
  destruct i as [|[|[|i]]], j as [|[|[|j]]]; cbn; try lra; lia.
Qed.

Lemma C4_witness :
  let s := Sample.with_prob (Sample.sh Momentum Reverse false [1] [1] 0 1 0.5)
                            [0; 0.3] [0; 0; 0.3] in
  let r := Mqc.hop_check 0.2 s [0%nat] in
  (forall i, (i < 2)%nat -> i <> 0%nat ->
     (hits [0; 0; 0.3] 0.2 i <->
      Mqc.rstate r.1 = i /\ Mqc.l_hop r.1 = true /\ r.2 = <[0%nat := i]> [0%nat])) /\
  (forall i j, (i < 2)%nat -> (j < 2)%nat ->
     hits [0; 0; 0.3] 0.2 i -> hits [0; 0; 0.3] 0.2 j -> i = j) /\
  (forall i, (i < 2)%nat -> i <> 0%nat -> 0.2 = [0; 0; 0.3] !!! i ->
     Mqc.rstate r.1 <> i) /\
  ((forall i, (i < 2)%nat -> i <> 0%nat -> ~ hits [0; 0; 0.3] 0.2 i) ->
   Mqc.rstate r.1 = 0%nat /\ Mqc.l_hop r.1 = false /\ r.2 = [0%nat]).
Proof.
  apply (C4_selector_picks_the_interval_of_the_draw 0.2
           (Sample.with_prob (Sample.sh Momentum Reverse false [1] [1] 0 1 0.5)
                             [0; 0.3] [0; 0; 0.3]) [0%nat]).
  exact nondecreasing_sample.
Defined.

(** On the sample vector a draw of 0.2 selects state 1, and a draw of 0.3,
    the right end of its interval, still does; a draw of 0, the left end,
    and a draw of 0.5 select nothing. *)
Example hop_check_sample :
  let s := Sample.with_prob (Sample.sh Momentum Reverse false [1] [1] 0 1 0.5)
                            [0; 0.3] [0; 0; 0.3] in
  Mqc.rstate (Mqc.hop_check 0.2 s [0%nat]).1 = 1%nat /\
  Mqc.rstate (Mqc.hop_check 0.3 s [0%nat]).1 = 1%nat /\
  Mqc.rstate (Mqc.hop_check 0 s [0%nat]).1 = 0%nat /\
  Mqc.rstate (Mqc.hop_check 0.5 s [0%nat]).1 = 0%nat.
Proof.
  runR. rdecide. done.
Qed.

(** ** The probability calculator *)

Lemma rsum_app (l1 l2 : list R) : rsum (l1 ++ l2) = rsum l1 + rsum l2.
Proof.
  unfold rsum. induction l1 as [|x l1 IH]; cbn; [lra | rewrite IH; lra].
Qed.

Lemma partial_sum_S (r : nat) (g : nat -> R) (j : nat) :
  partial_sum r g (S j) = partial_sum r g j + (if (j =? r)%nat then 0 else g j).
Proof.
  unfold partial_sum. rewrite seq_S, fmap_app, rsum_app. cbn. lra.
Qed.

Lemma partial_sum_mono (r : nat) (g : nat -> R) (n : nat) :
  (forall i, (i < n)%nat -> 0 <= g i) ->
  forall i j, (i <= j <= n)%nat -> partial_sum r g i <= partial_sum r g j.
Proof.
  intros Hg i j [Hij Hj]. induction Hij as [|j Hij IH]; [lra |].
  rewrite partial_sum_S. specialize (IH ltac:(lia)).
  pose proof (Hg j ltac:(lia)). destruct (j =? r)%nat; lra.
Qed.

Lemma lookup_total_zeros (n j : nat) : replicate n 0 !!! j = 0.
Proof.
  destruct (decide (j < n)%nat).
  - by rewrite lookup_total_replicate_2.
  - assert (Hn : replicate n 0 !! j = None) by (apply lookup_replicate_None; lia).
    by rewrite list_lookup_total_alt, Hn.
Qed.

(** The loop of [hop_prob]: a turn for a candidate [k] other than the running
    state stores [g k] in [prob[k]] and adds it to [accum]; every turn stores
    [accum] in [acc_prob[k + 1]]. *)
Lemma prob_loop (f : list R * list R * R -> nat -> list R * list R * R)
    (r : nat) (g : nat -> R) (n : nat) :
  (forall prob acc accum k,
     f (prob, acc, accum) k =
     if negb (k =? r)%nat
     then (<[k := g k]> prob, <[S k := accum + g k]> acc, accum + g k)
     else (prob, <[S k := accum]> acc, accum)) ->
  let st := foldl f (replicate n 0, replicate (S n) 0, 0) (seq 0 n) in
  length st.1.1 = n /\ length st.1.2 = S n /\
  (forall i, st.1.1 !!! i = if (i <? n)%nat && negb (i =? r)%nat then g i else 0) /\
  (forall j, (j <= n)%nat -> st.1.2 !!! j = partial_sum r g j).
Proof.
  intros Hf.
  cut (let st := foldl f (replicate n 0, replicate (S n) 0, 0) (seq 0 n) in
       length st.1.1 = n /\ length st.1.2 = S n /\
       (forall i, st.1.1 !!! i = if (i <? n)%nat && negb (i =? r)%nat then g i else 0) /\
       (forall j, (j <= n)%nat -> st.1.2 !!! j = partial_sum r g j) /\
       (forall j, (n < j)%nat -> st.1.2 !!! j = 0) /\ st.2 = partial_sum r g n).
  { cbn zeta. tauto. }
  apply (foldl_seq_invariant f
    (fun k st =>
       length st.1.1 = n /\ length st.1.2 = S n /\
       (forall i, st.1.1 !!! i = if (i <? k)%nat && negb (i =? r)%nat then g i else 0) /\
       (forall j, (j <= k)%nat -> st.1.2 !!! j = partial_sum r g j) /\
       (forall j, (k < j)%nat -> st.1.2 !!! j = 0) /\ st.2 = partial_sum r g k)).
  - cbn [fst snd]. rewrite !length_replicate. do 2 (split; [done |]).
    split; [intros; apply lookup_total_zeros |].
    split; [| split; [intros; apply lookup_total_zeros | done]].
    intros j Hj. assert (j = 0%nat) as -> by lia. apply (lookup_total_zeros (S n) 0).
  - intros k [[prob acc] accum] Hk (Hlp & Hla & Hprob & Hacc & Hrest & Hsum).
    cbn [fst snd] in Hlp, Hla, Hprob, Hacc, Hrest, Hsum.
    rewrite Hf. destruct (Nat.eqb_spec k r) as [-> | Hkr]; cbn [negb fst snd].
    + rewrite length_insert. do 2 (split; [done |]). split.
      { intros i. rewrite Hprob.
        destruct (Nat.eqb_spec i r) as [-> | Hir]; [by rewrite !andb_false_r |].
        rewrite !andb_true_r.
        destruct (Nat.ltb_spec i r), (Nat.ltb_spec i (S r)); try done; lia. }
      split; [| split].
      * intros j Hj. destruct (decide (j = S r)) as [-> | Hjr].
        -- rewrite list_lookup_total_insert_eq by lia.
           rewrite partial_sum_S, Nat.eqb_refl, Hsum. lra.
        -- rewrite list_lookup_total_insert_ne by done. apply Hacc. lia.
      * intros j Hj. rewrite list_lookup_total_insert_ne by lia. apply Hrest. lia.
      * rewrite partial_sum_S, Nat.eqb_refl, Hsum. lra.
    + rewrite !length_insert. do 2 (split; [done |]). split.
      { intros i. destruct (decide (i = k)) as [-> | Hik].
        - rewrite list_lookup_total_insert_eq by lia.
          destruct (Nat.ltb_spec k (S k)); [| lia].
          destruct (Nat.eqb_spec k r); done.
        - rewrite list_lookup_total_insert_ne by done. rewrite Hprob.
          destruct (Nat.ltb_spec i k), (Nat.ltb_spec i (S k)); try done; lia. }
      assert (HS : partial_sum r g (S k) = accum + g k).
      { rewrite partial_sum_S, Hsum. destruct (Nat.eqb_spec k r); [done | lra]. }
      split; [| split].
      * intros j Hj. destruct (decide (j = S k)) as [-> | Hjk].
        -- by rewrite list_lookup_total_insert_eq by lia.
        -- rewrite list_lookup_total_insert_ne by done. apply Hacc. lia.
      * intros j Hj. rewrite list_lookup_total_insert_ne by lia. apply Hrest. lia.
      * done.
Qed.

Lemma clamp_nonneg (q : R) : 0 <= clamp q.
Proof. unfold clamp, Rltb. destruct (Rlt_dec q 0); lra. Qed.

Lemma clamp_zero (q : R) : clamp q = 0 <-> q <= 0.
Proof. unfold clamp, Rltb. destruct (Rlt_dec q 0); split; intros; lra. Qed.

(** [hop_prob] of src/mqc/sh.py: the clamped quotients, their prefix sums,
    and both divided by the total when the total exceeds one. *)
Lemma Mqc_hop_prob_spec (s : Mqc.SH) :
  let n := Mqc.nst (Mqc.mol s) in
  let r := Mqc.rstate s in
  let g := fun k => clamp (Mqc.quotient s k) in
  let tot := partial_sum r g n in
  let s' := Mqc.hop_prob s in
  (forall i, (i < n)%nat ->
     Mqc.prob s' !!! i =
     let q := if (i =? r)%nat then 0 else g i in
     if Rgtb tot 1 then q / tot else q) /\
  (forall j, (j <= n)%nat ->
     Mqc.acc_prob s' !!! j =
     if Rgtb tot 1 then partial_sum r g j / tot else partial_sum r g j) /\
  Mqc.l_hop s' = false /\ Mqc.rstate s' = r /\ Mqc.rstate_old s' = r /\
  Mqc.mol s' = Mqc.mol s /\ Mqc.event s' = Mqc.event s /\
  Mqc.l_reject s' = Mqc.l_reject s /\
  Mqc.vel_rescale s' = Mqc.vel_rescale s /\ Mqc.vel_reject s' = Mqc.vel_reject s.
Proof.
  intros n r g tot s'.
  pose proof (prob_loop (Mqc.hop_prob_step (Mqc.mol s) (Mqc.dt s) r) r g n) as Hloop.
  cbn zeta in Hloop.
  assert (Hs' : s' = Mqc.hop_prob s) by reflexivity.
  unfold Mqc.hop_prob in Hs'. fold n r in Hs'.
  destruct (foldl _ _ _) as [[prob acc] accum]. cbn [fst snd] in Hloop.
  destruct Hloop as (Hlp & Hla & Hprob & Hacc).
  { intros prob0 acc0 accum0 k. unfold Mqc.hop_prob_step.
    destruct (negb (k =? r)%nat); reflexivity. }
  rewrite (Hacc n) in Hs' by lia. fold tot in Hs'.
  destruct (Rgtb tot 1); rewrite Hs'; cbn; repeat split; try done.
  - intros i Hi. rewrite (list_lookup_total_fmap _ (Inhabited0 := R_inhabited)) by lia.
    rewrite Hprob.
    destruct (Nat.ltb_spec i n); [| lia]. by destruct (i =? r)%nat.
  - intros j Hj. rewrite (list_lookup_total_fmap _ (Inhabited0 := R_inhabited)) by lia.
    by rewrite Hacc.
  - intros i Hi. rewrite Hprob.
    destruct (Nat.ltb_spec i n); [| lia]. by destruct (i =? r)%nat.
Qed.

(** The cumulative vector that [hop_prob] builds does not decrease and
    starts at zero, so [hop_check] meets it as C4 assumes. *)
Lemma Mqc_hop_prob_cumulative (s : Mqc.SH) :
  nondecreasing (Mqc.nst (Mqc.mol s)) (Mqc.acc_prob (Mqc.hop_prob s)) /\
  Mqc.acc_prob (Mqc.hop_prob s) !!! 0%nat = 0 /\
  Mqc.acc_prob (Mqc.hop_prob s) !!! Mqc.nst (Mqc.mol s) <= 1.
Proof.
  destruct (Mqc_hop_prob_spec s) as (_ & Hacc & _).
  set (n := Mqc.nst (Mqc.mol s)) in *. set (r := Mqc.rstate s) in *.
  set (g := fun k => clamp (Mqc.quotient s k)) in *.
  assert (Hmono : forall i j, (i <= j <= n)%nat -> partial_sum r g i <= partial_sum r g j).
  { apply partial_sum_mono. intros. apply clamp_nonneg. }
  split; [| split].
  - intros i j Hij. rewrite !Hacc by lia. specialize (Hmono i j Hij).
    destruct (Rgtb _ 1) eqn:Htot; [| done].
    apply Rgtb_gt in Htot. apply Rmult_le_compat_r; [| done].
    apply Rlt_le, Rinv_0_lt_compat. lra.
  - rewrite Hacc by lia. unfold partial_sum. cbn.
    destruct (Rgtb _ 1); [| done]. lra.
  - rewrite Hacc by lia.
    destruct (Rgtb _ 1) eqn:Htot.
    + apply Rgtb_gt in Htot. right. field. lra.
    + by apply Rgtb_le in Htot.
Qed.

(** [hop_prob] of src/mqc_qed/sh.py: as above, with the raw probability of
    candidate [k] being the clamped quotient when no trivial crossing is
    flagged, and one for the flagged state and zero for the others when one
    is. *)
Lemma Qed_hop_prob_spec (qed : Qed.QED) (s : Qed.SH) :
  let n := Qed.pst (Qed.pol s) in
  let r := Qed.rstate s in
  let g := fun k =>
    if Qed.l_trivial qed
    then (if (k =? Qed.trivial_state qed)%nat then 1 else 0)
    else clamp (Qed.quotient qed s k) in
  let tot := partial_sum r g n in
  let s' := Qed.hop_prob qed s in
  (forall i, (i < n)%nat ->
     Qed.prob s' !!! i =
     let q := if (i =? r)%nat then 0 else g i in
     if Rgtb tot 1 then q / tot else q) /\
  (forall j, (j <= n)%nat ->
     Qed.acc_prob s' !!! j =
     if Rgtb tot 1 then partial_sum r g j / tot else partial_sum r g j) /\
  Qed.l_hop s' = false /\ Qed.rstate s' = r /\ Qed.rstate_old s' = r /\
  Qed.pol s' = Qed.pol s /\ Qed.event s' = Qed.event s /\
  Qed.l_reject s' = Qed.l_reject s /\
  Qed.hop_rescale s' = Qed.hop_rescale s /\ Qed.hop_reject s' = Qed.hop_reject s.
Proof.
  intros n r g tot s'.
  assert (Hs' : s' = Qed.hop_prob qed s) by reflexivity.
  unfold Qed.hop_prob in Hs'. fold n r in Hs'.
  set (step := fun st k =>
         if Qed.l_trivial qed
         then Qed.hop_prob_trivial_step (Qed.trivial_state qed) r st k
         else Qed.hop_prob_step (Qed.pol s)
                (Qed.matmul n (Qed.transpose (Qed.unitary qed))
                   (Qed.matmul n (Qed.ham_d qed) (Qed.unitary qed)))
                (Qed.dt s) r st k).
  pose proof (prob_loop step r g n) as Hloop. cbn zeta in Hloop.
  assert (Hfold : (if negb (Qed.l_trivial qed)
                   then foldl (Qed.hop_prob_step (Qed.pol s)
                          (Qed.matmul n (Qed.transpose (Qed.unitary qed))
                             (Qed.matmul n (Qed.ham_d qed) (Qed.unitary qed)))
                          (Qed.dt s) r)
                          (replicate n 0, replicate (S n) 0, 0) (seq 0 n)
                   else foldl (Qed.hop_prob_trivial_step (Qed.trivial_state qed) r)
                          (replicate n 0, replicate (S n) 0, 0) (seq 0 n))
                  = foldl step (replicate n 0, replicate (S n) 0, 0) (seq 0 n)).
  { subst step. destruct (Qed.l_trivial qed); reflexivity. }
  rewrite Hfold in Hs'. clear Hfold.
  destruct (foldl step _ _) as [[prob acc] accum]. cbn [fst snd] in Hloop.
  destruct Hloop as (Hlp & Hla & Hprob & Hacc).
  { intros prob0 acc0 accum0 k. subst step g. cbn beta.
    unfold Qed.hop_prob_trivial_step, Qed.hop_prob_step, Qed.quotient, clamp.
    fold n r. destruct (Qed.l_trivial qed), (negb (k =? r)%nat); reflexivity. }
  rewrite (Hacc n) in Hs' by lia. fold tot in Hs'.
  destruct (Rgtb tot 1); rewrite Hs'; cbn; repeat split; try done.
  - intros i Hi. rewrite (list_lookup_total_fmap _ (Inhabited0 := R_inhabited)) by lia.
    rewrite Hprob.
    destruct (Nat.ltb_spec i n); [| lia]. by destruct (i =? r)%nat.
  - intros j Hj. rewrite (list_lookup_total_fmap _ (Inhabited0 := R_inhabited)) by lia.
    by rewrite Hacc.
  - intros i Hi. rewrite Hprob.
    destruct (Nat.ltb_spec i n); [| lia]. by destruct (i =? r)%nat.
Qed.

(** C2, as the claim states it, fails: with a running-state population of
    [1 / 10 ^ 14], below [eps], and a coherence of [- 1 / 10 ^ 7] with
    state 1, [hop_prob] performs the division and, after renormalisation,
    gives state 1 the probability one. *)
Lemma C2_tiny_population_still_divides :
  let rho := fun i j : nat =>
    if (i =? 0)%nat && (j =? 0)%nat then (1 / 10 ^ 14, 0)
    else if (i =? 1)%nat && (j =? 1)%nat then (1 - 1 / 10 ^ 14, 0)
    else (- (1 / 10 ^ 7), 0) in
  let s := Sample.with_coupling (Sample.sh Momentum Reverse false [1] [1] 0 1 0.5)
                                rho (fun _ _ => 1) 1 in
  Cre (Mqc.rho (Mqc.mol s) (Mqc.rstate s) (Mqc.rstate s)) < Sample.eps /\
  Mqc.prob (Mqc.hop_prob s) = [0; 1] /\
  Mqc.prob (Mqc.hop_prob s) <> [0; 0].
Proof.
  intros rho s.
  assert (Hp : Mqc.prob (Mqc.hop_prob s) = [0; 1]).
  { subst s rho. runR. rdecide. runR. rdecide. f_equal; [lra | f_equal; field]. }
  split; [subst s rho; unfold Sample.eps; cbn; lra |]. split; [exact Hp |].
  rewrite Hp. intros [= H]. lra.
Qed.

(** C2, amended.  [hop_prob] divides by the population [rho[r, r]] of the
    running state without comparing it with any epsilon.  For every non-zero
    population, however small, the probability of candidate [i] is the
    quotient [- 2 * Re(rho[i, r]) * nacme[i, r] * dt / rho[r, r]] (in the
    cavity-coupled engine, the quotient of its own formula, when no trivial
    crossing is flagged), replaced by zero when negative and divided by the
    total when the total exceeds one; it is zero exactly when the quotient is
    not positive. *)
Theorem C2_hop_prob_divides_without_guard
    (s : Mqc.SH) (i : nat) (qed : Qed.QED) (q : Qed.SH) (j : nat) :
  Cre (Mqc.rho (Mqc.mol s) (Mqc.rstate s) (Mqc.rstate s)) <> 0 ->
  (i < Mqc.nst (Mqc.mol s))%nat -> i <> Mqc.rstate s ->
  Qed.l_trivial qed = false ->
  Cre (Qed.rho_a (Qed.pol q) (Qed.rstate q) (Qed.rstate q)) <> 0 ->
  (j < Qed.pst (Qed.pol q))%nat -> j <> Qed.rstate q ->
  (let tot := partial_sum (Mqc.rstate s) (fun k => clamp (Mqc.quotient s k))
                          (Mqc.nst (Mqc.mol s)) in
   Mqc.prob (Mqc.hop_prob s) !!! i =
     (if Rgtb tot 1 then clamp (Mqc.quotient s i) / tot
      else clamp (Mqc.quotient s i)) /\
   (Mqc.prob (Mqc.hop_prob s) !!! i = 0 <-> Mqc.quotient s i <= 0)) /\
  (let tot := partial_sum (Qed.rstate q) (fun k => clamp (Qed.quotient qed q k))
                          (Qed.pst (Qed.pol q)) in
   Qed.prob (Qed.hop_prob qed q) !!! j =
     (if Rgtb tot 1 then clamp (Qed.quotient qed q j) / tot
      else clamp (Qed.quotient qed q j)) /\
   (Qed.prob (Qed.hop_prob qed q) !!! j = 0 <-> Qed.quotient qed q j <= 0)).
Proof.
  intros _ Hi Hir Htriv _ Hj Hjr.
  assert (Hzero : forall c tot : R,
            (if Rgtb tot 1 then clamp c / tot else clamp c) = 0 <-> c <= 0).
  { intros c tot. rewrite <- clamp_zero.
    destruct (Rgtb tot 1) eqn:Htot; [| done].
    apply Rgtb_gt in Htot. split; intros H.
    - apply (Rmult_eq_compat_r tot) in H. field_simplify in H; lra.
    - rewrite H. field. lra. }
  split.
  - destruct (Mqc_hop_prob_spec s) as (Hprob & _).
    specialize (Hprob i Hi). cbn zeta in Hprob.
    apply Nat.eqb_neq in Hir. rewrite Hir in Hprob.
    cbn zeta. rewrite Hprob. split; [done | apply Hzero].
  - destruct (Qed_hop_prob_spec qed q) as (Hprob & _).
    specialize (Hprob j Hj). cbn zeta in Hprob.
    apply Nat.eqb_neq in Hjr. rewrite Hjr, Htriv in Hprob.
    cbn zeta. rewrite Hprob. split; [done | apply Hzero].
Qed.

Lemma C2_witness :
  let s := Sample.with_coupling (Sample.sh Momentum Reverse false [1] [1] 0 1 0.5)
             (fun i j : nat => if (i =? j)%nat then (0.5, 0) else (- 0.5, 0))
             (fun _ _ => 1) 0.1 in
  let qed := Sample.qed false 0 in
  let q := Sample.qsh Momentum Reverse false 0 [1] [1] 0 1 0.5 (1, 0) (0, 0) in
  (let tot := partial_sum 0 (fun k => clamp (Mqc.quotient s k)) 2 in
   Mqc.prob (Mqc.hop_prob s) !!! 1%nat =
     (if Rgtb tot 1 then clamp (Mqc.quotient s 1) / tot
      else clamp (Mqc.quotient s 1)) /\
   (Mqc.prob (Mqc.hop_prob s) !!! 1%nat = 0 <-> Mqc.quotient s 1 <= 0)) /\
  (let tot := partial_sum 0 (fun k => clamp (Qed.quotient qed q k)) 2 in
   Qed.prob (Qed.hop_prob qed q) !!! 1%nat =
     (if Rgtb tot 1 then clamp (Qed.quotient qed q 1) / tot
      else clamp (Qed.quotient qed q 1)) /\
   (Qed.prob (Qed.hop_prob qed q) !!! 1%nat = 0 <-> Qed.quotient qed q 1 <= 0)).
Proof.
  apply (C2_hop_prob_divides_without_guard
           (Sample.with_coupling (Sample.sh Momentum Reverse false [1] [1] 0 1 0.5)
              (fun i j : nat => if (i =? j)%nat then (0.5, 0) else (- 0.5, 0))
              (fun _ _ => 1) 0.1)
           1%nat (Sample.qed false 0)
           (Sample.qsh Momentum Reverse false 0 [1] [1] 0 1 0.5 (1, 0) (0, 0)) 1%nat);
    try reflexivity; try (cbn; lia); try (cbn; lra).
Defined.

(** With a population of one half, a coherence of minus one half, a coupling
    element of one and a time step of one tenth, state 1 receives the
    probability [- 2 * (- 0.5) * 1 * 0.1 / 0.5 = 0.2]. *)
Example hop_prob_sample :
  let s := Sample.with_coupling (Sample.sh Momentum Reverse false [1] [1] 0 1 0.5)
             (fun i j : nat => if (i =? j)%nat then (0.5, 0) else (- 0.5, 0))
             (fun _ _ => 1) 0.1 in
  Mqc.prob (Mqc.hop_prob s) = [0; 0.2] /\ Mqc.acc_prob (Mqc.hop_prob s) = [0; 0; 0.2].
Proof.
  runR. rdecide. runR. rdecide. split; repeat (f_equal; try lra).
Qed.

(** ** Trivial crossings (src/mqc_qed/sh.py) *)

Lemma Qed_hop_check_step_eq : Qed.hop_check_step = Mqc.hop_check_step.
Proof. reflexivity. Qed.

(** The prefix sums of the indicator of the flagged state [t]. *)
Lemma partial_sum_indicator (r t j : nat) :
  t <> r ->
  partial_sum r (fun k => if (k =? t)%nat then 1 else 0) j
  = if (t <? j)%nat then 1 else 0.
Proof.
  intros Htr. induction j as [|j IH]; [reflexivity |].
  rewrite partial_sum_S, IH.
  destruct (Nat.ltb_spec t j), (Nat.ltb_spec t (S j)); try lia.
  - destruct (Nat.eqb_spec j r); [lra |].
    destruct (Nat.eqb_spec j t); [lia | lra].
  - assert (j = t) as -> by lia.
    destruct (Nat.eqb_spec t r); [done |]. rewrite Nat.eqb_refl. lra.
  - destruct (Nat.eqb_spec j r); [lra |].
    destruct (Nat.eqb_spec j t); [lia | lra].
Qed.

(** What [hop_prob] builds under a flagged trivial crossing. *)
Lemma Qed_hop_prob_trivial (qed : Qed.QED) (s : Qed.SH) :
  Qed.l_trivial qed = true ->
  (Qed.trivial_state qed < Qed.pst (Qed.pol s))%nat ->
  Qed.trivial_state qed <> Qed.rstate s ->
  let t := Qed.trivial_state qed in
  let s' := Qed.hop_prob qed s in
  (forall i, (i < Qed.pst (Qed.pol s))%nat ->
     Qed.prob s' !!! i = if (i =? t)%nat then 1 else 0) /\
  (forall j, (j <= Qed.pst (Qed.pol s))%nat ->
     Qed.acc_prob s' !!! j = if (t <? j)%nat then 1 else 0).
Proof.
  intros Htriv Ht Htr t s'.
  destruct (Qed_hop_prob_spec qed s) as (Hprob & Hacc & _).
  rewrite Htriv in Hprob, Hacc. cbn zeta in Hprob, Hacc. fold t s' in Hprob, Hacc.
  rewrite partial_sum_indicator in Hprob, Hacc by done.
  destruct (Nat.ltb_spec t (Qed.pst (Qed.pol s))); [| lia].
  rewrite (proj2 (Rgtb_le 1 1)) in Hprob, Hacc by lra.
  split.
  - intros i Hi. rewrite Hprob by done.
    destruct (Nat.eqb_spec i (Qed.rstate s)) as [-> | Hir]; [| done].
    destruct (Nat.eqb_spec (Qed.rstate s) t); [subst t; congruence | done].
  - intros j Hj. rewrite Hacc by done. by rewrite partial_sum_indicator.
Qed.

(** [hop_check] of either engine on a non-decreasing cumulative vector. *)
Lemma Mqc_hop_check_spec (draw : R) (s : Mqc.SH) (bo : list nat) :
  nondecreasing (Mqc.nst (Mqc.mol s)) (Mqc.acc_prob s) ->
  let r := Mqc.hop_check draw s bo in
  Mqc.mol r.1 = Mqc.mol s /\ Mqc.rstate_old r.1 = Mqc.rstate_old s /\
  Mqc.event r.1 = Mqc.event s /\ Mqc.l_reject r.1 = Mqc.l_reject s /\
  Mqc.vel_rescale r.1 = Mqc.vel_rescale s /\ Mqc.vel_reject r.1 = Mqc.vel_reject s /\
  ((exists i, (i < Mqc.nst (Mqc.mol s))%nat /\ i <> Mqc.rstate s /\
              hits (Mqc.acc_prob s) draw i /\
              Mqc.rstate r.1 = i /\ Mqc.l_hop r.1 = true /\ r.2 = <[0%nat := i]> bo) \/
   ((forall i, (i < Mqc.nst (Mqc.mol s))%nat -> i <> Mqc.rstate s ->
               ~ hits (Mqc.acc_prob s) draw i) /\
    Mqc.rstate r.1 = Mqc.rstate s /\ Mqc.l_hop r.1 = Mqc.l_hop s /\ r.2 = bo)).
Proof.
  intros Hmono r.
  pose proof (hop_check_loop _ _ draw (Mqc.l_hop s) (Mqc.rstate s) bo Hmono) as Hloop.
  cbn zeta in Hloop.
  assert (Hr : r = Mqc.hop_check draw s bo) by reflexivity.
  unfold Mqc.hop_check in Hr.
  destruct (foldl _ _ _) as [[h' r'] bo']. rewrite Hr. cbn.
  do 6 (split; [done |]).
  destruct Hloop as [(k & Hk & Hkne & Hhit & [= -> -> ->]) | (Hnone & [= -> -> ->])].
  - left. by exists k.
  - by right.
Qed.

Lemma Qed_hop_check_spec (draw : R) (s : Qed.SH) (pl : list nat) :
  nondecreasing (Qed.pst (Qed.pol s)) (Qed.acc_prob s) ->
  let r := Qed.hop_check draw s pl in
  Qed.pol r.1 = Qed.pol s /\ Qed.rstate_old r.1 = Qed.rstate_old s /\
  Qed.event r.1 = Qed.event s /\ Qed.l_reject r.1 = Qed.l_reject s /\
  Qed.hop_rescale r.1 = Qed.hop_rescale s /\ Qed.hop_reject r.1 = Qed.hop_reject s /\
  ((exists i, (i < Qed.pst (Qed.pol s))%nat /\ i <> Qed.rstate s /\
              hits (Qed.acc_prob s) draw i /\
              Qed.rstate r.1 = i /\ Qed.l_hop r.1 = true /\ r.2 = <[0%nat := i]> pl) \/
   ((forall i, (i < Qed.pst (Qed.pol s))%nat -> i <> Qed.rstate s ->
               ~ hits (Qed.acc_prob s) draw i) /\
    Qed.rstate r.1 = Qed.rstate s /\ Qed.l_hop r.1 = Qed.l_hop s /\ r.2 = pl)).
Proof.
  intros Hmono r.
  pose proof (hop_check_loop _ _ draw (Qed.l_hop s) (Qed.rstate s) pl Hmono) as Hloop.
  cbn zeta in Hloop. rewrite <- Qed_hop_check_step_eq in Hloop.
  assert (Hr : r = Qed.hop_check draw s pl) by reflexivity.
  unfold Qed.hop_check in Hr.
  destruct (foldl _ _ _) as [[h' r'] bo']. rewrite Hr. cbn.
  do 6 (split; [done |]).
  destruct Hloop as [(k & Hk & Hkne & Hhit & [= -> -> ->]) | (Hnone & [= -> -> ->])].
  - left. by exists k.
  - by right.
Qed.

(** C5, as the claim states it, fails: with states 0 (running) and 1 and a
    trivial crossing flagged towards state 1, a draw of exactly 0, which
    [random.random()] can return, falls outside the interval from 0,
    excluded, to 1, and the step ends on state 0 with no hop and no event. *)
Lemma C5_draw_zero_selects_nothing :
  let qed := Sample.qed true 1 in
  let s := Sample.qsh Augment Reverse false 0 [1] [1] 0 1 0.5 (1, 0) (0, 0) in
  let s1 := Qed.hop_prob qed s in
  let r := Qed.step Sample.eps qed 0 s [0%nat] in
  Qed.prob s1 = [0; 1] /\ Qed.acc_prob s1 = [0; 0; 1] /\
  Qed.rstate r.1 = 0%nat /\ Qed.l_hop r.1 = false /\ r.2 = [0%nat] /\
  Qed.event r.1 = [].
Proof.
  runR. rdecide. runR. rdecide.
  repeat split; repeat (f_equal; try lra).
Qed.

(** C5, amended.  When the backend flags a trivial crossing towards a state
    [t] of the system other than the running state, [hop_prob] gives [t] the
    probability one and every other state the probability zero; [hop_check]
    selects [t] for every draw above 0 (and at most 1), writing it into slot 0
    of the caller's list; and [evaluate_hop] keeps that hop: it runs neither
    the rescaling nor the frustration test, leaves velocities, kinetic
    energies and the reject flag as they were, and appends the one line
    "Trivial crossing hopping: hop r -> t". *)
Theorem C5_trivial_crossing_forces_the_hop
    (eps : R) (qed : Qed.QED) (s : Qed.SH) (pol_list : list nat) (draw : R) :
  Qed.l_trivial qed = true ->
  (Qed.trivial_state qed < Qed.pst (Qed.pol s))%nat ->
  Qed.trivial_state qed <> Qed.rstate s ->
  0 < draw <= 1 ->
  let t := Qed.trivial_state qed in
  let s1 := Qed.hop_prob qed s in
  let r2 := Qed.hop_check draw s1 pol_list in
  let r3 := Qed.evaluate_hop eps qed r2.1 r2.2 in
  (forall i, (i < Qed.pst (Qed.pol s))%nat ->
     Qed.prob s1 !!! i = if (i =? t)%nat then 1 else 0) /\
  (Qed.rstate r2.1 = t /\ Qed.l_hop r2.1 = true /\ r2.2 = <[0%nat := t]> pol_list) /\
  (Qed.rstate r3.1 = t /\ Qed.l_hop r3.1 = true /\ r3.2 = <[0%nat := t]> pol_list /\
   Qed.pol r3.1 = Qed.pol s /\ Qed.l_reject r3.1 = Qed.l_reject s /\
   Qed.event r3.1 = Qed.event s ++ [ev_trivial (Qed.rstate s) t]) /\
  Qed.step eps qed draw s pol_list = r3.
Proof.
  intros Htriv Ht Htr Hdraw t s1 r2 r3.
  assert (Hstep : Qed.step eps qed draw s pol_list = r3).
  { subst r3 r2 s1. unfold Qed.step. by destruct (Qed.hop_check _ _ _). }
  destruct (Qed_hop_prob_trivial qed s Htriv Ht Htr) as (Hprob & Hacc).
  fold t s1 in Hprob, Hacc.
  destruct (Qed_hop_prob_spec qed s)
    as (_ & _ & Hhop1 & Hr1 & Hold1 & Hpol1 & Hev1 & Hrej1 & _).
  fold s1 in Hhop1, Hr1, Hold1, Hpol1, Hev1, Hrej1.
  set (n := Qed.pst (Qed.pol s)) in *.
  assert (Hmono : nondecreasing n (Qed.acc_prob s1)).
  { intros i j [Hij Hj]. rewrite !Hacc by lia.
    destruct (Nat.ltb_spec t i), (Nat.ltb_spec t j); try lra; lia. }
  assert (Hhit : hits (Qed.acc_prob s1) draw t).
  { unfold hits. rewrite !Hacc by lia.
    destruct (Nat.ltb_spec t t), (Nat.ltb_spec t (S t)); try lia. lra. }
  assert (Hsel : Qed.rstate r2.1 = t /\ Qed.l_hop r2.1 = true /\
                 r2.2 = <[0%nat := t]> pol_list /\
                 Qed.pol r2.1 = Qed.pol s /\ Qed.rstate_old r2.1 = Qed.rstate s /\
                 Qed.event r2.1 = Qed.event s /\ Qed.l_reject r2.1 = Qed.l_reject s).
  { assert (Hmono' : nondecreasing (Qed.pst (Qed.pol s1)) (Qed.acc_prob s1))
      by (by rewrite Hpol1).
    destruct (Qed_hop_check_spec draw s1 pol_list Hmono')
      as (Hp & Ho & He & Hj & _ & _ & Hcase).
    fold r2 in Hp, Ho, He, Hj, Hcase. rewrite Hpol1 in Hcase. fold n in Hcase.
    rewrite Hr1 in Hcase.
    destruct Hcase as [(i & Hi & Hine & Hhiti & Hri & Hhi & Hli) | (Hnone & _)].
    - assert (Hit : i = t)
        by exact (hits_unique n (Qed.acc_prob s1) draw i t Hmono Hi Ht Hhiti Hhit).
      rewrite Hit in Hri, Hli. repeat split; try done; congruence.
    - exfalso. by apply (Hnone t). }
  destruct Hsel as (Hr2 & Hh2 & Hl2 & Hp2 & Ho2 & He2 & Hj2).
  destruct (Qed_evaluate_trivial eps qed r2.1 r2.2 Htriv)
    as (Hp3 & Hr3 & _ & Hh3 & Hj3 & Hl3 & He3).
  fold r3 in Hp3, Hr3, Hh3, Hj3, Hl3, He3.
  split; [exact Hprob |]. split; [done |]. split; [| exact Hstep].
  rewrite Hr3, Hh3, Hl3, Hp3, Hj3, He3, Hr2, Ho2, He2.
  repeat split; try done.
  destruct (Nat.eqb_spec t (Qed.rstate s)); [subst t; congruence | done].
Qed.

Lemma C5_witness :
  let qed := Sample.qed true 1 in
  let s := Sample.qsh Augment Reverse false 0 [1] [1] 0 1 0.5 (1, 0) (0, 0) in
  let s1 := Qed.hop_prob qed s in
  let r2 := Qed.hop_check 0.5 s1 [0%nat] in
  let r3 := Qed.evaluate_hop Sample.eps qed r2.1 r2.2 in
  (forall i, (i < 2)%nat -> Qed.prob s1 !!! i = if (i =? 1)%nat then 1 else 0) /\
  (Qed.rstate r2.1 = 1%nat /\ Qed.l_hop r2.1 = true /\ r2.2 = [1%nat]) /\
  (Qed.rstate r3.1 = 1%nat /\ Qed.l_hop r3.1 = true /\ r3.2 = [1%nat] /\
   Qed.pol r3.1 = Qed.pol s /\ Qed.l_reject r3.1 = false /\
   Qed.event r3.1 = [ev_trivial 0 1]) /\
  Qed.step Sample.eps qed 0.5 s [0%nat] = r3.
Proof.
  apply (C5_trivial_crossing_forces_the_hop Sample.eps (Sample.qed true 1)
           (Sample.qsh Augment Reverse false 0 [1] [1] 0 1 0.5 (1, 0) (0, 0))
           [0%nat] 0.5);
    [reflexivity | cbn; lia | cbn; lia | lra].
Defined.

(** ** Energy bookkeeping of the rescaling *)

(** The chosen root solves the quadratic. *)
Lemma quadratic_root (a b c : R) :
  a <> 0 -> 0 <= b ^ 2 - 4 * a * c ->
  let det := b ^ 2 - 4 * a * c in
  let x := if Rltb b 0 then 0.5 * (- b - sqrt det) / a
           else 0.5 * (- b + sqrt det) / a in
  a * x ^ 2 + b * x + c = 0.
Proof.
  intros Ha Hdet det x.
  assert (Hq : sqrt det * sqrt det = b ^ 2 - 4 * a * c) by (apply sqrt_sqrt; exact Hdet).
  subst x. set (q := sqrt det) in *.
  destruct (Rltb b 0); field_simplify_eq; try exact Ha; nra.
Qed.

Lemma rsum_cons (y : R) (l : list R) : rsum (y :: l) = y + rsum l.
Proof. reflexivity. Qed.

Lemma zip_with_cc {A B D} (f : A -> B -> D) (a : A) (b : B) (l : list A) (k : list B) :
  zip_with f (a :: l) (b :: k) = f a b :: zip_with f l k.
Proof. reflexivity. Qed.

(** Push the list operations through a leading element. *)
Ltac push_cons := repeat (progress rewrite ?fmap_cons, ?zip_with_cc, ?rsum_cons).

(** Squared length of a row after adding [x] times another row. *)
Lemma row_sq_add (x : R) (dr vr : vec) :
  length dr = length vr ->
  rsum ((fun y => y ^ 2) <$> zip_with Rplus vr (Rmult x <$> dr))
  = rsum ((fun y => y ^ 2) <$> vr)
    + 2 * x * rsum (zip_with Rmult dr vr)
    + x ^ 2 * rsum ((fun y => y ^ 2) <$> dr).
Proof.
  revert vr. induction dr as [|dk dr IH]; intros [|vk vr] Hlen; try done.
  - cbn. lra.
  - cbn in Hlen. injection Hlen as Hlen.
    push_cons. rewrite (IH vr Hlen). lra.
Qed.

(** Kinetic energy after [vel += x * d] ("velocity" mode). *)
Lemma kinetic_add (x : R) (d v : list vec) :
  same_rows d v ->
  forall m : list R,
  kinetic m (arr_add v (arr_scale x d))
  = kinetic m v
    + x * rsum (vec_mul m (row_sum (arr_mul d v)))
    + 0.5 * x ^ 2 * rsum (vec_mul m (row_sum (arr_sq d))).
Proof.
  unfold kinetic, vec_mul, row_sum, arr_sq, arr_add, arr_scale, arr_mul.
  induction 1 as [|dr vr d v Hrow Hrows IH]; intros [|mi m];
    try (unfold rsum; cbn; lra).
  push_cons. rewrite IH, (row_sq_add x dr vr Hrow). lra.
Qed.

(** Kinetic energy after [vel += x * d / mass] ("momentum" and "augment"). *)
Lemma kinetic_add_over_mass (x : R) (d v : list vec) :
  same_rows d v ->
  forall m : list R, length m = length v -> Forall (fun y => y <> 0) m ->
  kinetic m (arr_add v (arr_div_col (arr_scale x d) m))
  = kinetic m v
    + x * rsum (row_sum (arr_mul d v))
    + 0.5 * x ^ 2 * rsum (vec_mul (vec_inv m) (row_sum (arr_sq d))).
Proof.
  unfold kinetic, vec_mul, vec_inv, row_sum, arr_sq, arr_add, arr_div_col,
    arr_scale, arr_mul.
  induction 1 as [|dr vr d v Hrow Hrows IH]; intros [|mi m] Hlen Hm; try done.
  - unfold rsum. cbn. lra.
  - cbn in Hlen. injection Hlen as Hlen. inversion Hm as [|? ? Hmi Hm']; subst.
    push_cons. rewrite (IH m Hlen Hm').
    assert (Hdiv : (fun z => z / mi) <$> (Rmult x <$> dr) = Rmult (x / mi) <$> dr).
    { rewrite <- list_fmap_compose. apply list_fmap_ext. intros _ y _.
      unfold compose. field. exact Hmi. }
    rewrite Hdiv, (row_sq_add (x / mi) dr vr Hrow).
    assert (Hhalf : 0.5 = 1 / 2) by lra. rewrite Hhalf. field. exact Hmi.
Qed.

(** Kinetic energy after [vel *= x]. *)
Lemma kinetic_scale (x : R) (v : list vec) (m : list R) :
  kinetic m (arr_scale x v) = x ^ 2 * kinetic m v.
Proof.
  unfold kinetic, vec_mul, row_sum, arr_sq, arr_scale.
  revert m. induction v as [|vr v IH]; intros [|mi m];
    try (unfold rsum; cbn; lra).
  push_cons. rewrite IH.
  assert (Hrow : rsum ((fun y => y ^ 2) <$> (Rmult x <$> vr))
                 = x ^ 2 * rsum ((fun y => y ^ 2) <$> vr)).
  { clear. induction vr as [|y vr IH]; [unfold rsum; cbn; lra |].
    push_cons. rewrite IH. lra. }
  rewrite Hrow. lra.
Qed.

(** *** Sums over all atoms against sums over the QM region *)

Lemma rsum_zeros (l : list R) : Forall (fun y => y = 0) l -> rsum l = 0.
Proof.
  induction 1 as [|y l -> _ IH]; [reflexivity |]. rewrite rsum_cons, IH. lra.
Qed.

Lemma weighted_zeros (w l : list R) :
  Forall (fun y => y = 0) l -> rsum (vec_mul w l) = 0.
Proof.
  unfold vec_mul. intros Hl. revert w.
  induction Hl as [|y l -> _ IH]; intros [|wi w]; try reflexivity.
  push_cons. rewrite IH. lra.
Qed.

(** A tail of zeros does not count in a weighted sum. *)
Lemma weighted_zero_tail (w l1 l2 : list R) :
  Forall (fun y => y = 0) l2 ->
  rsum (vec_mul w (l1 ++ l2)) = rsum (vec_mul (take (length l1) w) l1).
Proof.
  intros Hl2. revert w. induction l1 as [|y l1 IH]; intros w.
  - cbn [app length take]. rewrite weighted_zeros by done. reflexivity.
  - destruct w as [|wi w]; [reflexivity |].
    cbn [app length take]. unfold vec_mul in *. push_cons. by rewrite IH.
Qed.

Lemma take_min {A} (n : nat) (w : list A) :
  take (Nat.min n (length w)) w = take n w.
Proof.
  destruct (Nat.le_gt_cases n (length w)).
  - by rewrite Nat.min_l.
  - rewrite Nat.min_r by lia. rewrite !take_ge by lia. done.
Qed.

Lemma take_length_take {A B} (n : nat) (d : list A) (w : list B) :
  length w = length d -> take (length (take n d)) w = take n w.
Proof.
  intros Hlen. rewrite length_take, <- Hlen. apply take_min.
Qed.

Lemma zero_rows_sq (d : list vec) :
  zero_rows d -> Forall (fun y => y = 0) (row_sum (arr_sq d)).
Proof.
  unfold row_sum, arr_sq. induction 1 as [|row d Hrow _ IH]; [constructor |].
  push_cons. constructor; [| exact IH].
  apply rsum_zeros. clear -Hrow.
  induction Hrow as [|y row -> _ IH]; [constructor |].
  push_cons. constructor; [lra | exact IH].
Qed.

Lemma zero_rows_mul (d v : list vec) :
  zero_rows d -> Forall (fun y => y = 0) (row_sum (arr_mul d v)).
Proof.
  unfold row_sum, arr_mul. intros Hd. revert v.
  induction Hd as [|row d Hrow _ IH]; intros [|vr v]; try constructor.
  - apply rsum_zeros. clear -Hrow. revert vr.
    induction Hrow as [|y row -> _ IH]; intros [|z vr]; try constructor.
    + lra.
    + apply IH.
  - apply IH.
Qed.

(** The sum of mass times squared coupling over all atoms is the sum over the
    QM region when the coupling vector vanishes on the other atoms. *)
Lemma sum_sq_qm (n : nat) (w : list R) (d : list vec) :
  length w = length d -> zero_rows (drop n d) ->
  rsum (vec_mul w (row_sum (arr_sq d)))
  = rsum (vec_mul (take n w) (row_sum (arr_sq (take n d)))).
Proof.
  intros Hlen Hzero.
  rewrite <- (take_drop n d) at 1. unfold row_sum, arr_sq. rewrite !fmap_app.
  rewrite weighted_zero_tail by (by apply zero_rows_sq).
  rewrite !length_fmap. by rewrite take_length_take.
Qed.

Lemma sum_mul_qm (n : nat) (w : list R) (d v : list vec) :
  length w = length d -> length d = length v -> zero_rows (drop n d) ->
  rsum (vec_mul w (row_sum (arr_mul d v)))
  = rsum (vec_mul (take n w) (row_sum (arr_mul (take n d) (take n v)))).
Proof.
  intros Hlen Hdv Hzero.
  rewrite <- (take_drop n d) at 1. rewrite <- (take_drop n v) at 1.
  unfold row_sum, arr_mul.
  rewrite zip_with_app by (rewrite !length_take; lia). rewrite fmap_app.
  rewrite weighted_zero_tail by (by apply zero_rows_mul).
  rewrite length_fmap, length_zip_with, !length_take.
  replace (Nat.min (Nat.min n (length d)) (Nat.min n (length v)))
    with (Nat.min n (length w)) by lia.
  by rewrite take_min.
Qed.

Lemma sum_mul_plain_qm (n : nat) (d v : list vec) :
  length d = length v -> zero_rows (drop n d) ->
  rsum (row_sum (arr_mul d v))
  = rsum (row_sum (arr_mul (take n d) (take n v))).
Proof.
  intros Hdv Hzero.
  rewrite <- (take_drop n d) at 1. rewrite <- (take_drop n v) at 1.
  unfold row_sum, arr_mul.
  rewrite zip_with_app by (rewrite !length_take; lia). rewrite fmap_app, rsum_app.
  rewrite (rsum_zeros (rsum <$> zip_with _ (drop n d) _)) by (by apply zero_rows_mul).
  lra.
Qed.

(** Reading back the rows just assigned. *)
Lemma take_assign_head {A} (n : nat) (rows l : list A) :
  length rows = length (take n l) -> take n (assign_head n rows l) = rows.
Proof.
  intros Hlen. unfold assign_head. rewrite length_take in Hlen.
  destruct (Nat.le_gt_cases n (length l)).
  - rewrite take_app_length'; [done | lia].
  - rewrite drop_ge by lia. rewrite app_nil_r. apply take_ge. lia.
Qed.

Lemma same_rows_take (n : nat) (d v : list vec) :
  same_rows d v -> same_rows (take n d) (take n v).
Proof. apply Forall2_take. Qed.

Lemma length_arr_add_scale (x : R) (d v : list vec) :
  same_rows d v -> length (arr_add v (arr_scale x d)) = length v.
Proof.
  intros H. apply Forall2_length in H. unfold arr_add, arr_scale.
  rewrite length_zip_with, length_fmap. lia.
Qed.

Lemma length_arr_add_div (x : R) (d v : list vec) (m : list R) :
  same_rows d v -> length m = length v ->
  length (arr_add v (arr_div_col (arr_scale x d) m)) = length v.
Proof.
  intros H Hm. apply Forall2_length in H. unfold arr_add, arr_div_col, arr_scale.
  rewrite !length_zip_with, length_fmap. lia.
Qed.

(** Energy conservation of an accepted hop in src/mqc/sh.py, for the modes
    that solve the quadratic: "velocity" and "momentum" always, "augment"
    when the discriminant is positive.  The arrays have the shapes numpy
    demands, the coupling vector vanishes outside the QM region (over which
    alone the velocities are changed, while [a] and [b] are summed over all
    atoms), no mass is zero and [a] is not zero. *)
Lemma Mqc_hop_conserves_energy (eps : R) (s : Mqc.SH) (bo : list nat) :
  let m := Mqc.mol s in
  let n := Mqc.nat_qm m in
  let d := Mqc.nac m (Mqc.rstate_old s) (Mqc.rstate s) in
  Mqc.l_hop s = true -> Mqc.rejects eps s = false ->
  (Mqc.vel_rescale s = Velocity \/ Mqc.vel_rescale s = Momentum \/
   (Mqc.vel_rescale s = Augment /\ (Mqc.quadratic s).2 > 0)) ->
  (Mqc.quadratic s).1.1 <> 0 ->
  same_rows d (Mqc.vel m) -> length (Mqc.mass m) = length (Mqc.vel m) ->
  zero_rows (drop n d) -> Forall (fun y => y <> 0) (Mqc.mass m) ->
  let r := Mqc.evaluate_hop eps s bo in
  Mqc.ekin_qm (Mqc.mol r.1) + Mqc.energy (Mqc.states (Mqc.mol r.1) !!! Mqc.rstate r.1)
  = kinetic (take n (Mqc.mass m)) (take n (Mqc.vel m))
    + Mqc.energy (Mqc.states m !!! Mqc.rstate_old s).
Proof.
  intros m n d Hhop Hacc Hmode Ha Hrows Hlen Hzero Hmass r.
  pose proof (Mqc_evaluate_accepted eps s bo Hhop Hacc) as Hev. fold r in Hev.
  assert (Hdv : length d = length (Mqc.vel m)) by (by apply Forall2_length in Hrows).
  assert (Hdet : 0 <= (Mqc.quadratic s).2).
  { unfold Mqc.rejects, Mqc.decide_reject in Hacc.
    destruct Hmode as [Hv | [Hv | [Hv Hpos]]]; [| | lra];
      rewrite Hv in Hacc; cbn [is_energy is_augment andb] in Hacc;
      destruct (Rltb (Mqc.quadratic s).2 0) eqn:Hd; try done;
      by apply Rltb_ge in Hd. }
  assert (Hquad : Mqc.quadratic s =
            ((Mqc.quadratic s).1.1, (Mqc.quadratic s).1.2,
             (Mqc.quadratic s).1.2 ^ 2
             - 4 * (Mqc.quadratic s).1.1 * (2 * Mqc.pot_diff s))).
  { unfold Mqc.quadratic.
    destruct Hmode as [Hv | [Hv | [Hv _]]]; rewrite Hv; reflexivity. }
  destruct (Mqc.quadratic s) as [[a b] det] eqn:Hq. cbn [fst snd] in *.
  assert (Hdet_eq : det = b ^ 2 - 4 * a * (2 * Mqc.pot_diff s))
    by (injection Hquad as Hquad; lra).
  clear Hquad. cbn zeta in Hev.
  destruct Hev as (Hr & _ & _ & _ & _ & Hmol).
  assert (Hsimple : is_energy (Mqc.vel_rescale s)
                    || (Rltb det 0 && is_augment (Mqc.vel_rescale s)) = false).
  { rewrite (proj2 (Rltb_ge det 0)) by lra.
    destruct Hmode as [Hv | [Hv | [Hv _]]]; by rewrite Hv. }
  rewrite Hsimple in Hmol.
  set (x := if Rltb b 0 then 0.5 * (- b - sqrt det) / a
            else 0.5 * (- b + sqrt det) / a) in *.
  assert (Hroot : a * x ^ 2 + b * x + 2 * Mqc.pot_diff s = 0).
  { subst x. rewrite Hdet_eq. apply quadratic_root; [done | by rewrite <- Hdet_eq]. }
  rewrite Hmol, Hr. cbn [Mqc.update_kinetic Mqc.set_vel Mqc.ekin_qm Mqc.states
                          Mqc.nat_qm Mqc.mass Mqc.vel].
  fold m n d.
  assert (Htake : same_rows (take n d) (take n (Mqc.vel m))) by (by apply same_rows_take).
  assert (Hlen' : length (take n (Mqc.mass m)) = length (take n (Mqc.vel m)))
    by (rewrite !length_take; lia).
  assert (Hpot : Mqc.energy (Mqc.states m !!! Mqc.rstate s)
                 = Mqc.energy (Mqc.states m !!! Mqc.rstate_old s) + Mqc.pot_diff s)
    by (unfold Mqc.pot_diff; fold m; lra).
  rewrite Hpot.
  unfold Mqc.quadratic in Hq. fold m d in Hq.
  assert (Hadditive : forall V,
    V = assign_head n (arr_add (take n (Mqc.vel m))
                         (arr_div_col (arr_scale x (take n d)) (take n (Mqc.mass m))))
                    (Mqc.vel m) ->
    a = rsum (vec_mul (vec_inv (Mqc.mass m)) (row_sum (arr_sq d))) ->
    b = 2 * rsum (row_sum (arr_mul d (Mqc.vel m))) ->
    kinetic (take n (Mqc.mass m)) (take n V)
    + (Mqc.energy (Mqc.states m !!! Mqc.rstate_old s) + Mqc.pot_diff s)
    = kinetic (take n (Mqc.mass m)) (take n (Mqc.vel m))
      + Mqc.energy (Mqc.states m !!! Mqc.rstate_old s)).
  { intros V -> Hae Hbe.
    rewrite take_assign_head by (by apply length_arr_add_div).
    rewrite kinetic_add_over_mass by (try done; by apply Forall_take).
    rewrite (sum_sq_qm n) in Hae
      by (try done; unfold vec_inv; rewrite length_fmap; lia).
    rewrite (sum_mul_plain_qm n) in Hbe by done.
    unfold vec_inv in *. rewrite <- fmap_take in Hae.
    rewrite <- Hae. nra. }
  destruct Hmode as [Hv | [Hv | [Hv Hpos]]]; rewrite Hv in Hq |- *;
    injection Hq as Hae Hbe _; cbn [Mqc.rescale_vel].
  - fold n. rewrite take_assign_head by (by apply length_arr_add_scale).
    rewrite kinetic_add by done.
    rewrite (sum_sq_qm n) in Hae by (try done; lia).
    rewrite (sum_mul_qm n) in Hbe by (try done; lia).
    nra.
  - fold n. by apply Hadditive.
  - fold n. rewrite (proj2 (Rgtb_gt det 0)) by lra. cbn [orb].
    by apply Hadditive.
Qed.

(** The same for src/mqc_qed/sh.py, whose sums run over the QM region as
    the velocity update does; [pnac[i, j]] has one row per QM atom. *)
Lemma Qed_hop_conserves_energy (eps : R) (qed : Qed.QED) (s : Qed.SH) (pl : list nat) :
  let p := Qed.pol s in
  let n := Qed.nat_qm p in
  let d := Qed.pnac p (Qed.rstate_old s) (Qed.rstate s) in
  Qed.l_hop s = true -> Qed.l_trivial qed = false -> Qed.rejects eps s = false ->
  (Qed.hop_rescale s = Velocity \/ Qed.hop_rescale s = Momentum \/
   (Qed.hop_rescale s = Augment /\ (Qed.quadratic s).2 > 0)) ->
  (Qed.quadratic s).1.1 <> 0 ->
  same_rows d (take n (Qed.vel p)) -> length (Qed.mass p) = length (Qed.vel p) ->
  Forall (fun y => y <> 0) (Qed.mass p) ->
  let r := Qed.evaluate_hop eps qed s pl in
  Qed.ekin_qm (Qed.pol r.1)
  + Qed.energy (Qed.pol_states (Qed.pol r.1) !!! Qed.rstate r.1)
  = kinetic (take n (Qed.mass p)) (take n (Qed.vel p))
    + Qed.energy (Qed.pol_states p !!! Qed.rstate_old s).
Proof.
  intros p n d Hhop Htriv Hacc Hmode Ha Hrows Hlen Hmass r.
  pose proof (Qed_evaluate_accepted eps qed s pl Hhop Htriv Hacc) as Hev. fold r in Hev.
  assert (Hdet : 0 <= (Qed.quadratic s).2).
  { unfold Qed.rejects, Qed.decide_reject in Hacc.
    destruct Hmode as [Hv | [Hv | [Hv Hpos]]]; [| | lra];
      rewrite Hv in Hacc; cbn [is_energy is_augment andb] in Hacc;
      destruct (Rltb (Qed.quadratic s).2 0) eqn:Hd; try done;
      by apply Rltb_ge in Hd. }
  assert (Hquad : Qed.quadratic s =
            ((Qed.quadratic s).1.1, (Qed.quadratic s).1.2,
             (Qed.quadratic s).1.2 ^ 2
             - 4 * (Qed.quadratic s).1.1 * (2 * Qed.pot_diff s))).
  { unfold Qed.quadratic.
    destruct Hmode as [Hv | [Hv | [Hv _]]]; rewrite Hv; reflexivity. }
  destruct (Qed.quadratic s) as [[a b] det] eqn:Hq. cbn [fst snd] in *.
  assert (Hdet_eq : det = b ^ 2 - 4 * a * (2 * Qed.pot_diff s))
    by (injection Hquad as Hquad; lra).
  clear Hquad. cbn zeta in Hev.
  destruct Hev as (Hr & _ & _ & _ & _ & Hpol).
  assert (Hsimple : is_energy (Qed.hop_rescale s)
                    || (Rltb det 0 && is_augment (Qed.hop_rescale s)) = false).
  { rewrite (proj2 (Rltb_ge det 0)) by lra.
    destruct Hmode as [Hv | [Hv | [Hv _]]]; by rewrite Hv. }
  rewrite Hsimple in Hpol.
  set (x := if Rltb b 0 then 0.5 * (- b - sqrt det) / a
            else 0.5 * (- b + sqrt det) / a) in *.
  assert (Hroot : a * x ^ 2 + b * x + 2 * Qed.pot_diff s = 0).
  { subst x. rewrite Hdet_eq. apply quadratic_root; [done | by rewrite <- Hdet_eq]. }
  rewrite Hpol, Hr. cbn [Qed.update_kinetic Qed.set_vel Qed.ekin_qm Qed.pol_states
                          Qed.nat_qm Qed.mass Qed.vel].
  fold p n d.
  assert (Hlen' : length (take n (Qed.mass p)) = length (take n (Qed.vel p)))
    by (rewrite !length_take; lia).
  assert (Hpot : Qed.energy (Qed.pol_states p !!! Qed.rstate s)
                 = Qed.energy (Qed.pol_states p !!! Qed.rstate_old s) + Qed.pot_diff s)
    by (unfold Qed.pot_diff; fold p; lra).
  rewrite Hpot.
  unfold Qed.quadratic in Hq. fold p n d in Hq.
  assert (Hadditive : forall V,
    V = assign_head n (arr_add (take n (Qed.vel p))
                         (arr_div_col (arr_scale x d) (take n (Qed.mass p))))
                    (Qed.vel p) ->
    a = rsum (vec_mul (vec_inv (take n (Qed.mass p))) (row_sum (arr_sq d))) ->
    b = 2 * rsum (row_sum (arr_mul d (take n (Qed.vel p)))) ->
    kinetic (take n (Qed.mass p)) (take n V)
    + (Qed.energy (Qed.pol_states p !!! Qed.rstate_old s) + Qed.pot_diff s)
    = kinetic (take n (Qed.mass p)) (take n (Qed.vel p))
      + Qed.energy (Qed.pol_states p !!! Qed.rstate_old s)).
  { intros V -> Hae Hbe.
    rewrite take_assign_head by (by apply length_arr_add_div).
    rewrite kinetic_add_over_mass by (try done; by apply Forall_take).
    nra. }
  destruct Hmode as [Hv | [Hv | [Hv Hpos]]]; rewrite Hv in Hq |- *;
    injection Hq as Hae Hbe _; cbn [Qed.rescale_vel].
  - fold n. rewrite take_assign_head by (by apply length_arr_add_scale).
    rewrite kinetic_add by done. nra.
  - fold n. by apply Hadditive.
  - fold n. rewrite (proj2 (Rgtb_gt det 0)) by lra. cbn [orb].
    by apply Hadditive.
Qed.

(** The hypotheses of the two conservation lemmas are met by the sample
    system in "momentum" mode with gap 0.25 and kinetic energy 0.5: the hop
    is accepted and the total energy 0.5 is kept. *)
Example hop_conserves_energy_sample :
  let s := Sample.sh Momentum Reverse true [1] [1] 0 0.25 0.5 in
  let r := Mqc.evaluate_hop Sample.eps s [1%nat] in
  Mqc.l_reject r.1 = false /\
  Mqc.ekin_qm (Mqc.mol r.1) + Mqc.energy (Mqc.states (Mqc.mol r.1) !!! Mqc.rstate r.1)
  = 0.5 + 0.
Proof.
  intros s r. split.
  - subst r s. runR. rdecide. reflexivity.
  - assert (Hk : kinetic (take 1 [1]) (take 1 [[1]]) = 0.5) by (runR; lra).
    rewrite <- Hk.
    apply (Mqc_hop_conserves_energy Sample.eps s [1%nat]); try reflexivity.
    + subst s. runR. rdecide. reflexivity.
    + by right; left.
    + subst s. runR. lra.
    + subst s. cbn. repeat constructor.
    + subst s. cbn. constructor.
    + subst s. cbn. repeat constructor. lra.
Qed.

(** C1.  The claim promises conservation for every hop accepted with a real
    root, "augment" with a zero discriminant included.  There the code departs
    from it: [x] is computed as the root of the quadratic (the test is
    [det < 0.]) but applied as an isotropic factor (the test before the
    additive update is [det > 0.]).  One atom of unit mass with velocity 1 and
    coupling vector 1, a gap of 0.5 and a kinetic energy of 0.5 give
    [a = 1], [b = 2], [det = 0] and [x = -1]: the hop is accepted, the
    velocity becomes -1 instead of 0, and the total energy grows from 0.5
    to 1.  Both engines do so. *)
Theorem C1_augment_zero_discriminant_breaks_conservation :
  let s := Sample.sh Augment Reverse true [1] [1] 0 0.5 0.5 in
  let r := Mqc.evaluate_hop Sample.eps s [1%nat] in
  let q := Sample.qsh Augment Reverse true 1 [1] [1] 0 0.5 0.5 (1, 0) (0, 0) in
  let rq := Qed.evaluate_hop Sample.eps (Sample.qed false 0) q [1%nat] in
  (Mqc.quadratic s = (1, 2, 0) /\
   Mqc.ekin_qm (Mqc.mol s) = kinetic [1] [[1]] /\
   Mqc.l_hop r.1 = true /\ Mqc.l_reject r.1 = false /\ Mqc.rstate r.1 = 1%nat /\
   Mqc.vel (Mqc.mol r.1) = [[-1]] /\
   Mqc.ekin_qm (Mqc.mol s) + Mqc.energy (Mqc.states (Mqc.mol s) !!! Mqc.rstate_old s)
   = 0.5 /\
   Mqc.ekin_qm (Mqc.mol r.1)
   + Mqc.energy (Mqc.states (Mqc.mol r.1) !!! Mqc.rstate r.1) = 1) /\
  (Qed.quadratic q = (1, 2, 0) /\
   Qed.l_hop rq.1 = true /\ Qed.l_reject rq.1 = false /\ Qed.rstate rq.1 = 1%nat /\
   Qed.vel (Qed.pol rq.1) = [[-1]] /\
   Qed.ekin_qm (Qed.pol q)
   + Qed.energy (Qed.pol_states (Qed.pol q) !!! Qed.rstate_old q) = 0.5 /\
   Qed.ekin_qm (Qed.pol rq.1)
   + Qed.energy (Qed.pol_states (Qed.pol rq.1) !!! Qed.rstate rq.1) = 1).
Proof.
  split.
  - runR. rdecide. runR.
    repeat match goal with
    | |- context [sqrt ?e] => replace e with 0 by lra; rewrite sqrt_0
    end.
    repeat split; repeat (f_equal; try lra); lra.
  - runR. rdecide. runR.
    repeat match goal with
    | |- context [sqrt ?e] => replace e with 0 by lra; rewrite sqrt_0
    end.
    repeat split; repeat (f_equal; try lra); lra.
Qed.

(** ** Energy-based decoherence correction (src/mqc_qed/sh.py) *)

Lemma Cmult_conj_self (c : C) : Cmult (Cconj c) c = (Cnorm2 c, 0).
Proof.
  destruct c as [x y]. unfold Cmult, Cconj, Cnorm2. cbn. f_equal; lra.
Qed.

Lemma Cconj_real (x : R) : Cconj (x, 0) = (x, 0).
Proof. unfold Cconj. cbn. f_equal. lra. Qed.

(** Quotient and square root of non-negative reals, seen as complex numbers. *)
Lemma Csqrt_Cdiv_real (x y : R) :
  0 <= x -> 0 < y -> Csqrt (Cdiv (x, 0) (y, 0)) = (sqrt (x / y), 0).
Proof.
  intros Hx Hy.
  assert (Hq : Cdiv (x, 0) (y, 0) = (x / y, 0)).
  { unfold Cdiv, Cnorm2. cbn. f_equal; field; lra. }
  rewrite Hq. unfold Csqrt, Cmod, Cnorm2. cbn.
  assert (Hxy : 0 <= x / y) by (apply Rmult_le_pos; [lra | apply Rlt_le, Rinv_0_lt_compat; lra]).
  replace (x / y * (x / y) + 0 * 0) with ((x / y) * (x / y)) by lra.
  rewrite sqrt_square by done.
  replace ((x / y + x / y) / 2) with (x / y) by lra.
  replace ((x / y - x / y) / 2) with 0 by lra.
  rewrite sqrt_0, (Rltb_false 0 0) by lra. f_equal. lra.
Qed.

(** The population of a coefficient multiplied by a non-negative real. *)
Lemma Cnorm2_mult_real (c : C) (x : R) : Cnorm2 (Cmult c (x, 0)) = Cnorm2 c * x ^ 2.
Proof. destruct c as [u v]. unfold Cnorm2, Cmult. cbn. lra. Qed.

(** The loop "Update coefficients": the coefficients of the states other than
    the running one decay, and [rho_update] ends as one minus their
    population. *)
Lemma edc_coef_loop (s : Qed.SH) :
  let p := Qed.pol s in
  let n := Qed.pst p in
  let r := Qed.rstate s in
  length (Qed.pol_states p) = n ->
  let st := foldl (Qed.edc_coef_step s) (Qed.pol_states p, (1, 0)) (seq 0 n) in
  length st.1 = n /\
  (forall i, Qed.energy (st.1 !!! i) = Qed.energy (Qed.pol_states p !!! i)) /\
  (forall i, Qed.coef_a (st.1 !!! i) =
             if (i <? n)%nat && negb (i =? r)%nat then Qed.decayed s i
             else Qed.coef_a (Qed.pol_states p !!! i)) /\
  st.2 = (1 - Qed.decayed_population s, 0).
Proof.
  intros p n r Hlen.
  apply (foldl_seq_invariant (Qed.edc_coef_step s)
    (fun k st =>
       length st.1 = n /\
       (forall i, Qed.energy (st.1 !!! i) = Qed.energy (Qed.pol_states p !!! i)) /\
       (forall i, Qed.coef_a (st.1 !!! i) =
                  if (i <? k)%nat && negb (i =? r)%nat then Qed.decayed s i
                  else Qed.coef_a (Qed.pol_states p !!! i)) /\
       st.2 = (1 - partial_sum r (fun ist => Cnorm2 (Qed.decayed s ist)) k, 0))).
  - cbn [fst snd]. repeat split; try done.
    unfold partial_sum. cbn. f_equal. lra.
  - intros k [sts ru] Hk (Hl & Hen & Hco & Hru). cbn [fst snd] in *.
    unfold Qed.edc_coef_step. fold r.
    destruct (Nat.eqb_spec k r) as [-> | Hkr]; cbn [negb fst snd].
    + split; [done |]. split; [done |]. split.
      * intros i. rewrite Hco.
        destruct (Nat.eqb_spec i r) as [-> | Hir]; [by rewrite !andb_false_r |].
        rewrite !andb_true_r.
        destruct (Nat.ltb_spec i r), (Nat.ltb_spec i (S r)); try done; lia.
      * rewrite Hru, partial_sum_S, Nat.eqb_refl. f_equal. lra.
    + assert (Hck : (Cre (Qed.coef_a (sts !!! k)) * Qed.exp_tau s k,
                     Cim (Qed.coef_a (sts !!! k)) * Qed.exp_tau s k)
                    = Qed.decayed s k).
      { rewrite Hco. destruct (Nat.ltb_spec k k); [lia |]. reflexivity. }
      rewrite Hck. rewrite length_insert. split; [done |]. split; [| split].
      * intros i. destruct (decide (i = k)) as [-> | Hik].
        -- rewrite list_lookup_total_insert_eq by lia. cbn. apply Hen.
        -- rewrite list_lookup_total_insert_ne by done. apply Hen.
      * intros i. destruct (decide (i = k)) as [-> | Hik].
        -- rewrite list_lookup_total_insert_eq by lia. cbn [Qed.coef_a Qed.set_coef].
           destruct (Nat.ltb_spec k (S k)); [| lia].
           by destruct (Nat.eqb_spec k r).
        -- rewrite list_lookup_total_insert_ne by done. rewrite Hco.
           destruct (Nat.ltb_spec i k), (Nat.ltb_spec i (S k)); try done; lia.
      * rewrite Hru, partial_sum_S, Cmult_conj_self.
        destruct (Nat.eqb_spec k r); [done |].
        unfold Cminus. cbn. f_equal; lra.
Qed.

(** An invariant over a loop on [range(start, start + n)]. *)
Lemma foldl_seq_invariant_from {A} (f : A -> nat -> A) (P : nat -> A -> Prop)
    (start n : nat) (a0 : A) :
  P 0%nat a0 ->
  (forall k a, (k < n)%nat -> P k a -> P (S k) (f a (start + k)%nat)) ->
  P n (foldl f a0 (seq start n)).
Proof.
  intros H0 Hstep. induction n as [|n IH].
  - exact H0.
  - rewrite seq_S, foldl_app. cbn. apply Hstep; [lia |].
    apply IH. intros k a Hk. apply Hstep. lia.
Qed.

(** Decide the comparisons of natural numbers that occur in the goal. *)
Ltac nat_cases :=
  repeat match goal with
  | |- context [(?x =? ?y)%nat] => destruct (Nat.eqb_spec x y); try lia
  | |- context [(?x <? ?y)%nat] => destruct (Nat.ltb_spec x y); try lia
  | |- context [(?x <=? ?y)%nat] => destruct (Nat.leb_spec x y); try lia
  end.

(** The inner loop of "Get density matrix elements from coefficients" for
    row [i], over the columns [i .. i + m - 1]. *)
Lemma edc_rho_inner_loop (sts : list Qed.PolState) (i m : nat)
    (rho : nat -> nat -> C) (a b : nat) :
  let cc := fun u v => Cmult (Cconj (Qed.coef_a (sts !!! u))) (Qed.coef_a (sts !!! v)) in
  foldl (Qed.edc_rho_inner sts i) rho (seq i m) a b =
  if (b =? i)%nat && (i <=? a)%nat && (a <? i + m)%nat then Cconj (cc i a)
  else if (a =? i)%nat && (i <=? b)%nat && (b <? i + m)%nat then cc i b
  else rho a b.
Proof.
  intros cc. revert a b.
  apply (foldl_seq_invariant_from (Qed.edc_rho_inner sts i)
    (fun k rho' => forall a b,
       rho' a b =
       if (b =? i)%nat && (i <=? a)%nat && (a <? i + k)%nat then Cconj (cc i a)
       else if (a =? i)%nat && (i <=? b)%nat && (b <? i + k)%nat then cc i b
       else rho a b)).
  - intros a b. nat_cases; done.
  - intros k rho' Hk IH a b. unfold Qed.edc_rho_inner, Qed.upd2. fold (cc i (i + k)%nat).
    rewrite !Nat.eqb_refl. cbn [andb]. rewrite IH.
    nat_cases; cbn [andb]; subst; try done; try lia.
Qed.

Lemma Cconj_outer_diag (c : C) : Cconj (Cmult (Cconj c) c) = Cmult (Cconj c) c.
Proof. rewrite Cmult_conj_self. apply Cconj_real. Qed.

(** Both loops: the density matrix becomes the outer product of the
    coefficients, the lower triangle being the conjugate of the upper one. *)
Lemma edc_rho_loop (n : nat) (sts : list Qed.PolState)
    (rho : nat -> nat -> C) (a b : nat) :
  let cc := fun u v => Cmult (Cconj (Qed.coef_a (sts !!! u))) (Qed.coef_a (sts !!! v)) in
  foldl (Qed.edc_rho_outer n sts) rho (seq 0 n) a b =
  if (a <? n)%nat && (b <? n)%nat
  then (if (a <=? b)%nat then cc a b else Cconj (cc b a))
  else rho a b.
Proof.
  intros cc. revert a b.
  cut (forall a b,
         foldl (Qed.edc_rho_outer n sts) rho (seq 0 n) a b =
         if (a <? n)%nat && (b <? n)%nat && ((a <? n)%nat || (b <? n)%nat)
         then (if (a <=? b)%nat then cc a b else Cconj (cc b a))
         else rho a b).
  { intros H a b. rewrite H. nat_cases; done. }
  apply (foldl_seq_invariant (Qed.edc_rho_outer n sts)
    (fun k rho' => forall a b,
       rho' a b =
       if (a <? n)%nat && (b <? n)%nat && ((a <? k)%nat || (b <? k)%nat)
       then (if (a <=? b)%nat then cc a b else Cconj (cc b a))
       else rho a b)).
  - intros a b. nat_cases; cbn [andb orb]; done.
  - intros k rho' Hk IH a b. unfold Qed.edc_rho_outer.
    rewrite edc_rho_inner_loop. fold cc. rewrite IH.
    replace (k + (n - k))%nat with n by lia.
    nat_cases; cbn [andb orb]; subst; try done; try lia.
    all: try (unfold cc; by rewrite Cconj_outer_diag).
Qed.

(** A sum over all states, split into the running state and the others. *)
Lemma rsum_split_at (r : nat) (f g : nat -> R) (n : nat) :
  (forall i, (i < n)%nat -> i <> r -> f i = g i) ->
  rsum (f <$> seq 0 n)
  = partial_sum r g n + (if (r <? n)%nat then f r else 0).
Proof.
  intros Hfg. induction n as [|n IH].
  - unfold partial_sum, rsum. cbn. lra.
  - rewrite seq_S, fmap_app, rsum_app, partial_sum_S.
    rewrite IH by (intros; apply Hfg; lia).
    cbn [fmap list_fmap Nat.add]. rewrite rsum_cons.
    change (rsum []) with 0.
    destruct (Nat.eqb_spec n r) as [-> | Hnr].
    + destruct (Nat.ltb_spec r r), (Nat.ltb_spec r (S r)); try lia. lra.
    + rewrite (Hfg n) by (try done; lia).
      destruct (Nat.ltb_spec r n), (Nat.ltb_spec r (S n)); try lia; lra.
Qed.

(** What [correct_dec_edc] computes on coefficients. *)
Lemma edc_shape (s : Qed.SH) :
  let p := Qed.pol s in
  let n := Qed.pst p in
  let r := Qed.rstate s in
  let c_r := Qed.coef_a (Qed.pol_states p !!! r) in
  Qed.elec_object s = Qed.Coefficient ->
  length (Qed.pol_states p) = n -> (r < n)%nat ->
  let s' := Qed.correct_dec_edc s in
  let c' := fun i => Qed.coef_a (Qed.pol_states (Qed.pol s') !!! i) in
  Qed.pst (Qed.pol s') = n /\
  (forall i, (i < n)%nat -> i <> r -> c' i = Qed.decayed s i) /\
  c' r = Cmult c_r (Csqrt (Cdiv (1 - Qed.decayed_population s, 0) (Qed.rho_a p r r))) /\
  (forall a b, (a < n)%nat -> (b < n)%nat ->
     Qed.rho_a (Qed.pol s') a b =
     if (a <=? b)%nat then Cmult (Cconj (c' a)) (c' b)
     else Cconj (Cmult (Cconj (c' b)) (c' a))).
Proof.
  intros p n r c_r Hobj Hlen Hr s' c'.
  assert (Hs' : s' = Qed.correct_dec_edc s) by reflexivity.
  unfold Qed.correct_dec_edc in Hs'. rewrite Hobj in Hs'. fold p n r in Hs'.
  destruct (edc_coef_loop s Hlen) as (Hl & Hen & Hco & Hru).
  fold p n r in Hl, Hen, Hco, Hru.
  destruct (foldl (Qed.edc_coef_step s) _ _) as [sts ru]. cbn [fst snd] in *.
  assert (Hcr_old : Qed.coef_a (sts !!! r) = c_r).
  { rewrite Hco. by rewrite Nat.eqb_refl, andb_false_r. }
  rewrite Hcr_old, Hru in Hs'.
  set (c_new := Cmult c_r (Csqrt (Cdiv (1 - Qed.decayed_population s, 0)
                                       (Qed.rho_a p r r)))) in *.
  set (sts' := <[r := Qed.set_coef (sts !!! r) c_new]> sts) in *.
  assert (Hc' : forall i, c' i = Qed.coef_a (sts' !!! i)).
  { intros i. unfold c'. by rewrite Hs'. }
  assert (Hcr' : c' r = c_new).
  { rewrite Hc'. unfold sts'. by rewrite list_lookup_total_insert_eq by lia. }
  split; [by rewrite Hs' |]. split; [| split; [exact Hcr' |]].
  - intros i Hi Hir. rewrite Hc'. unfold sts'.
    rewrite list_lookup_total_insert_ne by done. rewrite Hco.
    destruct (Nat.ltb_spec i n); [| lia]. by destruct (Nat.eqb_spec i r).
  - intros a b Ha Hb. rewrite Hs'. cbn [Qed.pol Qed.set_pol Qed.rho_a Qed.set_electronic].
    rewrite edc_rho_loop. rewrite <- !Hc'.
    destruct (Nat.ltb_spec a n), (Nat.ltb_spec b n); try lia. reflexivity.
Qed.

(** The total population after [correct_dec_edc]: the decayed populations of
    the other states plus the new population of the running state. *)
Lemma edc_norm (s : Qed.SH) :
  let p := Qed.pol s in
  let r := Qed.rstate s in
  Qed.elec_object s = Qed.Coefficient ->
  length (Qed.pol_states p) = Qed.pst p -> (r < Qed.pst p)%nat ->
  let s' := Qed.correct_dec_edc s in
  Qed.norm s' = Qed.decayed_population s
                + Cnorm2 (Qed.coef_a (Qed.pol_states (Qed.pol s') !!! r)).
Proof.
  intros p r Hobj Hlen Hr s'.
  destruct (edc_shape s Hobj Hlen Hr) as (Hpst & Hco & _ & Hrho).
  fold p r s' in Hpst, Hco, Hrho.
  unfold Qed.norm. rewrite Hpst.
  assert (Hdiag : forall i, (i < Qed.pst p)%nat ->
            Cre (Qed.rho_a (Qed.pol s') i i)
            = Cnorm2 (Qed.coef_a (Qed.pol_states (Qed.pol s') !!! i))).
  { intros i Hi. rewrite Hrho by done.
    destruct (Nat.leb_spec i i); [| lia]. by rewrite Cmult_conj_self. }
  rewrite (rsum_split_at r _ (fun i => Cnorm2 (Qed.decayed s i))).
  - destruct (Nat.ltb_spec r (Qed.pst p)); [| lia].
    rewrite Hdiag by done. reflexivity.
  - intros i Hi Hir. rewrite Hdiag by done. by rewrite Hco.
Qed.

Lemma exp_below_one (x : R) : x < 0 -> 0 < exp x < 1.
Proof.
  intros Hx. split; [apply exp_pos |].
  apply Rlt_le_trans with (exp 0); [by apply exp_increasing | rewrite exp_0; lra].
Qed.

(** [correct_dec_edc] is [correct_dec_edc_at] at the quotient of
    [rho_update] by the population of the running state. *)
Lemma edc_at_quotient (s : Qed.SH) :
  Qed.correct_dec_edc s
  = Qed.correct_dec_edc_at
      (Cdiv (Qed.edc_rho_update s)
            (Qed.rho_a (Qed.pol s) (Qed.rstate s) (Qed.rstate s))) s.
Proof.
  unfold Qed.correct_dec_edc, Qed.correct_dec_edc_at, Qed.edc_rho_update.
  destruct (Qed.elec_object s); [| reflexivity].
  by destruct (foldl (Qed.edc_coef_step s) _ _) as [sts ru].
Qed.

(** What the routine computes on coefficients once the quotient has the
    value [q]. *)
Lemma edc_at_shape (q : C) (s : Qed.SH) :
  let p := Qed.pol s in
  let n := Qed.pst p in
  let r := Qed.rstate s in
  let c_r := Qed.coef_a (Qed.pol_states p !!! r) in
  Qed.elec_object s = Qed.Coefficient ->
  length (Qed.pol_states p) = n -> (r < n)%nat ->
  let s' := Qed.correct_dec_edc_at q s in
  let c' := fun i => Qed.coef_a (Qed.pol_states (Qed.pol s') !!! i) in
  Qed.pst (Qed.pol s') = n /\
  (forall i, (i < n)%nat -> i <> r -> c' i = Qed.decayed s i) /\
  c' r = Cmult c_r (Csqrt q) /\
  (forall a b, (a < n)%nat -> (b < n)%nat ->
     Qed.rho_a (Qed.pol s') a b =
     if (a <=? b)%nat then Cmult (Cconj (c' a)) (c' b)
     else Cconj (Cmult (Cconj (c' b)) (c' a))).
Proof.
  intros p n r c_r Hobj Hlen Hr s' c'.
  assert (Hs' : s' = Qed.correct_dec_edc_at q s) by reflexivity.
  unfold Qed.correct_dec_edc_at in Hs'. rewrite Hobj in Hs'. fold p n r in Hs'.
  destruct (edc_coef_loop s Hlen) as (Hl & Hen & Hco & _).
  fold p n r in Hl, Hen, Hco.
  destruct (foldl (Qed.edc_coef_step s) _ _) as [sts ru]. cbn [fst snd] in *.
  assert (Hcr_old : Qed.coef_a (sts !!! r) = c_r).
  { rewrite Hco. by rewrite Nat.eqb_refl, andb_false_r. }
  rewrite Hcr_old in Hs'.
  set (c_new := Cmult c_r (Csqrt q)) in *.
  set (sts' := <[r := Qed.set_coef (sts !!! r) c_new]> sts) in *.
  assert (Hc' : forall i, c' i = Qed.coef_a (sts' !!! i)).
  { intros i. unfold c'. by rewrite Hs'. }
  assert (Hcr' : c' r = c_new).
  { rewrite Hc'. unfold sts'. by rewrite list_lookup_total_insert_eq by lia. }
  split; [by rewrite Hs' |]. split; [| split; [exact Hcr' |]].
  - intros i Hi Hir. rewrite Hc'. unfold sts'.
    rewrite list_lookup_total_insert_ne by done. rewrite Hco.
    destruct (Nat.ltb_spec i n); [| lia]. by destruct (Nat.eqb_spec i r).
  - intros a b Ha Hb. rewrite Hs'. cbn [Qed.pol Qed.set_pol Qed.rho_a Qed.set_electronic].
    rewrite edc_rho_loop. rewrite <- !Hc'.
    destruct (Nat.ltb_spec a n), (Nat.ltb_spec b n); try lia. reflexivity.
Qed.

(** A running state whose coefficient is zero cannot be renormalised:
    whatever number the quotient is, the coefficient stays zero and the total
    population is that of the other states after their decay. *)
Lemma edc_at_unpopulated (q : C) (s : Qed.SH) :
  let p := Qed.pol s in
  let r := Qed.rstate s in
  Qed.elec_object s = Qed.Coefficient ->
  length (Qed.pol_states p) = Qed.pst p -> (r < Qed.pst p)%nat ->
  Qed.coef_a (Qed.pol_states p !!! r) = (0, 0) ->
  Qed.norm (Qed.correct_dec_edc_at q s) = Qed.decayed_population s.
Proof.
  intros p r Hobj Hlen Hr Hzero.
  destruct (edc_at_shape q s Hobj Hlen Hr) as (Hpst & Hco & Hcr & Hrho).
  fold p r in Hpst, Hco, Hcr, Hrho. rewrite Hzero in Hcr.
  set (s' := Qed.correct_dec_edc_at q s) in *.
  unfold Qed.norm. rewrite Hpst.
  assert (Hdiag : forall i, (i < Qed.pst p)%nat ->
            Cre (Qed.rho_a (Qed.pol s') i i)
            = Cnorm2 (Qed.coef_a (Qed.pol_states (Qed.pol s') !!! i))).
  { intros i Hi. rewrite Hrho by done.
    destruct (Nat.leb_spec i i); [| lia]. by rewrite Cmult_conj_self. }
  rewrite (rsum_split_at r _ (fun i => Cnorm2 (Qed.decayed s i))).
  - destruct (Nat.ltb_spec r (Qed.pst p)); [| lia].
    rewrite Hdiag, Hcr by done. unfold Qed.decayed_population. fold p r.
    destruct (Csqrt q) as [u v]. unfold Cnorm2, Cmult. cbn. lra.
  - intros i Hi Hir. rewrite Hdiag by done. by rewrite Hco.
Qed.

(** C8.  The claim fails on a running state that holds no population, where
    a forced hop through a trivial crossing can put the engine.  States 0
    and 1 with energies 0 and 1, coefficients [1] and [0], running state 1,
    time step 1, energy parameter 0.1 and QM kinetic energy 0.5, so that
    [run] calls [correct_dec_edc] and the total population is 1 before the
    call.  The routine divides [rho_update] by [rho_a[1, 1]], which is zero,
    without a guard.  Whatever number stood for that quotient, the zero
    coefficient of the running state would stay zero and the total
    population would be that of state 0 after its decay,
    [exp (- 1 / 1.2) ^ 2], and not 1: the renormalisation cannot succeed.
    (In the code the quotient is not a number, and neither are the
    coefficient of the running state and the population it leaves.) *)
Theorem C8_unpopulated_running_state_breaks_renormalisation :
  let s := Sample.qsh Augment Reverse false 1 [1] [1] 0 1 0.5 (1, 0) (0, 0) in
  let p := Qed.pol s in
  (Qed.dec_correction s = Some Qed.Edc /\ Sample.eps < Qed.ekin_qm p /\
   Qed.decoherence Sample.eps s = Qed.correct_dec_edc s) /\
  Qed.norm s = 1 /\
  Qed.rho_a p (Qed.rstate s) (Qed.rstate s) = (0, 0) /\
  forall q : C,
    Qed.norm (Qed.correct_dec_edc_at q s)
    = exp (- 1 / ((1 + 0.1 / 0.5) / Rabs (0 - 1))) ^ 2 /\
    Qed.norm (Qed.correct_dec_edc_at q s) <> 1.
Proof.
  intros s p.
  assert (Hkin : Sample.eps < Qed.ekin_qm p) by (subst p s; runR; lra).
  split; [split; [reflexivity | split; [exact Hkin |]] |].
  { unfold Qed.decoherence. change (Qed.dec_correction s) with (Some Qed.Edc).
    rewrite (proj2 (Rgtb_gt _ _)); [reflexivity | exact Hkin]. }
  split; [subst p s; runR; lra |].
  split; [subst p s; runR; f_equal; lra |].
  intros q.
  assert (Hnorm : Qed.norm (Qed.correct_dec_edc_at q s)
                  = exp (- 1 / ((1 + 0.1 / 0.5) / Rabs (0 - 1))) ^ 2).
  { rewrite (edc_at_unpopulated q s) by (subst s; cbn; (reflexivity || lia)).
    subst s. runR. replace (- (1)) with (-1) by lra. lra. }
  split; [exact Hnorm |]. rewrite Hnorm.
  assert (Habs : Rabs (0 - 1) = 1).
  { unfold Rabs. destruct (Rcase_abs (0 - 1)); lra. }
  rewrite Habs.
  assert (Hexp : 0 < exp (- 1 / ((1 + 0.1 / 0.5) / 1)) < 1).
  { split; [apply exp_pos |].
    apply Rlt_le_trans with (exp 0); [apply exp_increasing; lra | rewrite exp_0; lra]. }
  nra.
Qed.

(** *** The renormalisation on a populated running state *)

(** When the coefficient of the running state is not zero and the density
    matrix holds its population ([rho_a[r, r] = |c_r|²]), when
    [1 + C / E_kin] is not zero and the decayed populations of the other
    states sum to at most one, [correct_dec_edc] (on coefficients, with
    positive QM kinetic energy) leaves a total population of exactly one:
    every coefficient other than the running one is multiplied by
    [exp (- dt / tau_i)] with [tau_i = (1 + C / E_kin) / |E_i - E_r|], the
    running coefficient is rescaled so that its population is one minus the
    others', and the density matrix is rebuilt as the outer product of the
    coefficients. *)
Lemma edc_restores_unit_population (s : Qed.SH) :
  let p := Qed.pol s in
  let n := Qed.pst p in
  let r := Qed.rstate s in
  let c_r := Qed.coef_a (Qed.pol_states p !!! r) in
  Qed.elec_object s = Qed.Coefficient ->
  length (Qed.pol_states p) = n -> (r < n)%nat ->
  0 < Qed.ekin_qm p -> 1 + Qed.edc_parameter s / Qed.ekin_qm p <> 0 ->
  Qed.rho_a p r r = Cmult (Cconj c_r) c_r -> Cnorm2 c_r <> 0 ->
  Qed.decayed_population s <= 1 ->
  let s' := Qed.correct_dec_edc s in
  let c' := fun i => Qed.coef_a (Qed.pol_states (Qed.pol s') !!! i) in
  (forall i, (i < n)%nat -> i <> r ->
     let c := Qed.coef_a (Qed.pol_states p !!! i) in
     let tau := (1 + Qed.edc_parameter s / Qed.ekin_qm p)
                / Rabs (Qed.energy (Qed.pol_states p !!! i)
                        - Qed.energy (Qed.pol_states p !!! r)) in
     c' i = (Cre c * exp (- Qed.dt s / tau), Cim c * exp (- Qed.dt s / tau))) /\
  Cnorm2 (c' r) = 1 - Qed.decayed_population s /\
  (forall a b, (a <= b)%nat -> (b < n)%nat ->
     Qed.rho_a (Qed.pol s') a b = Cmult (Cconj (c' a)) (c' b) /\
     Qed.rho_a (Qed.pol s') b a = Cconj (Cmult (Cconj (c' a)) (c' b))) /\
  Qed.norm s' = 1.
Proof.
  intros p n r c_r Hobj Hlen Hr _ _ Hrho Hcr Hpop s' c'. subst c'. cbn beta.
  destruct (edc_shape s Hobj Hlen Hr) as (_ & Hco & Hnew & Hmat).
  fold p n r c_r s' in Hco, Hnew, Hmat.
  assert (HN : 0 < Cnorm2 c_r).
  { assert (0 <= Cnorm2 c_r) by (unfold Cnorm2; nra). lra. }
  assert (Hpop_r : Cnorm2 (Qed.coef_a (Qed.pol_states (Qed.pol s') !!! r))
                   = 1 - Qed.decayed_population s).
  { rewrite Hnew, Hrho, Cmult_conj_self, Csqrt_Cdiv_real by lra.
    rewrite Cnorm2_mult_real, pow2_sqrt.
    - field. lra.
    - apply Rmult_le_pos; [lra | apply Rlt_le, Rinv_0_lt_compat; lra]. }
  split; [| split; [exact Hpop_r | split]].
  - intros i Hi Hir c tau. rewrite Hco by done.
    unfold Qed.decayed, Qed.exp_tau. fold p r.
    destruct (Nat.eqb_spec i r); [done | reflexivity].
  - intros a b Hab Hb. split.
    + rewrite Hmat by lia. by destruct (Nat.leb_spec a b); [| lia].
    + rewrite Hmat by lia. destruct (Nat.leb_spec b a); [| done].
      assert (a = b) as -> by lia. by rewrite Cconj_outer_diag.
  - pose proof (edc_norm s Hobj Hlen Hr) as Hn. cbn zeta in Hn. fold p r s' in Hn.
    rewrite Hn, Hpop_r. lra.
Qed.

(** *** When the hypotheses of the renormalisation hold *)

(** A decay factor lies between zero and one when the time step is not
    negative and [1 + C / E_kin] is not negative.  For two states of equal
    energy the quotient by [|E_i - E_r| = 0] is taken as zero here and the
    factor is one; IEEE arithmetic reaches the same factor through an
    infinite [tau]. *)
Lemma exp_tau_bounds (s : Qed.SH) (i : nat) :
  0 <= Qed.dt s -> 0 <= 1 + Qed.edc_parameter s / Qed.ekin_qm (Qed.pol s) ->
  0 < Qed.exp_tau s i <= 1.
Proof.
  intros Hdt HT. unfold Qed.exp_tau.
  destruct (i =? Qed.rstate s)%nat; [lra |].
  set (T := 1 + Qed.edc_parameter s / Qed.ekin_qm (Qed.pol s)) in *.
  set (A := Rabs _).
  split; [apply exp_pos |].
  assert (HA : 0 <= / A).
  { destruct (Req_dec A 0) as [-> | HA0]; [rewrite Rinv_0; lra |].
    apply Rlt_le, Rinv_0_lt_compat.
    pose proof (Rabs_pos (Qed.energy (Qed.pol_states (Qed.pol s) !!! i)
                          - Qed.energy (Qed.pol_states (Qed.pol s) !!! Qed.rstate s))).
    fold A in H. lra. }
  assert (Htau : 0 <= / (T / A)).
  { destruct (Req_dec (T / A) 0) as [-> | H0]; [rewrite Rinv_0; lra |].
    apply Rlt_le, Rinv_0_lt_compat.
    assert (0 <= T / A) by (apply Rmult_le_pos; lra). lra. }
  rewrite <- exp_0. 
  destruct (Req_dec (- Qed.dt s / (T / A)) 0) as [-> | Hne]; [lra |].
  apply Rlt_le, exp_increasing.
  assert (- Qed.dt s / (T / A) <= 0).
  { unfold Rdiv at 1. replace (- Qed.dt s * / (T / A)) with (- (Qed.dt s * / (T / A))) by lra.
    assert (0 <= Qed.dt s * / (T / A)) by (apply Rmult_le_pos; lra). lra. }
  lra.
Qed.

Lemma partial_sum_le (r : nat) (g h : nat -> R) (n : nat) :
  (forall i, (i < n)%nat -> g i <= h i) -> (forall i, (i < n)%nat -> 0 <= h i) ->
  partial_sum r g n <= rsum (h <$> seq 0 n).
Proof.
  intros Hgh Hh. induction n as [|n IH].
  - unfold partial_sum, rsum. cbn. lra.
  - rewrite partial_sum_S, seq_S, fmap_app, rsum_app.
    cbn [fmap list_fmap Nat.add]. rewrite rsum_cons. change (rsum []) with 0.
    specialize (IH ltac:(intros; apply Hgh; lia) ltac:(intros; apply Hh; lia)).
    pose proof (Hgh n ltac:(lia)). pose proof (Hh n ltac:(lia)).
    destruct (n =? r)%nat; lra.
Qed.

(** With coefficients of total population at most one, a time step that is
    not negative and [1 + C / E_kin] not negative, the decayed populations
    sum to at most one, as [edc_restores_unit_population] assumes. *)
Lemma decayed_population_le_one (s : Qed.SH) :
  0 <= Qed.dt s -> 0 <= 1 + Qed.edc_parameter s / Qed.ekin_qm (Qed.pol s) ->
  rsum ((fun i => Cnorm2 (Qed.coef_a (Qed.pol_states (Qed.pol s) !!! i)))
          <$> seq 0 (Qed.pst (Qed.pol s))) <= 1 ->
  Qed.decayed_population s <= 1.
Proof.
  intros Hdt HT Hnorm. unfold Qed.decayed_population.
  eapply Rle_trans; [| exact Hnorm].
  apply partial_sum_le.
  - intros i _. unfold Qed.decayed, Cnorm2. cbn.
    destruct (exp_tau_bounds s i Hdt HT) as [He0 He1].
    set (e := Qed.exp_tau s i) in *.
    set (x := Cre _). set (y := Cim _).
    assert (e * e <= 1) by nra.
    assert (0 <= x * x) by nra. assert (0 <= y * y) by nra.
    nra.
  - intros i _. unfold Cnorm2. nra.
Qed.

(** With a QM kinetic energy of at most [eps] the energy-based correction
    is skipped and the electronic state passes through unchanged. *)
Lemma decoherence_edc_guard (eps : R) (s : Qed.SH) :
  Qed.dec_correction s = Some Qed.Edc -> Qed.ekin_qm (Qed.pol s) <= eps ->
  Qed.decoherence eps s = s.
Proof.
  intros Hdec Hkin. unfold Qed.decoherence. rewrite Hdec.
  by rewrite (proj2 (Rgtb_le _ _) Hkin).
Qed.

(** ** Instantaneous decoherence correction (src/mqc_qed/sh.py) *)

(** After [correct_dec_idc] the density matrix is the projector on the
    running state; on coefficients, the running state has coefficient one
    and every other state coefficient zero. *)
Lemma idc_projects_on_running_state (s : Qed.SH) :
  let s' := Qed.correct_dec_idc s in
  (forall a b, Qed.rho_a (Qed.pol s') a b =
     if (a =? Qed.rstate s)%nat && (b =? Qed.rstate s)%nat then (1, 0) else (0, 0)) /\
  (Qed.elec_object s = Qed.Coefficient ->
   (Qed.rstate s < length (Qed.pol_states (Qed.pol s)))%nat ->
   forall i, (i < length (Qed.pol_states (Qed.pol s)))%nat ->
     Qed.coef_a (Qed.pol_states (Qed.pol s') !!! i) =
     if (i =? Qed.rstate s)%nat then (1, 0) else (0, 0)).
Proof.
  intros s'. split; [reflexivity |].
  intros Hobj Hr i Hi. unfold s', Qed.correct_dec_idc. rewrite Hobj.
  cbn [Qed.pol Qed.set_pol Qed.pol_states Qed.set_electronic].
  destruct (Nat.eqb_spec i (Qed.rstate s)) as [-> | Hir].
  - rewrite list_lookup_total_insert_eq by (rewrite length_fmap; lia). reflexivity.
  - rewrite list_lookup_total_insert_ne by done.
    rewrite (list_lookup_total_fmap _ (Inhabited0 := Qed.PolState_inhabited)) by lia.
    reflexivity.
Qed.

(** ** A whole step of src/mqc/sh.py *)

(** After [hop_prob], [hop_check] and [evaluate_hop], a hop that was selected
    and then rejected leaves the running state, and slot 0 of the caller's
    list, at the value the running state had when the step began. *)
Lemma Mqc_step_rejected_restores (eps draw : R) (s : Mqc.SH) (bo : list nat) :
  let r2 := Mqc.hop_check draw (Mqc.hop_prob s) bo in
  let r3 := Mqc.step eps draw s bo in
  Mqc.l_hop r2.1 = true -> Mqc.l_reject r3.1 = true ->
  Mqc.rstate r3.1 = Mqc.rstate s /\ Mqc.l_hop r3.1 = false /\
  r3.2 = <[0%nat := Mqc.rstate s]> bo.
Proof.
  intros r2 r3 Hhop Hrej.
  assert (Hr3 : r3 = Mqc.evaluate_hop eps r2.1 r2.2).
  { subst r3 r2. unfold Mqc.step. by destruct (Mqc.hop_check _ _ _). }
  destruct (Mqc_hop_prob_spec s) as (_ & _ & Hh1 & _ & Hold1 & Hmol1 & _).
  destruct (Mqc_hop_prob_cumulative s) as (Hmono & _).
  rewrite <- Hmol1 in Hmono.
  destruct (Mqc_hop_check_spec draw (Mqc.hop_prob s) bo Hmono)
    as (_ & Hold2 & _ & _ & _ & _ & Hcase).
  fold r2 in Hold2, Hcase.
  rewrite Hr3 in Hrej |- *. rewrite Mqc_evaluate_l_reject in Hrej by done.
  destruct (Mqc_evaluate_rejected eps r2.1 r2.2 Hhop Hrej) as (H1 & _ & H3 & H4 & _).
  rewrite H1, H3, H4, Hold2, Hold1. do 2 (split; [done |]).
  destruct Hcase as [(i & _ & _ & _ & _ & _ & ->) | (_ & _ & _ & ->)]; [| done].
  apply list_insert_insert_eq.
Qed.

(** * Further properties of the code *)

(** ** The probability vector as a distribution *)

(** What makes a pair of vectors a hop distribution over [n] states with
    running state [r]: lengths, non-negative entries, nothing for the running
    state, the cumulative vector as prefix sums starting at zero, and a total
    of at most one. *)
Lemma distribution_of_loop (n r : nat) (g : nat -> R) (prob acc : list R) :
  (forall i, 0 <= g i) ->
  let tot := partial_sum r g n in
  (forall i, (i < n)%nat ->
     prob !!! i = let q := if (i =? r)%nat then 0 else g i in
                  if Rgtb tot 1 then q / tot else q) ->
  (forall j, (j <= n)%nat ->
     acc !!! j = if Rgtb tot 1 then partial_sum r g j / tot else partial_sum r g j) ->
  (forall i, (i < n)%nat -> 0 <= prob !!! i) /\
  ((r < n)%nat -> prob !!! r = 0) /\
  acc !!! 0%nat = 0 /\
  (forall k, (k < n)%nat -> acc !!! S k = acc !!! k + prob !!! k) /\
  acc !!! n <= 1.
Proof.
  intros Hg tot Hprob Hacc.
  assert (Htot : Rgtb tot 1 = true -> 0 < / tot).
  { intros H. apply Rgtb_gt in H. apply Rinv_0_lt_compat. lra. }
  split; [| split; [| split; [| split]]].
  - intros i Hi. rewrite Hprob by done. cbn zeta.
    assert (0 <= (if (i =? r)%nat then 0 else g i))
      by (destruct (i =? r)%nat; [lra | apply Hg]).
    destruct (Rgtb tot 1) eqn:Ht; [| done].
    apply Rmult_le_pos; [done | apply Rlt_le; auto].
  - intros Hr. rewrite Hprob by done. cbn zeta. rewrite Nat.eqb_refl.
    destruct (Rgtb tot 1); lra.
  - rewrite Hacc by lia. unfold partial_sum, rsum. cbn.
    destruct (Rgtb tot 1); lra.
  - intros k Hk. rewrite !Hacc by lia. rewrite Hprob by done. cbn zeta.
    rewrite partial_sum_S. destruct (Rgtb tot 1); lra.
  - rewrite Hacc by lia. fold tot.
    destruct (Rgtb tot 1) eqn:Ht.
    + apply Rgtb_gt in Ht. right. field. lra.
    + by apply Rgtb_le in Ht.
Qed.

Lemma Mqc_hop_prob_lengths (s : Mqc.SH) :
  length (Mqc.prob (Mqc.hop_prob s)) = Mqc.nst (Mqc.mol s) /\
  length (Mqc.acc_prob (Mqc.hop_prob s)) = S (Mqc.nst (Mqc.mol s)).
Proof.
  set (n := Mqc.nst (Mqc.mol s)). set (r := Mqc.rstate s).
  pose proof (prob_loop (Mqc.hop_prob_step (Mqc.mol s) (Mqc.dt s) r) r
                (fun k => clamp (Mqc.quotient s k)) n) as Hloop.
  cbn zeta in Hloop. unfold Mqc.hop_prob. fold n r.
  destruct (foldl _ _ _) as [[prob acc] accum]. cbn [fst snd] in Hloop.
  destruct Hloop as (Hlp & Hla & _).
  { intros prob0 acc0 accum0 k. unfold Mqc.hop_prob_step.
    destruct (negb (k =? r)%nat); reflexivity. }
  destruct (Rgtb _ 1); cbn; rewrite ?length_fmap; done.
Qed.

Lemma Mqc_hop_prob_distribution (s : Mqc.SH) :
  let n := Mqc.nst (Mqc.mol s) in
  let s' := Mqc.hop_prob s in
  length (Mqc.prob s') = n /\ length (Mqc.acc_prob s') = S n /\
  (forall i, (i < n)%nat -> 0 <= Mqc.prob s' !!! i) /\
  ((Mqc.rstate s < n)%nat -> Mqc.prob s' !!! Mqc.rstate s = 0) /\
  Mqc.acc_prob s' !!! 0%nat = 0 /\
  (forall k, (k < n)%nat ->
     Mqc.acc_prob s' !!! S k = Mqc.acc_prob s' !!! k + Mqc.prob s' !!! k) /\
  Mqc.acc_prob s' !!! n <= 1 /\
  Mqc.l_hop s' = false /\ Mqc.rstate_old s' = Mqc.rstate s /\
  Mqc.rstate s' = Mqc.rstate s.
Proof.
  intros n s'.
  destruct (Mqc_hop_prob_lengths s) as (Hlp & Hla).
  destruct (Mqc_hop_prob_spec s) as (Hprob & Hacc & Hhop & Hr & Hold & _).
  destruct (distribution_of_loop n (Mqc.rstate s) (fun k => clamp (Mqc.quotient s k))
              (Mqc.prob s') (Mqc.acc_prob s'))
    as (H1 & H2 & H3 & H4 & H5); try done.
  intros i. apply clamp_nonneg.
Qed.

(** X1.  [hop_prob] of src/mqc/sh.py, on a running state in range whose
    population [rho[r, r]] is not zero (so that every quotient is a number),
    leaves a hop distribution: [prob] has [nst] entries, none negative and
    the one of the running state zero; [acc_prob] has [nst + 1] entries,
    starts at zero, grows by [prob[k]] from entry [k] to entry [k + 1], and
    ends at a total of at most one.  The hop flag is cleared and [rstate_old]
    is set to the running state. *)
Theorem X1_hop_prob_builds_a_distribution (s : Mqc.SH) :
  let n := Mqc.nst (Mqc.mol s) in
  let s' := Mqc.hop_prob s in
  (Mqc.rstate s < n)%nat ->
  Cre (Mqc.rho (Mqc.mol s) (Mqc.rstate s) (Mqc.rstate s)) <> 0 ->
  length (Mqc.prob s') = n /\ length (Mqc.acc_prob s') = S n /\
  (forall i, (i < n)%nat -> 0 <= Mqc.prob s' !!! i) /\
  Mqc.prob s' !!! Mqc.rstate s = 0 /\
  Mqc.acc_prob s' !!! 0%nat = 0 /\
  (forall k, (k < n)%nat ->
     Mqc.acc_prob s' !!! S k = Mqc.acc_prob s' !!! k + Mqc.prob s' !!! k) /\
  Mqc.acc_prob s' !!! n <= 1 /\
  Mqc.l_hop s' = false /\ Mqc.rstate_old s' = Mqc.rstate s /\
  Mqc.rstate s' = Mqc.rstate s.
Proof.
  intros n s' Hr _.
  destruct (Mqc_hop_prob_distribution s)
    as (H1 & H2 & H3 & H4 & H5 & H6 & H7 & H8 & H9 & H10).
  fold n s' in H1, H2, H3, H4, H5, H6, H7, H8, H9, H10.
  specialize (H4 Hr). done.
Qed.

Lemma X1_witness :
  let s := Sample.with_coupling (Sample.sh Momentum Reverse false [1] [1] 0 1 0.5)
             (fun i j : nat => if (i =? j)%nat then (0.5, 0) else (- 0.5, 0))
             (fun _ _ => 1) 0.1 in
  let s' := Mqc.hop_prob s in
  length (Mqc.prob s') = 2%nat /\ length (Mqc.acc_prob s') = 3%nat /\
  (forall i, (i < 2)%nat -> 0 <= Mqc.prob s' !!! i) /\
  Mqc.prob s' !!! 0%nat = 0 /\
  Mqc.acc_prob s' !!! 0%nat = 0 /\
  (forall k, (k < 2)%nat ->
     Mqc.acc_prob s' !!! S k = Mqc.acc_prob s' !!! k + Mqc.prob s' !!! k) /\
  Mqc.acc_prob s' !!! 2%nat <= 1 /\
  Mqc.l_hop s' = false /\ Mqc.rstate_old s' = 0%nat /\
  Mqc.rstate s' = 0%nat.
Proof.
  apply (X1_hop_prob_builds_a_distribution
           (Sample.with_coupling (Sample.sh Momentum Reverse false [1] [1] 0 1 0.5)
              (fun i j : nat => if (i =? j)%nat then (0.5, 0) else (- 0.5, 0))
              (fun _ _ => 1) 0.1)).
  - cbn. lia.
  - cbn. lra.
Defined.

Lemma Qed_hop_prob_lengths (qed : Qed.QED) (s : Qed.SH) :
  length (Qed.prob (Qed.hop_prob qed s)) = Qed.pst (Qed.pol s) /\
  length (Qed.acc_prob (Qed.hop_prob qed s)) = S (Qed.pst (Qed.pol s)).
Proof.
  set (n := Qed.pst (Qed.pol s)). set (r := Qed.rstate s).
  set (g := fun k =>
    if Qed.l_trivial qed
    then (if (k =? Qed.trivial_state qed)%nat then 1 else 0)
    else clamp (Qed.quotient qed s k)).
  set (step := fun st k =>
         if Qed.l_trivial qed
         then Qed.hop_prob_trivial_step (Qed.trivial_state qed) r st k
         else Qed.hop_prob_step (Qed.pol s)
                (Qed.matmul n (Qed.transpose (Qed.unitary qed))
                   (Qed.matmul n (Qed.ham_d qed) (Qed.unitary qed)))
                (Qed.dt s) r st k).
  pose proof (prob_loop step r g n) as Hloop. cbn zeta in Hloop.
  unfold Qed.hop_prob. fold n r.
  assert (Hfold : (if negb (Qed.l_trivial qed)
                   then foldl (Qed.hop_prob_step (Qed.pol s)
                          (Qed.matmul n (Qed.transpose (Qed.unitary qed))
                             (Qed.matmul n (Qed.ham_d qed) (Qed.unitary qed)))
                          (Qed.dt s) r)
                          (replicate n 0, replicate (S n) 0, 0) (seq 0 n)
                   else foldl (Qed.hop_prob_trivial_step (Qed.trivial_state qed) r)
                          (replicate n 0, replicate (S n) 0, 0) (seq 0 n))
                  = foldl step (replicate n 0, replicate (S n) 0, 0) (seq 0 n)).
  { subst step. destruct (Qed.l_trivial qed); reflexivity. }
  rewrite Hfold. clear Hfold.
  destruct (foldl step _ _) as [[prob acc] accum]. cbn [fst snd] in Hloop.
  destruct Hloop as (Hlp & Hla & _).
  { intros prob0 acc0 accum0 k. subst step g. cbn beta.
    unfold Qed.hop_prob_trivial_step, Qed.hop_prob_step, Qed.quotient, clamp.
    fold n r. destruct (Qed.l_trivial qed), (negb (k =? r)%nat); reflexivity. }
  destruct (Rgtb _ 1); cbn; rewrite ?length_fmap; done.
Qed.

Lemma Qed_hop_prob_distribution (qed : Qed.QED) (s : Qed.SH) :
  let n := Qed.pst (Qed.pol s) in
  let s' := Qed.hop_prob qed s in
  length (Qed.prob s') = n /\ length (Qed.acc_prob s') = S n /\
  (forall i, (i < n)%nat -> 0 <= Qed.prob s' !!! i) /\
  ((Qed.rstate s < n)%nat -> Qed.prob s' !!! Qed.rstate s = 0) /\
  Qed.acc_prob s' !!! 0%nat = 0 /\
  (forall k, (k < n)%nat ->
     Qed.acc_prob s' !!! S k = Qed.acc_prob s' !!! k + Qed.prob s' !!! k) /\
  Qed.acc_prob s' !!! n <= 1 /\
  Qed.l_hop s' = false /\ Qed.rstate_old s' = Qed.rstate s /\
  Qed.rstate s' = Qed.rstate s.
Proof.
  intros n s'.
  destruct (Qed_hop_prob_lengths qed s) as (Hlp & Hla).
  destruct (Qed_hop_prob_spec qed s) as (Hprob & Hacc & Hhop & Hr & Hold & _).
  destruct (distribution_of_loop n (Qed.rstate s)
              (fun k => if Qed.l_trivial qed
                        then (if (k =? Qed.trivial_state qed)%nat then 1 else 0)
                        else clamp (Qed.quotient qed s k))
              (Qed.prob s') (Qed.acc_prob s'))
    as (H1 & H2 & H3 & H4 & H5); try done.
  intros i. destruct (Qed.l_trivial qed); [destruct (_ =? _)%nat; lra | apply clamp_nonneg].
Qed.

(** X2.  [hop_prob] of src/mqc_qed/sh.py leaves a hop distribution as well,
    on a running state in range, under a flagged trivial crossing or else
    with a population [rho_a[r, r]] of the running state that is not zero
    (so that every quotient is a number). *)
Theorem X2_cavity_hop_prob_builds_a_distribution (qed : Qed.QED) (s : Qed.SH) :
  let n := Qed.pst (Qed.pol s) in
  let s' := Qed.hop_prob qed s in
  (Qed.rstate s < n)%nat ->
  Qed.l_trivial qed = true
  \/ Cre (Qed.rho_a (Qed.pol s) (Qed.rstate s) (Qed.rstate s)) <> 0 ->
  length (Qed.prob s') = n /\ length (Qed.acc_prob s') = S n /\
  (forall i, (i < n)%nat -> 0 <= Qed.prob s' !!! i) /\
  Qed.prob s' !!! Qed.rstate s = 0 /\
  Qed.acc_prob s' !!! 0%nat = 0 /\
  (forall k, (k < n)%nat ->
     Qed.acc_prob s' !!! S k = Qed.acc_prob s' !!! k + Qed.prob s' !!! k) /\
  Qed.acc_prob s' !!! n <= 1 /\
  Qed.l_hop s' = false /\ Qed.rstate_old s' = Qed.rstate s /\
  Qed.rstate s' = Qed.rstate s.
Proof.
  intros n s' Hr _.
  destruct (Qed_hop_prob_distribution qed s)
    as (H1 & H2 & H3 & H4 & H5 & H6 & H7 & H8 & H9 & H10).
  fold n s' in H1, H2, H3, H4, H5, H6, H7, H8, H9, H10.
  specialize (H4 Hr). done.
Qed.

Lemma X2_witness :
  let qed := Sample.qed false 0 in
  let s := Sample.qsh Augment Reverse false 0 [1] [1] 0 1 0.5 (0.6, 0) (0.8, 0) in
  let s' := Qed.hop_prob qed s in
  length (Qed.prob s') = 2%nat /\ length (Qed.acc_prob s') = 3%nat /\
  (forall i, (i < 2)%nat -> 0 <= Qed.prob s' !!! i) /\
  Qed.prob s' !!! 0%nat = 0 /\
  Qed.acc_prob s' !!! 0%nat = 0 /\
  (forall k, (k < 2)%nat ->
     Qed.acc_prob s' !!! S k = Qed.acc_prob s' !!! k + Qed.prob s' !!! k) /\
  Qed.acc_prob s' !!! 2%nat <= 1 /\
  Qed.l_hop s' = false /\ Qed.rstate_old s' = 0%nat /\
  Qed.rstate s' = 0%nat.
Proof.
  apply (X2_cavity_hop_prob_builds_a_distribution (Sample.qed false 0)
           (Sample.qsh Augment Reverse false 0 [1] [1] 0 1 0.5 (0.6, 0) (0.8, 0))).
  - cbn. lia.
  - right. runR. lra.
Defined.

(** ** Selection after [hop_prob] *)

(** X3.  When [hop_check], run on what [hop_prob] has built, raises the hop
    flag, the state it selected is a state of the system other than the
    one that was running, its probability is positive, the draw lies in its
    interval and between 0, excluded, and the total probability, and the
    state has been written into slot 0 of the caller's list.  So a candidate
    of probability zero is never selected, and no hop is selected by a draw
    above the total. *)
Theorem X3_selected_state_has_positive_probability
    (draw : R) (s : Mqc.SH) (bo_list : list nat) :
  let s1 := Mqc.hop_prob s in
  let r2 := Mqc.hop_check draw s1 bo_list in
  Mqc.l_hop r2.1 = true ->
  let i := Mqc.rstate r2.1 in
  (i < Mqc.nst (Mqc.mol s))%nat /\ i <> Mqc.rstate s /\
  0 < Mqc.prob s1 !!! i /\
  Mqc.acc_prob s1 !!! i < draw <= Mqc.acc_prob s1 !!! S i /\
  0 < draw <= Mqc.acc_prob s1 !!! Mqc.nst (Mqc.mol s) /\
  Mqc.acc_prob s1 !!! Mqc.nst (Mqc.mol s) <= 1 /\
  r2.2 = <[0%nat := i]> bo_list.
Proof.
  intros s1 r2 Hhop i.
  destruct (Mqc_hop_prob_spec s) as (_ & _ & Hh1 & Hr1 & _ & Hmol1 & _).
  fold s1 in Hh1, Hr1, Hmol1.
  destruct (Mqc_hop_prob_cumulative s) as (Hmono & Hzero & Htot). fold s1 in Hmono, Hzero, Htot.
  destruct (Mqc_hop_prob_distribution s) as (_ & _ & _ & _ & _ & Hstep & _).
  fold s1 in Hstep.
  set (n := Mqc.nst (Mqc.mol s)) in *.
  assert (Hmono' : nondecreasing (Mqc.nst (Mqc.mol s1)) (Mqc.acc_prob s1))
    by (by rewrite Hmol1).
  destruct (Mqc_hop_check_spec draw s1 bo_list Hmono') as (_ & _ & _ & _ & _ & _ & Hcase).
  fold r2 in Hcase. rewrite Hmol1, Hr1 in Hcase. fold n in Hcase.
  destruct Hcase as [(k & Hk & Hkne & Hhit & Hrk & _ & Hbo) | (_ & _ & Hsame & _)];
    [| congruence].
  subst i. rewrite Hrk. destruct Hhit as [Hlo Hhi].
  pose proof (Hmono 0%nat k ltac:(lia)) as H0k.
  pose proof (Hmono (S k) n ltac:(lia)) as Hkn.
  pose proof (Hstep k Hk) as Hpk.
  repeat split; try done; lra.
Qed.

Lemma X3_witness :
  let s := Sample.with_coupling (Sample.sh Momentum Reverse false [1] [1] 0 1 0.5)
             (fun i j : nat => if (i =? j)%nat then (0.5, 0) else (- 0.5, 0))
             (fun _ _ => 1) 0.1 in
  let s1 := Mqc.hop_prob s in
  let r2 := Mqc.hop_check 0.1 s1 [0%nat] in
  let i := Mqc.rstate r2.1 in
  (i < 2)%nat /\ i <> 0%nat /\ 0 < Mqc.prob s1 !!! i /\
  Mqc.acc_prob s1 !!! i < 0.1 <= Mqc.acc_prob s1 !!! S i /\
  0 < 0.1 <= Mqc.acc_prob s1 !!! 2%nat /\
  Mqc.acc_prob s1 !!! 2%nat <= 1 /\
  r2.2 = <[0%nat := i]> [0%nat].
Proof.
  apply (X3_selected_state_has_positive_probability 0.1
           (Sample.with_coupling (Sample.sh Momentum Reverse false [1] [1] 0 1 0.5)
              (fun i j : nat => if (i =? j)%nat then (0.5, 0) else (- 0.5, 0))
              (fun _ _ => 1) 0.1) [0%nat]).
  runR. rdecide. runR. rdecide. reflexivity.
Defined.

(** ** What [evaluate_hop] leaves alone *)

(** The event log only grows. *)
Ltac event_tail :=
  first [ by (exists []; rewrite app_nil_r)
        | by (eexists; rewrite <- ?app_assoc; reflexivity) ].

Lemma Mqc_evaluate_frame (eps : R) (s : Mqc.SH) (bo : list nat) :
  let r := Mqc.evaluate_hop eps s bo in
  let m := Mqc.mol s in
  let m' := Mqc.mol r.1 in
  (Mqc.nst m' = Mqc.nst m /\ Mqc.nat_qm m' = Mqc.nat_qm m /\
   Mqc.mass m' = Mqc.mass m /\ Mqc.nac m' = Mqc.nac m /\
   Mqc.nacme m' = Mqc.nacme m /\ Mqc.rho m' = Mqc.rho m /\
   Mqc.states m' = Mqc.states m) /\
  (Mqc.dt r.1 = Mqc.dt s /\ Mqc.rstate_old r.1 = Mqc.rstate_old s /\
   Mqc.rand r.1 = Mqc.rand s /\ Mqc.prob r.1 = Mqc.prob s /\
   Mqc.acc_prob r.1 = Mqc.acc_prob s /\
   Mqc.vel_rescale r.1 = Mqc.vel_rescale s /\
   Mqc.vel_reject r.1 = Mqc.vel_reject s) /\
  length r.2 = length bo /\
  (exists tail, Mqc.event r.1 = Mqc.event s ++ tail).
Proof.
  unfold Mqc.evaluate_hop.
  destruct (Mqc.l_hop s).
  2: { destruct (negb _); cbn; repeat split; try done; event_tail. }
  destruct (Mqc.quadratic s) as [[a b] det].
  destruct (Mqc.decide_reject _ _ _ _ _).
  - destruct (Rltb _ _), (Mqc.vel_reject s); cbn; rewrite Nat.eqb_refl; cbn;
      rewrite ?length_insert; repeat split; try done; event_tail.
  - rewrite andb_false_r. cbn [negb].
    destruct (is_energy _ || _); [destruct (Rltb det 0) |];
      cbn; destruct (_ =? _)%nat; cbn; repeat split; try done; event_tail.
Qed.


(** ** A whole step of src/mqc/sh.py, continued *)

Lemma Mqc_step_unfold (eps draw : R) (s : Mqc.SH) (bo : list nat) :
  Mqc.step eps draw s bo
  = Mqc.evaluate_hop eps (Mqc.hop_check draw (Mqc.hop_prob s) bo).1
                         (Mqc.hop_check draw (Mqc.hop_prob s) bo).2.
Proof. unfold Mqc.step. by destruct (Mqc.hop_check _ _ _). Qed.

(** The three outcomes of a step: nothing selected, a hop selected and
    rejected, a hop selected and accepted. *)
Lemma Mqc_step_cases (eps draw : R) (s : Mqc.SH) (bo : list nat) :
  let r2 := Mqc.hop_check draw (Mqc.hop_prob s) bo in
  let r := Mqc.step eps draw s bo in
  Mqc.rstate_old r2.1 = Mqc.rstate s /\
  ((Mqc.l_hop r2.1 = false /\ r = r2 /\ Mqc.rstate r.1 = Mqc.rstate s /\ r.2 = bo) \/
   (exists k, (k < Mqc.nst (Mqc.mol s))%nat /\ k <> Mqc.rstate s /\
      Mqc.l_hop r2.1 = true /\ Mqc.rstate r2.1 = k /\
      ((Mqc.rejects eps r2.1 = true /\ Mqc.l_reject r.1 = true /\
        Mqc.l_hop r.1 = false /\ Mqc.rstate r.1 = Mqc.rstate s /\
        r.2 = <[0%nat := Mqc.rstate s]> bo) \/
       (Mqc.rejects eps r2.1 = false /\ Mqc.l_reject r.1 = false /\
        Mqc.l_hop r.1 = true /\ Mqc.rstate r.1 = k /\
        r.2 = <[0%nat := k]> bo)))).
Proof.
  intros r2 r.
  assert (Hr : r = Mqc.evaluate_hop eps r2.1 r2.2) by apply Mqc_step_unfold.
  destruct (Mqc_hop_prob_spec s) as (_ & _ & Hh1 & Hr1 & Hold1 & Hmol1 & _).
  destruct (Mqc_hop_prob_cumulative s) as (Hmono & _).
  rewrite <- Hmol1 in Hmono.
  destruct (Mqc_hop_check_spec draw (Mqc.hop_prob s) bo Hmono)
    as (_ & Hold2 & _ & _ & _ & _ & Hcase).
  fold r2 in Hold2, Hcase. rewrite Hmol1, Hr1 in Hcase.
  split; [congruence |].
  destruct Hcase as [(k & Hk & Hkne & _ & Hrk & Hhk & Hbo) | (_ & Hsame & Hh & Hbo)].
  - right. exists k. do 4 (split; [done |]).
    pose proof (Mqc_evaluate_l_reject eps r2.1 r2.2 Hhk) as Hrej. rewrite <- Hr in Hrej.
    destruct (Mqc.rejects eps r2.1) eqn:Hrj.
    + left. destruct (Mqc_evaluate_rejected eps r2.1 r2.2 Hhk Hrj) as (H1 & _ & H3 & H4 & _).
      rewrite <- Hr in H1, H3, H4.
      repeat split; try done; [congruence |].
      rewrite H4, Hbo, Hold2, Hold1. apply list_insert_insert_eq.
    + right. pose proof (Mqc_evaluate_accepted eps r2.1 r2.2 Hhk Hrj) as Hacc.
      rewrite <- Hr in Hacc. destruct (Mqc.quadratic r2.1) as [[a b] det].
      cbn zeta in Hacc. destruct Hacc as (H1 & _ & H3 & H4 & _).
      repeat split; try done; congruence.
  - left. rewrite Hh1 in Hh.
    assert (Hidle : Mqc.evaluate_hop eps r2.1 r2.2 = (r2.1, r2.2))
      by (apply Mqc_evaluate_idle; congruence).
    rewrite Hidle in Hr. split; [done |].
    split; [rewrite Hr; by destruct r2 |].
    rewrite Hr. cbn. done.
Qed.

(** X5.  A step of src/mqc/sh.py ([hop_prob], [hop_check], [evaluate_hop])
    that starts with the running state in range and recorded in slot 0 of the
    caller's list ends the same way: the running state is a state of the
    system, slot 0 of the list holds it, and the list keeps its length.
    [rstate_old] holds the state the step started from; the hop flag is
    raised exactly when the running state has changed, and then the reject
    flag is down. *)
Theorem X5_step_keeps_running_state_consistent
    (eps draw : R) (s : Mqc.SH) (bo_list : list nat) :
  (Mqc.rstate s < Mqc.nst (Mqc.mol s))%nat ->
  bo_list !! 0%nat = Some (Mqc.rstate s) ->
  let r := Mqc.step eps draw s bo_list in
  (Mqc.rstate r.1 < Mqc.nst (Mqc.mol r.1))%nat /\
  Mqc.rstate_old r.1 = Mqc.rstate s /\
  (Mqc.l_hop r.1 = true <-> Mqc.rstate r.1 <> Mqc.rstate s) /\
  (Mqc.l_hop r.1 = true -> Mqc.l_reject r.1 = false) /\
  r.2 !! 0%nat = Some (Mqc.rstate r.1) /\ length r.2 = length bo_list.
Proof.
  intros Hrange Hbo r.
  destruct (Mqc_step_cases eps draw s bo_list) as (Hold2 & Hcases). fold r in Hcases.
  set (r2 := Mqc.hop_check draw (Mqc.hop_prob s) bo_list) in *.
  assert (Hr : r = Mqc.evaluate_hop eps r2.1 r2.2) by apply Mqc_step_unfold.
  destruct (Mqc_evaluate_frame eps r2.1 r2.2) as ((Hnst & _) & (_ & Hold3 & _) & _).
  rewrite <- Hr in Hnst, Hold3.
  destruct (Mqc_hop_prob_spec s) as (_ & _ & _ & _ & _ & Hmol1 & _).
  assert (Hmol2 : Mqc.mol r2.1 = Mqc.mol s).
  { subst r2. unfold Mqc.hop_check. destruct (foldl _ _ _) as [[? ?] ?]. cbn. done. }
  assert (Hlen0 : (0 < length bo_list)%nat) by (destruct bo_list; [done | cbn; lia]).
  rewrite Hnst, Hmol2, Hold3, Hold2.
  destruct Hcases as [(Hh & Heq & Hrs & Hb) | (k & Hk & Hkne & _ & _ & [Hrej | Hacc])].
  - rewrite Hrs, Hb. repeat split; try done.
    + rewrite Heq, Hh. done.
    + rewrite Heq, Hh. done.
  - destruct Hrej as (_ & _ & Hh & Hrs & Hb). rewrite Hrs, Hb, Hh, length_insert.
    repeat split; try done. by apply list_lookup_insert_eq.
  - destruct Hacc as (_ & Hj & Hh & Hrs & Hb). rewrite Hrs, Hb, Hh, Hj, length_insert.
    repeat split; try done. by apply list_lookup_insert_eq.
Qed.

Lemma X5_witness :
  let s := Sample.with_coupling (Sample.sh Momentum Reverse false [1] [1] 0 1 0.5)
             (fun i j : nat => if (i =? j)%nat then (0.5, 0) else (- 0.5, 0))
             (fun _ _ => 1) 0.1 in
  let r := Mqc.step Sample.eps 0.1 s [0%nat] in
  (Mqc.rstate r.1 < Mqc.nst (Mqc.mol r.1))%nat /\
  Mqc.rstate_old r.1 = 0%nat /\
  (Mqc.l_hop r.1 = true <-> Mqc.rstate r.1 <> 0%nat) /\
  (Mqc.l_hop r.1 = true -> Mqc.l_reject r.1 = false) /\
  r.2 !! 0%nat = Some (Mqc.rstate r.1) /\ length r.2 = 1%nat.
Proof.
  apply (X5_step_keeps_running_state_consistent Sample.eps 0.1
           (Sample.with_coupling (Sample.sh Momentum Reverse false [1] [1] 0 1 0.5)
              (fun i j : nat => if (i =? j)%nat then (0.5, 0) else (- 0.5, 0))
              (fun _ _ => 1) 0.1) [0%nat]); [cbn; lia | reflexivity].
Defined.

(** ** Energy bookkeeping, continued *)

(** X6.  In src/mqc/sh.py an accepted hop conserves the energy of the QM
    region in the modes that solve the quadratic, "velocity" and "momentum"
    always and "augment" when the discriminant is positive: the kinetic
    energy of the QM atoms after the hop plus the energy of the new state
    equals their kinetic energy before it plus the energy of the old state.
    This needs arrays of the shapes numpy demands, a coupling vector that
    vanishes outside the QM region, non-zero masses and [a <> 0]. *)
Theorem X6_quadratic_hop_conserves_energy (eps : R) (s : Mqc.SH) (bo_list : list nat) :
  let m := Mqc.mol s in
  let n := Mqc.nat_qm m in
  let d := Mqc.nac m (Mqc.rstate_old s) (Mqc.rstate s) in
  Mqc.l_hop s = true -> Mqc.rejects eps s = false ->
  (Mqc.vel_rescale s = Velocity \/ Mqc.vel_rescale s = Momentum \/
   (Mqc.vel_rescale s = Augment /\ (Mqc.quadratic s).2 > 0)) ->
  (Mqc.quadratic s).1.1 <> 0 ->
  same_rows d (Mqc.vel m) -> length (Mqc.mass m) = length (Mqc.vel m) ->
  zero_rows (drop n d) -> Forall (fun y => y <> 0) (Mqc.mass m) ->
  let r := Mqc.evaluate_hop eps s bo_list in
  Mqc.ekin_qm (Mqc.mol r.1) + Mqc.energy (Mqc.states (Mqc.mol r.1) !!! Mqc.rstate r.1)
  = kinetic (take n (Mqc.mass m)) (take n (Mqc.vel m))
    + Mqc.energy (Mqc.states m !!! Mqc.rstate_old s).
Proof. exact (Mqc_hop_conserves_energy eps s bo_list). Qed.

Lemma X6_witness :
  let s := Sample.sh Velocity Reverse true [1] [1] 0 0.25 0.5 in
  let r := Mqc.evaluate_hop Sample.eps s [1%nat] in
  Mqc.ekin_qm (Mqc.mol r.1) + Mqc.energy (Mqc.states (Mqc.mol r.1) !!! Mqc.rstate r.1)
  = kinetic (take 1 [1]) (take 1 [[1]]) + 0.
Proof.
  apply (X6_quadratic_hop_conserves_energy Sample.eps
           (Sample.sh Velocity Reverse true [1] [1] 0 0.25 0.5) [1%nat]);
    try reflexivity.
  - runR. rdecide. reflexivity.
  - by left.
  - runR. lra.
  - cbn. repeat constructor.
  - cbn. constructor.
  - cbn. repeat constructor. lra.
Defined.

(** X7.  The same conservation in src/mqc_qed/sh.py, when no trivial crossing
    is flagged; there the sums [a] and [b] run over the QM region, so the
    coupling vector needs one row for each QM atom and nothing is asked of
    the other atoms. *)
Theorem X7_cavity_quadratic_hop_conserves_energy
    (eps : R) (qed : Qed.QED) (s : Qed.SH) (pol_list : list nat) :
  let p := Qed.pol s in
  let n := Qed.nat_qm p in
  let d := Qed.pnac p (Qed.rstate_old s) (Qed.rstate s) in
  Qed.l_hop s = true -> Qed.l_trivial qed = false -> Qed.rejects eps s = false ->
  (Qed.hop_rescale s = Velocity \/ Qed.hop_rescale s = Momentum \/
   (Qed.hop_rescale s = Augment /\ (Qed.quadratic s).2 > 0)) ->
  (Qed.quadratic s).1.1 <> 0 ->
  same_rows d (take n (Qed.vel p)) -> length (Qed.mass p) = length (Qed.vel p) ->
  Forall (fun y => y <> 0) (Qed.mass p) ->
  let r := Qed.evaluate_hop eps qed s pol_list in
  Qed.ekin_qm (Qed.pol r.1)
  + Qed.energy (Qed.pol_states (Qed.pol r.1) !!! Qed.rstate r.1)
  = kinetic (take n (Qed.mass p)) (take n (Qed.vel p))
    + Qed.energy (Qed.pol_states p !!! Qed.rstate_old s).
Proof. exact (Qed_hop_conserves_energy eps qed s pol_list). Qed.

Lemma X7_witness :
  let s := Sample.qsh Augment Reverse true 1 [1] [1] 0 0.25 0.5 (1, 0) (0, 0) in
  let r := Qed.evaluate_hop Sample.eps (Sample.qed false 0) s [1%nat] in
  Qed.ekin_qm (Qed.pol r.1)
  + Qed.energy (Qed.pol_states (Qed.pol r.1) !!! Qed.rstate r.1)
  = kinetic (take 1 [1]) (take 1 [[1]]) + 0.
Proof.
  apply (X7_cavity_quadratic_hop_conserves_energy Sample.eps (Sample.qed false 0)
           (Sample.qsh Augment Reverse true 1 [1] [1] 0 0.25 0.5 (1, 0) (0, 0))
           [1%nat]);
    try reflexivity.
  - runR. rdecide. reflexivity.
  - right; right. split; [reflexivity | runR; lra].
  - runR. lra.
  - cbn. repeat constructor.
  - cbn. repeat constructor. lra.
Defined.

(** The molecule after a rejected hop: under "reverse" the velocity block
    runs with [x = - b / a] and with the coupling vector read at
    [nac[rstate_old, rstate]] after [rstate] has been put back. *)
Lemma Mqc_evaluate_rejected_mol (eps : R) (s : Mqc.SH) (bo : list nat) :
  Mqc.l_hop s = true -> Mqc.rejects eps s = true ->
  let r := Mqc.evaluate_hop eps s bo in
  let m := Mqc.mol s in
  let '(a, b, det) := Mqc.quadratic s in
  Mqc.mol r.1 =
    Mqc.update_kinetic (Mqc.set_vel m
      match Mqc.vel_reject s with
      | Keep => Mqc.vel m
      | Reverse =>
          Mqc.rescale_vel m (Mqc.vel_rescale s)
            (Mqc.nac m (Mqc.rstate_old s) (Mqc.rstate_old s))
            (- b / a) det (Mqc.pot_diff s)
      end).
Proof.
  intros Hhop Hrej. unfold Mqc.evaluate_hop. unfold Mqc.rejects in Hrej. rewrite Hhop.
  destruct (Mqc.quadratic s) as [[a b] det]. cbn [snd] in Hrej. rewrite Hrej.
  destruct (Rltb _ _), (Mqc.vel_reject s); cbn; rewrite Nat.eqb_refl; reflexivity.
Qed.

Lemma length_arr_scale (x : R) (v : list vec) : length (arr_scale x v) = length v.
Proof. unfold arr_scale. apply length_fmap. Qed.

(** An accepted hop that rescales isotropically conserves the energy of the
    QM region and multiplies the QM velocities by one factor. *)
Lemma Mqc_isotropic_hop_conserves_energy (eps : R) (s : Mqc.SH) (bo_list : list nat) :
  let m := Mqc.mol s in
  let n := Mqc.nat_qm m in
  Mqc.l_hop s = true -> Mqc.rejects eps s = false ->
  (Mqc.vel_rescale s = Energy \/
   (Mqc.vel_rescale s = Augment /\ (Mqc.quadratic s).2 < 0)) ->
  Mqc.ekin_qm m = kinetic (take n (Mqc.mass m)) (take n (Mqc.vel m)) ->
  0 < Mqc.ekin_qm m ->
  let r := Mqc.evaluate_hop eps s bo_list in
  Mqc.ekin_qm (Mqc.mol r.1) + Mqc.energy (Mqc.states (Mqc.mol r.1) !!! Mqc.rstate r.1)
  = Mqc.ekin_qm m + Mqc.energy (Mqc.states m !!! Mqc.rstate_old s) /\
  Mqc.vel (Mqc.mol r.1)
  = arr_scale (sqrt (1 - Mqc.pot_diff s / Mqc.ekin_qm m)) (take n (Mqc.vel m))
    ++ drop n (Mqc.vel m).
Proof.
  intros m n Hhop Hacc Hmode Hkin Hpos r.
  pose proof (Mqc_evaluate_accepted eps s bo_list Hhop Hacc) as Hev. fold r in Hev.
  assert (Hle : Mqc.pot_diff s <= Mqc.ekin_qm m).
  { unfold Mqc.rejects, Mqc.decide_reject in Hacc. fold m in Hacc.
    destruct (Rltb (Mqc.ekin_qm m) (Mqc.pot_diff s)) eqn:Hlt; [| by apply Rltb_ge in Hlt].
    destruct Hmode as [Hv | [Hv Hneg]]; rewrite Hv in Hacc; cbn [is_energy is_augment andb] in Hacc.
    - by destruct (Rltb _ 0).
    - rewrite (Rltb_true _ _ Hneg) in Hacc.
      destruct (Rgtb _ _) eqn:Hgt; [apply Rgtb_gt in Hgt; lra | done]. }
  assert (Hene : Mqc.vel_rescale s = Energy -> (Mqc.quadratic s).2 = 1)
    by (intros Hv; unfold Mqc.quadratic; by rewrite Hv).
  destruct (Mqc.quadratic s) as [[a b] det]. cbn [fst snd] in *. cbn zeta in Hev.
  destruct Hev as (Hr & _ & _ & _ & _ & Hmol).
  assert (Hsimple : is_energy (Mqc.vel_rescale s)
                    || (Rltb det 0 && is_augment (Mqc.vel_rescale s)) = true).
  { destruct Hmode as [Hv | [Hv Hneg]]; rewrite Hv; [done |].
    by rewrite (Rltb_true _ _ Hneg). }
  rewrite Hsimple in Hmol. fold m in Hmol.
  set (x := sqrt (1 - Mqc.pot_diff s / Mqc.ekin_qm m)) in *.
  assert (Hvel : Mqc.rescale_vel m (Mqc.vel_rescale s)
                   (Mqc.nac m (Mqc.rstate_old s) (Mqc.rstate s)) x det (Mqc.pot_diff s)
                 = assign_head n (arr_scale x (take n (Mqc.vel m))) (Mqc.vel m)).
  { destruct Hmode as [Hv | [Hv Hneg]]; rewrite Hv; cbn [Mqc.rescale_vel]; [done |].
    fold n. rewrite (proj2 (Rgtb_le det 0)) by lra.
    by rewrite (proj2 (Rltb_ge (Mqc.ekin_qm m) (Mqc.pot_diff s))) by lra. }
  rewrite Hvel in Hmol. rewrite Hmol, Hr.
  cbn [Mqc.update_kinetic Mqc.set_vel Mqc.ekin_qm Mqc.states Mqc.nat_qm Mqc.mass Mqc.vel].
  fold n. split; [| reflexivity].
  rewrite take_assign_head by (by rewrite length_arr_scale).
  rewrite kinetic_scale, <- Hkin.
  assert (Hx : x ^ 2 = 1 - Mqc.pot_diff s / Mqc.ekin_qm m).
  { subst x. apply pow2_sqrt.
    assert (Mqc.pot_diff s / Mqc.ekin_qm m <= 1).
    { apply Rmult_le_reg_r with (Mqc.ekin_qm m); [done |]. field_simplify; lra. }
    lra. }
  rewrite Hx. unfold Mqc.pot_diff. fold m. field. lra.
Qed.

(** X8.  In src/mqc/sh.py an accepted hop that rescales isotropically, in
    "energy" mode or in "augment" mode with a negative discriminant,
    conserves the energy of the QM region, provided the stored QM kinetic
    energy is positive and is the kinetic energy of the QM velocities. *)
Theorem X8_isotropic_hop_conserves_energy (eps : R) (s : Mqc.SH) (bo_list : list nat) :
  let m := Mqc.mol s in
  let n := Mqc.nat_qm m in
  Mqc.l_hop s = true -> Mqc.rejects eps s = false ->
  (Mqc.vel_rescale s = Energy \/
   (Mqc.vel_rescale s = Augment /\ (Mqc.quadratic s).2 < 0)) ->
  Mqc.ekin_qm m = kinetic (take n (Mqc.mass m)) (take n (Mqc.vel m)) ->
  0 < Mqc.ekin_qm m ->
  let r := Mqc.evaluate_hop eps s bo_list in
  Mqc.ekin_qm (Mqc.mol r.1) + Mqc.energy (Mqc.states (Mqc.mol r.1) !!! Mqc.rstate r.1)
  = Mqc.ekin_qm m + Mqc.energy (Mqc.states m !!! Mqc.rstate_old s) /\
  Mqc.vel (Mqc.mol r.1)
  = arr_scale (sqrt (1 - Mqc.pot_diff s / Mqc.ekin_qm m)) (take n (Mqc.vel m))
    ++ drop n (Mqc.vel m).
Proof. exact (Mqc_isotropic_hop_conserves_energy eps s bo_list). Qed.

Lemma X8_witness :
  let s := Sample.sh Energy Reverse true [1] [1] 0 0.25 0.5 in
  let r := Mqc.evaluate_hop Sample.eps s [1%nat] in
  Mqc.ekin_qm (Mqc.mol r.1) + Mqc.energy (Mqc.states (Mqc.mol r.1) !!! Mqc.rstate r.1)
  = 0.5 + 0 /\
  Mqc.vel (Mqc.mol r.1) = arr_scale (sqrt (1 - Mqc.pot_diff s / 0.5)) (take 1 [[1]]) ++ [].
Proof.
  apply (X8_isotropic_hop_conserves_energy Sample.eps
           (Sample.sh Energy Reverse true [1] [1] 0 0.25 0.5) [1%nat]).
  - reflexivity.
  - runR. rdecide. reflexivity.
  - by left.
  - runR. lra.
  - runR. lra.
Defined.







(** Adding a multiple of a row of zeros changes nothing. *)
Lemma row_add_zeros (g : R -> R) (vr dr : vec) :
  g 0 = 0 -> Forall (fun y => y = 0) dr -> length dr = length vr ->
  zip_with Rplus vr (g <$> dr) = vr.
Proof.
  intros Hg Hd. revert vr.
  induction Hd as [|y dr -> _ IH]; intros [|z vr] Hlen; try done.
  rewrite fmap_cons, zip_with_cc, Hg. f_equal; [lra |].
  apply IH. by injection Hlen.
Qed.

Lemma arr_add_scale_zeros (x : R) (d v : list vec) :
  zero_rows d -> same_rows d v -> arr_add v (arr_scale x d) = v.
Proof.
  unfold arr_add, arr_scale. intros Hz Hrows.
  induction Hrows as [|dr vr d v Hlen _ IH]; [done |].
  inversion Hz as [|? ? Hrow Hrest]; subst.
  rewrite fmap_cons, zip_with_cc. f_equal; [| by apply IH].
  apply row_add_zeros; [lra | done | done].
Qed.

Lemma arr_add_div_zeros (x : R) (d v : list vec) (mq : list R) :
  zero_rows d -> same_rows d v -> length mq = length v ->
  arr_add v (arr_div_col (arr_scale x d) mq) = v.
Proof.
  unfold arr_add, arr_div_col, arr_scale. intros Hz Hrows. revert mq.
  induction Hrows as [|dr vr d v Hlen _ IH]; intros [|y mq] Hm; try done.
  inversion Hz as [|? ? Hrow Hrest]; subst.
  rewrite fmap_cons, !zip_with_cc. f_equal.
  - rewrite <- list_fmap_compose. apply row_add_zeros; [| done | done].
    unfold compose. unfold Rdiv. lra.
  - apply IH; [done |]. by injection Hm.
Qed.

(** X10.  In src/mqc/sh.py a hop rejected under "reverse" in "energy" mode
    runs the velocity block with [x = - b / a = -1]: the velocities of the
    QM region change sign, their kinetic energy stays, and the engine is back
    on the state it ran on. *)
Theorem X10_energy_mode_reverse_negates_velocities (eps : R) (s : Mqc.SH)
    (bo_list : list nat) :
  let m := Mqc.mol s in
  let n := Mqc.nat_qm m in
  Mqc.l_hop s = true -> Mqc.rejects eps s = true ->
  Mqc.vel_rescale s = Energy -> Mqc.vel_reject s = Reverse ->
  let r := Mqc.evaluate_hop eps s bo_list in
  Mqc.vel (Mqc.mol r.1) = arr_scale (-1) (take n (Mqc.vel m)) ++ drop n (Mqc.vel m) /\
  Mqc.ekin_qm (Mqc.mol r.1) = kinetic (take n (Mqc.mass m)) (take n (Mqc.vel m)) /\
  Mqc.rstate r.1 = Mqc.rstate_old s /\ Mqc.l_hop r.1 = false.
Proof.
  intros m n Hhop Hrej Hresc Hkeep r.
  pose proof (Mqc_evaluate_rejected_mol eps s bo_list Hhop Hrej) as Hmol.
  destruct (Mqc_evaluate_rejected eps s bo_list Hhop Hrej) as (Hr & _ & Hl & _).
  fold r in Hmol, Hr, Hl. cbn zeta in Hmol.
  unfold Mqc.quadratic in Hmol. rewrite Hresc, Hkeep in Hmol.
  cbn [Mqc.rescale_vel] in Hmol. fold m n in Hmol.
  match type of Hmol with
  | context [arr_scale ?x _] => replace x with (-1) in Hmol by lra
  end.
  rewrite Hmol.
  cbn [Mqc.update_kinetic Mqc.set_vel Mqc.ekin_qm Mqc.vel Mqc.nat_qm Mqc.mass].
  fold n. split; [reflexivity |]. split; [| by split].
  rewrite take_assign_head by (by rewrite length_arr_scale).
  rewrite kinetic_scale. lra.
Qed.

Lemma X10_witness :
  let s := Sample.sh Energy Reverse true [1] [1] 0 1 0.5 in
  let r := Mqc.evaluate_hop Sample.eps s [1%nat] in
  Mqc.vel (Mqc.mol r.1) = arr_scale (-1) (take 1 [[1]]) ++ [] /\
  Mqc.ekin_qm (Mqc.mol r.1) = kinetic (take 1 [1]) (take 1 [[1]]) /\
  Mqc.rstate r.1 = 0%nat /\ Mqc.l_hop r.1 = false.
Proof.
  apply (X10_energy_mode_reverse_negates_velocities Sample.eps
           (Sample.sh Energy Reverse true [1] [1] 0 1 0.5) [1%nat]).
  - reflexivity.
  - runR. rdecide. reflexivity.
  - reflexivity.
  - reflexivity.
Defined.

(** X11.  In src/mqc/sh.py a hop rejected under "reverse" in "velocity" or
    "momentum" mode puts [rstate] back before the velocity block runs, so the
    block reads the coupling vector [nac[rstate_old, rstate_old]] of the
    running state with itself, not the one towards the refused state.  When
    that diagonal block is zero, and the factor [x = - b / a] is a number
    ([a] is not zero, no mass is zero), the velocities are not reversed: they
    are left as they were. *)
Theorem X11_reverse_rejection_reads_diagonal_coupling (eps : R) (s : Mqc.SH)
    (bo_list : list nat) :
  let m := Mqc.mol s in
  let n := Mqc.nat_qm m in
  let d0 := Mqc.nac m (Mqc.rstate_old s) (Mqc.rstate_old s) in
  Mqc.l_hop s = true -> Mqc.rejects eps s = true ->
  Mqc.vel_reject s = Reverse ->
  Mqc.vel_rescale s = Velocity \/ Mqc.vel_rescale s = Momentum ->
  same_rows d0 (Mqc.vel m) -> length (Mqc.mass m) = length (Mqc.vel m) ->
  zero_rows d0 ->
  (Mqc.quadratic s).1.1 <> 0 -> Forall (fun y => y <> 0) (Mqc.mass m) ->
  let r := Mqc.evaluate_hop eps s bo_list in
  Mqc.vel (Mqc.mol r.1) = Mqc.vel m /\
  In ev_reject_reverse (Mqc.event r.1).
Proof.
  intros m n d0 Hhop Hrej Hkeep Hresc Hrows Hlen Hz _ _ r.
  pose proof (Mqc_evaluate_rejected_mol eps s bo_list Hhop Hrej) as Hmol.
  destruct (Mqc_evaluate_rejected eps s bo_list Hhop Hrej) as (_ & _ & _ & _ & Hev & _).
  fold r in Hmol, Hev. cbn zeta in Hmol.
  destruct (Mqc.quadratic s) as [[a b] det].
  rewrite Hkeep in Hmol, Hev. fold m d0 in Hmol.
  split.
  - rewrite Hmol. cbn [Mqc.update_kinetic Mqc.set_vel Mqc.vel].
    assert (Hzt : zero_rows (take n d0)) by (by apply Forall_take).
    pose proof (same_rows_take n _ _ Hrows) as Ht.
    destruct Hresc as [-> | ->]; cbn [Mqc.rescale_vel]; fold n; unfold assign_head.
    + rewrite arr_add_scale_zeros by done. apply take_drop.
    + rewrite arr_add_div_zeros by (rewrite ?length_take; first [done | lia]).
      apply take_drop.
  - rewrite Hev. rewrite !in_app_iff. right. right. by left.
Qed.

Lemma X11_witness :
  let s := Sample.sh Velocity Reverse true [1] [1] 0 1 0.5 in
  let r := Mqc.evaluate_hop Sample.eps s [1%nat] in
  Mqc.vel (Mqc.mol r.1) = [[1]] /\ In ev_reject_reverse (Mqc.event r.1).
Proof.
  apply (X11_reverse_rejection_reads_diagonal_coupling Sample.eps
           (Sample.sh Velocity Reverse true [1] [1] 0 1 0.5) [1%nat]).
  - reflexivity.
  - runR. rdecide. reflexivity.
  - reflexivity.
  - by left.
  - repeat constructor.
  - reflexivity.
  - repeat constructor.
  - runR. lra.
  - repeat constructor. lra.
Defined.

(** X12.  In src/mqc/sh.py the constructor raises no [ValueError] exactly
    when [vel_rescale] is one of the four rescaling names, [vel_reject] one of
    the two rejection names and, if the molecule has no analytical coupling
    vectors ([mol.l_nacme]), the two are "energy" and "keep". *)
Theorem X12_init_accepts_exactly_the_valid_configurations
    (md_type call_name : string) (m : Mqc.Mol) (l_nacme : bool) (istate : nat)
    (dt : R) (vel_rescale vel_reject : string) :
  (exists s, Mqc.init md_type call_name m l_nacme istate dt vel_rescale vel_reject
             = inr s)
  <-> In vel_rescale ["energy"; "velocity"; "momentum"; "augment"]
      /\ In vel_reject ["keep"; "reverse"]
      /\ (l_nacme = false \/ (vel_rescale = "energy" /\ vel_reject = "keep")).
Proof.
  unfold Mqc.init, Mqc.rescale_of_name, Mqc.reject_of_name. split.
  - intros [s Hs].
    destruct (String.eqb_spec vel_rescale "energy") as [-> |];
      [| destruct (String.eqb_spec vel_rescale "velocity") as [-> |];
         [| destruct (String.eqb_spec vel_rescale "momentum") as [-> |];
            [| destruct (String.eqb_spec vel_rescale "augment") as [-> |];
               [| discriminate]]]];
      (destruct (String.eqb_spec vel_reject "keep") as [-> |];
         [| destruct (String.eqb_spec vel_reject "reverse") as [-> |];
            [| discriminate]]);
      destruct l_nacme; cbn in Hs; try discriminate;
      (split; [cbn; tauto | split; [cbn; tauto | tauto]]).
  - intros (Hr & Hj & Hn). cbn [In] in Hr, Hj.
    destruct Hr as [<- | [<- | [<- | [<- | []]]]];
      destruct Hj as [<- | [<- | []]];
      destruct l_nacme; cbn;
      try (eexists; reflexivity);
      destruct Hn as [Hn | [Hn1 Hn2]]; discriminate.
Qed.

(** X13.  In src/mqc/sh.py an engine that the constructor returns runs on
    [istate] with no hop pending, zero probability vectors of lengths [nst]
    and [nst + 1] and an empty event list; it holds the two names it was
    given, and without analytical coupling vectors it is in "energy" mode
    with "keep". *)
Theorem X13_init_builds_a_resting_engine
    (md_type call_name : string) (m : Mqc.Mol) (l_nacme : bool) (istate : nat)
    (dt : R) (vel_rescale vel_reject : string) (s : Mqc.SH) :
  Mqc.init md_type call_name m l_nacme istate dt vel_rescale vel_reject = inr s ->
  Mqc.name_of_rescale (Mqc.vel_rescale s) = vel_rescale /\
  Mqc.name_of_reject (Mqc.vel_reject s) = vel_reject /\
  (Mqc.mol s = m /\ Mqc.dt s = dt) /\
  (Mqc.rstate s = istate /\ Mqc.rstate_old s = istate) /\
  (Mqc.l_hop s = false /\ Mqc.l_reject s = false /\ Mqc.event s = []) /\
  (Mqc.prob s = replicate (Mqc.nst m) 0 /\
   Mqc.acc_prob s = replicate (S (Mqc.nst m)) 0) /\
  (if l_nacme
   then Mqc.vel_rescale s = Energy /\ Mqc.vel_reject s = Keep
   else True).
Proof.
  unfold Mqc.init, Mqc.rescale_of_name, Mqc.reject_of_name. intros Hs.
  destruct (String.eqb_spec vel_rescale "energy") as [-> |];
    [| destruct (String.eqb_spec vel_rescale "velocity") as [-> |];
       [| destruct (String.eqb_spec vel_rescale "momentum") as [-> |];
          [| destruct (String.eqb_spec vel_rescale "augment") as [-> |];
             [| discriminate]]]];
    (destruct (String.eqb_spec vel_reject "keep") as [-> |];
       [| destruct (String.eqb_spec vel_reject "reverse") as [-> |];
          [| discriminate]]);
    destruct l_nacme; cbn in Hs; try discriminate;
    injection Hs as <-; cbn; tauto.
Qed.

Lemma X13_witness :
  let m := Sample.mol [1] [1] 0 0.25 0.5 in
  let s := Sample.sh Energy Keep false [1] [1] 0 0.25 0.5 in
  Mqc.name_of_rescale (Mqc.vel_rescale s) = "energy" /\
  Mqc.name_of_reject (Mqc.vel_reject s) = "keep" /\
  (Mqc.mol s = m /\ Mqc.dt s = 1) /\
  (Mqc.rstate s = 0%nat /\ Mqc.rstate_old s = 0%nat) /\
  (Mqc.l_hop s = false /\ Mqc.l_reject s = false /\ Mqc.event s = []) /\
  (Mqc.prob s = replicate (Mqc.nst m) 0 /\
   Mqc.acc_prob s = replicate (S (Mqc.nst m)) 0) /\
  (Mqc.vel_rescale s = Energy /\ Mqc.vel_reject s = Keep).
Proof.
  apply (X13_init_builds_a_resting_engine "SH" "__init__"
           (Sample.mol [1] [1] 0 0.25 0.5) true 0 1 "energy" "keep"
           (Sample.sh Energy Keep false [1] [1] 0 0.25 0.5)).
  reflexivity.
Defined.

(** In "energy" mode [evaluate_hop] does not read [mol.nac]. *)
Lemma Mqc_evaluate_energy_ignores_nac (eps : R) (s : Mqc.SH) (bo : list nat)
    (d : nat -> nat -> list vec) :
  Mqc.vel_rescale s = Energy ->
  Mqc.evaluate_hop eps (Mqc.set_mol s (Mqc.set_nac (Mqc.mol s) d)) bo
  = let r := Mqc.evaluate_hop eps s bo in
    (Mqc.set_mol r.1 (Mqc.set_nac (Mqc.mol r.1) d), r.2).
Proof.
  intros Hresc. destruct s as [m dt0 r ro rnd pr acc lh lr resc rej ev].
  cbn in Hresc. subst resc.
  unfold Mqc.evaluate_hop, Mqc.quadratic, Mqc.pot_diff, Mqc.set_mol.
  cbn [Mqc.mol Mqc.dt Mqc.rstate Mqc.rstate_old Mqc.rand Mqc.prob Mqc.acc_prob
       Mqc.l_hop Mqc.l_reject Mqc.vel_rescale Mqc.vel_reject Mqc.event
       Mqc.set_nac Mqc.states Mqc.ekin_qm Mqc.vel is_energy orb].
  destruct lh; cbn [fst snd].
  - destruct (Mqc.decide_reject eps Energy (Mqc.ekin_qm m) _ 1);
      destruct rej; cbn [is_keep andb negb Mqc.rescale_vel Mqc.set_nac Mqc.nat_qm
                         Mqc.vel Mqc.rstate Mqc.rstate_old fst snd];
      repeat match goal with
             | |- context [if ?c then _ else _] => destruct c
             end; reflexivity.
  - cbn. destruct (r =? ro)%nat; reflexivity.
Qed.

(** X14.  In src/mqc/sh.py an engine in "energy" mode never reads the
    coupling vectors [mol.nac]: a whole step, run on a molecule with other
    coupling vectors, does the same to the engine and to [bo_list]. *)
Theorem X14_energy_mode_never_reads_nac (eps draw : R) (s : Mqc.SH)
    (bo_list : list nat) (d : nat -> nat -> list vec) :
  Mqc.vel_rescale s = Energy ->
  Mqc.step eps draw (Mqc.set_mol s (Mqc.set_nac (Mqc.mol s) d)) bo_list
  = let r := Mqc.step eps draw s bo_list in
    (Mqc.set_mol r.1 (Mqc.set_nac (Mqc.mol r.1) d), r.2).
Proof.
  intros Hresc. rewrite !Mqc_step_unfold.
  assert (Hprob : Mqc.hop_prob (Mqc.set_mol s (Mqc.set_nac (Mqc.mol s) d))
                  = Mqc.set_mol (Mqc.hop_prob s) (Mqc.set_nac (Mqc.mol (Mqc.hop_prob s)) d)).
  { unfold Mqc.hop_prob, Mqc.set_mol.
    cbn [Mqc.mol Mqc.dt Mqc.rstate Mqc.set_nac Mqc.nst].
    change (Mqc.hop_prob_step (Mqc.set_nac (Mqc.mol s) d))
      with (Mqc.hop_prob_step (Mqc.mol s)).
    destruct (foldl _ _ _) as [[pr acc] c].
    destruct (Rgtb _ 1); reflexivity. }
  rewrite Hprob. clear Hprob.
  assert (Hresc' : Mqc.vel_rescale (Mqc.hop_prob s) = Energy).
  { rewrite <- Hresc. unfold Mqc.hop_prob.
    destruct (foldl _ _ _) as [[pr acc] c]. by destruct (Rgtb _ 1). }
  generalize dependent (Mqc.hop_prob s). clear s Hresc. intros s Hresc.
  assert (Hcheck : Mqc.hop_check draw (Mqc.set_mol s (Mqc.set_nac (Mqc.mol s) d)) bo_list
                   = let c := Mqc.hop_check draw s bo_list in
                     (Mqc.set_mol c.1 (Mqc.set_nac (Mqc.mol c.1) d), c.2)).
  { unfold Mqc.hop_check, Mqc.set_mol.
    cbn [Mqc.mol Mqc.acc_prob Mqc.l_hop Mqc.rstate Mqc.set_nac Mqc.nst].
    destruct (foldl _ _ _) as [[lh r] bo]. reflexivity. }
  rewrite Hcheck. cbn zeta. cbn [fst snd].
  assert (Hresc' : Mqc.vel_rescale (Mqc.hop_check draw s bo_list).1 = Energy).
  { rewrite <- Hresc. unfold Mqc.hop_check.
    by destruct (foldl _ _ _) as [[lh r] bo]. }
  destruct (Mqc.hop_check draw s bo_list) as [s2 bo2]. cbn [fst snd] in *.
  exact (Mqc_evaluate_energy_ignores_nac eps s2 bo2 d Hresc').
Qed.

Lemma X14_witness :
  let s := Sample.sh Energy Keep false [1] [1] 0 0.25 0.5 in
  let d := fun _ _ : nat => [[2]] in
  Mqc.step Sample.eps 0.5 (Mqc.set_mol s (Mqc.set_nac (Mqc.mol s) d)) [0%nat]
  = let r := Mqc.step Sample.eps 0.5 s [0%nat] in
    (Mqc.set_mol r.1 (Mqc.set_nac (Mqc.mol r.1) d), r.2).
Proof.
  apply (X14_energy_mode_never_reads_nac Sample.eps 0.5
           (Sample.sh Energy Keep false [1] [1] 0 0.25 0.5) [0%nat]
           (fun _ _ : nat => [[2]])).
  reflexivity.
Defined.

(** ** Decoherence corrections (src/mqc_qed/sh.py) *)

Lemma partial_sum_zero (r n : nat) : partial_sum r (fun _ => 0) n = 0.
Proof.
  induction n as [|n IH]; [reflexivity |].
  rewrite partial_sum_S, IH. destruct (n =? r)%nat; lra.
Qed.

(** X15.  In src/mqc_qed/sh.py [correct_dec_idc] collapses the electronic
    state onto the running state: the total population it leaves is one, and
    a second call changes nothing more. *)
Theorem X15_idc_collapses_onto_running_state (s : Qed.SH) :
  length (Qed.pol_states (Qed.pol s)) = Qed.pst (Qed.pol s) ->
  (Qed.rstate s < Qed.pst (Qed.pol s))%nat ->
  let s' := Qed.correct_dec_idc s in
  Qed.norm s' = 1 /\ Qed.correct_dec_idc s' = s' /\
  length (Qed.pol_states (Qed.pol s')) = Qed.pst (Qed.pol s).
Proof.
  intros Hlen Hr s'. split; [| split].
  - unfold Qed.norm.
    rewrite (rsum_split_at (Qed.rstate s) _ (fun _ => 0)).
    + rewrite partial_sum_zero. subst s'. unfold Qed.correct_dec_idc.
      cbn [Qed.pol Qed.set_pol Qed.set_electronic Qed.pst Qed.rho_a Qed.rstate].
      destruct (Nat.ltb_spec (Qed.rstate s) (Qed.pst (Qed.pol s))); [| lia].
      unfold Qed.upd2. rewrite Nat.eqb_refl. cbn. lra.
    + intros i _ Hi. subst s'. unfold Qed.correct_dec_idc.
      cbn [Qed.pol Qed.set_pol Qed.set_electronic Qed.rho_a].
      unfold Qed.upd2. destruct (Nat.eqb_spec i (Qed.rstate s)); [done |]. reflexivity.
  - subst s'. unfold Qed.correct_dec_idc.
    cbn [Qed.pol Qed.set_pol Qed.set_electronic Qed.pst Qed.rho_a Qed.rstate
         Qed.elec_object Qed.pol_states Qed.nat_qm Qed.mass Qed.vel Qed.pnac
         Qed.pnacme Qed.ekin Qed.ekin_qm Qed.dt Qed.rstate_old Qed.rand Qed.prob
         Qed.acc_prob Qed.l_hop Qed.l_reject Qed.hop_rescale Qed.hop_reject
         Qed.dec_correction Qed.edc_parameter Qed.event].
    destruct (Qed.elec_object s); [| reflexivity].
    do 2 f_equal.
    set (z := fun st : Qed.PolState => Qed.set_coef st (0, 0)).
    set (M := z <$> Qed.pol_states (Qed.pol s)).
    assert (HM : (Qed.rstate s < length M)%nat) by (subst M; rewrite length_fmap; lia).
    rewrite list_fmap_insert.
    assert (Hzz : z <$> M = M).
    { subst M. rewrite <- list_fmap_compose. by apply list_fmap_ext. }
    rewrite Hzz, list_lookup_total_insert_eq by done.
    rewrite list_insert_insert_eq. reflexivity.
  - subst s'. unfold Qed.correct_dec_idc.
    cbn [Qed.pol Qed.set_pol Qed.set_electronic Qed.pol_states].
    destruct (Qed.elec_object s); [| done].
    by rewrite length_insert, length_fmap.
Qed.

Lemma X15_witness :
  let s := Sample.qsh Energy Keep false 1 [1] [1] 0 0.25 0.5 (0.6, 0) (0.8, 0) in
  let s' := Qed.correct_dec_idc s in
  Qed.norm s' = 1 /\ Qed.correct_dec_idc s' = s' /\
  length (Qed.pol_states (Qed.pol s')) = 2%nat.
Proof.
  apply (X15_idc_collapses_onto_running_state
           (Sample.qsh Energy Keep false 1 [1] [1] 0 0.25 0.5 (0.6, 0) (0.8, 0))).
  - reflexivity.
  - cbn. lia.
Defined.

Lemma Cconj_involutive (c : C) : Cconj (Cconj c) = c.
Proof. destruct c as [x y]. unfold Cconj. cbn. f_equal. lra. Qed.

(** X16.  In src/mqc_qed/sh.py [correct_dec_edc], on coefficients, leaves a
    Hermitian density matrix, and the population of every state other than
    the running one is the old population of its coefficient times the
    square of its decay factor, which does not exceed the old one.  This is
    for a time step that is not negative, a QM kinetic energy that is not
    zero, [1 + C / E_kin] positive and a running state whose population
    [rho_a[r, r]] is not zero, so that every quotient of the routine is a
    number.  (For a state of the same energy as the running one the decay
    factor is one, here as in the code, where [tau] is infinite.) *)
Theorem X16_edc_damps_the_other_states (s : Qed.SH) :
  let p := Qed.pol s in
  let n := Qed.pst p in
  let r := Qed.rstate s in
  Qed.elec_object s = Qed.Coefficient ->
  length (Qed.pol_states p) = n -> (r < n)%nat ->
  0 <= Qed.dt s -> Qed.ekin_qm p <> 0 ->
  0 < 1 + Qed.edc_parameter s / Qed.ekin_qm p ->
  Qed.rho_a p r r <> (0, 0) ->
  let s' := Qed.correct_dec_edc s in
  (forall a b, (a < n)%nat -> (b < n)%nat ->
     Qed.rho_a (Qed.pol s') b a = Cconj (Qed.rho_a (Qed.pol s') a b)) /\
  (forall i, (i < n)%nat -> i <> r ->
     Qed.rho_a (Qed.pol s') i i
     = (Cnorm2 (Qed.coef_a (Qed.pol_states p !!! i)) * Qed.exp_tau s i ^ 2, 0) /\
     Cre (Qed.rho_a (Qed.pol s') i i) <= Cnorm2 (Qed.coef_a (Qed.pol_states p !!! i))).
Proof.
  intros p n r Hobj Hlen Hr Hdt _ HT0 _ s'.
  assert (HT : 0 <= 1 + Qed.edc_parameter s / Qed.ekin_qm p) by lra.
  destruct (edc_shape s Hobj Hlen Hr) as (_ & Hco & _ & Hrho).
  fold p n r s' in Hco, Hrho. split.
  - intros a b Ha Hb. rewrite (Hrho a b), (Hrho b a) by done.
    destruct (Nat.leb_spec a b), (Nat.leb_spec b a); try lia.
    + assert (a = b) as -> by lia. by rewrite Cconj_outer_diag.
    + reflexivity.
    + by rewrite Cconj_involutive.
  - intros i Hi Hir. rewrite Hrho by done.
    destruct (Nat.leb_spec i i); [| lia].
    rewrite Cmult_conj_self, Hco by done.
    destruct (exp_tau_bounds s i Hdt HT) as [He0 He1].
    unfold Qed.decayed, Cnorm2. cbn [Cre Cim fst snd]. fold p.
    set (e := Qed.exp_tau s i) in *.
    set (x := Cre _). set (y := Cim _).
    split; [f_equal; ring |].
    assert (e * e <= 1) by nra.
    assert (0 <= x * x) by nra. assert (0 <= y * y) by nra.
    nra.
Qed.

Lemma X16_witness :
  let s := Sample.qsh Energy Keep false 0 [1] [1] 0 0.25 0.5 (0.6, 0) (0.8, 0) in
  let s' := Qed.correct_dec_edc s in
  (forall a b, (a < 2)%nat -> (b < 2)%nat ->
     Qed.rho_a (Qed.pol s') b a = Cconj (Qed.rho_a (Qed.pol s') a b)) /\
  (forall i, (i < 2)%nat -> i <> 0%nat ->
     Qed.rho_a (Qed.pol s') i i
     = (Cnorm2 (Qed.coef_a (Qed.pol_states (Qed.pol s) !!! i)) * Qed.exp_tau s i ^ 2, 0) /\
     Cre (Qed.rho_a (Qed.pol s') i i)
     <= Cnorm2 (Qed.coef_a (Qed.pol_states (Qed.pol s) !!! i))).
Proof.
  apply (X16_edc_damps_the_other_states
           (Sample.qsh Energy Keep false 0 [1] [1] 0 0.25 0.5 (0.6, 0) (0.8, 0))).
  - reflexivity.
  - reflexivity.
  - cbn. lia.
  - cbn. lra.
  - cbn. lra.
  - cbn. lra.
  - runR. intros H. injection H as H _. lra.
Defined.

(** A step of the cavity engine that selects no hop passes the engine
    through [evaluate_hop] with its rejection flag untouched. *)
Lemma Qed_step_idle (eps draw : R) (qed : Qed.QED) (s : Qed.SH) (pl : list nat) :
  let r2 := Qed.hop_check draw (Qed.hop_prob qed s) pl in
  let r := Qed.step eps qed draw s pl in
  Qed.l_hop r2.1 = false ->
  Qed.l_hop r.1 = false /\ Qed.l_reject r.1 = Qed.l_reject s /\
  Qed.dec_correction r.1 = Qed.dec_correction s /\
  Qed.rstate r.1 = Qed.rstate r2.1 /\ Qed.pol r.1 = Qed.pol s.
Proof.
  intros r2 r Hhop.
  assert (Hr : r = Qed.evaluate_hop eps qed r2.1 r2.2).
  { subst r r2. unfold Qed.step. by destruct (Qed.hop_check _ _ _). }
  assert (H2 : Qed.l_reject r2.1 = Qed.l_reject s /\
               Qed.dec_correction r2.1 = Qed.dec_correction s /\
               Qed.pol r2.1 = Qed.pol s).
  { subst r2. unfold Qed.hop_check.
    destruct (foldl _ _ _) as [[lh rs] bo]. cbn [fst Qed.l_reject Qed.dec_correction Qed.pol].
    unfold Qed.hop_prob.
    destruct (if negb (Qed.l_trivial qed) then _ else _) as [[pr acc] c].
    by destruct (Rgtb _ 1). }
  destruct H2 as (Hrej & Hdec & Hpol).
  rewrite Hr. unfold Qed.evaluate_hop. rewrite Hhop.
  destruct (negb (_ =? _)%nat); cbn; by rewrite ?Hhop, ?Hrej, ?Hdec, ?Hpol.
Qed.

(** X17.  In src/mqc_qed/sh.py [l_reject] is written only while a selected
    hop is evaluated, so after a frustrated hop it stays set through every
    later step that selects no hop; under "idc" the decoherence block of
    [run] then collapses the electronic state again at each such step. *)
Theorem X17_stale_reject_flag_triggers_idc (eps draw : R) (qed : Qed.QED)
    (s : Qed.SH) (pol_list : list nat) :
  let r2 := Qed.hop_check draw (Qed.hop_prob qed s) pol_list in
  let r := Qed.step eps qed draw s pol_list in
  Qed.l_hop r2.1 = false ->
  Qed.dec_correction s = Some Qed.Idc -> Qed.l_reject s = true ->
  Qed.l_hop r.1 = false /\ Qed.l_reject r.1 = true /\
  Qed.decoherence eps r.1 = Qed.correct_dec_idc r.1.
Proof.
  intros r2 r Hhop Hdec Hrej.
  destruct (Qed_step_idle eps draw qed s pol_list Hhop) as (Hl & Hj & Hd & _).
  fold r in Hl, Hj, Hd. rewrite Hj, Hrej. do 2 (split; [done |]).
  unfold Qed.decoherence. rewrite Hd, Hdec, Hl, Hj, Hrej. reflexivity.
Qed.

Lemma X17_witness :
  let s := Sample.with_flags
             (Sample.qsh Energy Keep false 0 [1] [1] 0 0.25 0.5 (1, 0) (0, 0))
             (Some Qed.Idc) true in
  let r := Qed.step Sample.eps (Sample.qed false 0) 0.5 s [0%nat] in
  Qed.l_hop r.1 = false /\ Qed.l_reject r.1 = true /\
  Qed.decoherence Sample.eps r.1 = Qed.correct_dec_idc r.1.
Proof.
  apply (X17_stale_reject_flag_triggers_idc Sample.eps 0.5 (Sample.qed false 0)
           (Sample.with_flags
              (Sample.qsh Energy Keep false 0 [1] [1] 0 0.25 0.5 (1, 0) (0, 0))
              (Some Qed.Idc) true) [0%nat]).
  - runR. rdecide. reflexivity.
  - reflexivity.
  - reflexivity.
Defined.

(** ** Trivial crossings in the two cavity engines *)

(** A step of the surface-hopping engine under a crossing flagged towards
    another state of the system. *)
Lemma Qed_step_trivial_hop (eps : R) (qed : Qed.QED) (s : Qed.SH)
    (pl : list nat) (draw : R) :
  Qed.l_trivial qed = true ->
  (Qed.trivial_state qed < Qed.pst (Qed.pol s))%nat ->
  Qed.trivial_state qed <> Qed.rstate s ->
  0 < draw <= 1 ->
  let t := Qed.trivial_state qed in
  let r := Qed.step eps qed draw s pl in
  Qed.rstate r.1 = t /\ Qed.rstate_old r.1 = Qed.rstate s /\
  Qed.l_hop r.1 = true /\ r.2 = <[0%nat := t]> pl /\
  Qed.pol r.1 = Qed.pol s /\
  Qed.event r.1 = Qed.event s ++ [ev_trivial (Qed.rstate s) t].
Proof.
  intros Htriv Ht Htr Hdraw t r.
  set (s1 := Qed.hop_prob qed s).
  set (r2 := Qed.hop_check draw s1 pl).
  assert (Hstep : r = Qed.evaluate_hop eps qed r2.1 r2.2).
  { subst r r2 s1. unfold Qed.step. by destruct (Qed.hop_check _ _ _). }
  destruct (Qed_hop_prob_trivial qed s Htriv Ht Htr) as (_ & Hacc).
  fold t s1 in Hacc.
  destruct (Qed_hop_prob_spec qed s)
    as (_ & _ & _ & Hr1 & Hold1 & Hpol1 & Hev1 & _).
  fold s1 in Hr1, Hold1, Hpol1, Hev1.
  set (n := Qed.pst (Qed.pol s)) in *.
  assert (Hmono : nondecreasing n (Qed.acc_prob s1)).
  { intros i j [Hij Hj]. rewrite !Hacc by lia.
    destruct (Nat.ltb_spec t i), (Nat.ltb_spec t j); try lra; lia. }
  assert (Hhit : hits (Qed.acc_prob s1) draw t).
  { unfold hits. rewrite !Hacc by lia.
    destruct (Nat.ltb_spec t t), (Nat.ltb_spec t (S t)); try lia. lra. }
  assert (Hmono' : nondecreasing (Qed.pst (Qed.pol s1)) (Qed.acc_prob s1))
    by (by rewrite Hpol1).
  destruct (Qed_hop_check_spec draw s1 pl Hmono')
    as (Hp & Ho & He & _ & _ & _ & Hcase).
  fold r2 in Hp, Ho, He, Hcase. rewrite Hpol1 in Hcase. fold n in Hcase.
  rewrite Hr1 in Hcase.
  destruct (Qed_evaluate_trivial eps qed r2.1 r2.2 Htriv)
    as (Hp3 & Hr3 & Ho3 & Hh3 & _ & Hl3 & He3).
  rewrite <- Hstep in Hp3, Hr3, Ho3, Hh3, Hl3, He3.
  destruct Hcase as [(i & Hi & Hine & Hhiti & Hri & Hhi & Hli) | (Hnone & _)].
  - assert (Hit : i = t)
      by exact (hits_unique n (Qed.acc_prob s1) draw i t Hmono Hi Ht Hhiti Hhit).
    rewrite Hit in Hri, Hli.
    rewrite Hr3, Ho3, Hh3, Hl3, Hp3, He3, Hri, Hhi, Hli, Ho, Hold1, Hp, Hpol1, He, Hev1.
    repeat split; try done.
    destruct (Nat.eqb_spec t (Qed.rstate s)); [subst t; congruence | done].
  - exfalso. by apply (Hnone t).
Qed.

(** The prefix sums of the indicator of a state that is the running state
    itself, or lies beyond the states of the system, are all zero. *)
Lemma partial_sum_indicator_void (r t n j : nat) :
  t = r \/ (n <= t)%nat -> (j <= n)%nat ->
  partial_sum r (fun k => if (k =? t)%nat then 1 else 0) j = 0.
Proof.
  intros Ht Hj. induction j as [|j IH]; [reflexivity |].
  rewrite partial_sum_S, IH by lia.
  destruct (Nat.eqb_spec j r); [lra |].
  destruct (Nat.eqb_spec j t); [lia | lra].
Qed.

(** A step of the surface-hopping engine under a crossing flagged towards
    the running state itself, or towards no state of the system. *)
Lemma Qed_step_trivial_void (eps : R) (qed : Qed.QED) (s : Qed.SH)
    (pl : list nat) (draw : R) :
  Qed.l_trivial qed = true ->
  Qed.trivial_state qed = Qed.rstate s
  \/ (Qed.pst (Qed.pol s) <= Qed.trivial_state qed)%nat ->
  let r := Qed.step eps qed draw s pl in
  Qed.rstate r.1 = Qed.rstate s /\ Qed.rstate_old r.1 = Qed.rstate s /\
  Qed.l_hop r.1 = false /\ r.2 = pl /\
  Qed.pol r.1 = Qed.pol s /\ Qed.event r.1 = Qed.event s.
Proof.
  intros Htriv Ht r.
  set (s1 := Qed.hop_prob qed s).
  set (r2 := Qed.hop_check draw s1 pl).
  assert (Hstep : r = Qed.evaluate_hop eps qed r2.1 r2.2).
  { subst r r2 s1. unfold Qed.step. by destruct (Qed.hop_check _ _ _). }
  destruct (Qed_hop_prob_spec qed s)
    as (_ & Hacc & Hh1 & Hr1 & Hold1 & Hpol1 & Hev1 & _).
  rewrite Htriv in Hacc. cbn zeta in Hacc. fold s1 in Hacc, Hh1, Hr1, Hold1, Hpol1, Hev1.
  set (n := Qed.pst (Qed.pol s)) in *.
  assert (Hzero : forall j, (j <= n)%nat -> Qed.acc_prob s1 !!! j = 0).
  { intros j Hj. rewrite Hacc by done.
    rewrite !(partial_sum_indicator_void _ _ n) by (first [done | lia]).
    rewrite (proj2 (Rgtb_le 0 1)) by lra. reflexivity. }
  assert (Hmono' : nondecreasing (Qed.pst (Qed.pol s1)) (Qed.acc_prob s1)).
  { rewrite Hpol1. fold n. intros i j [Hij Hj]. rewrite !Hzero by lia. lra. }
  destruct (Qed_hop_check_spec draw s1 pl Hmono')
    as (Hp & Ho & He & _ & _ & _ & Hcase).
  fold r2 in Hp, Ho, He, Hcase. rewrite Hpol1 in Hcase. fold n in Hcase.
  destruct (Qed_evaluate_trivial eps qed r2.1 r2.2 Htriv)
    as (Hp3 & Hr3 & Ho3 & Hh3 & _ & Hl3 & He3).
  rewrite <- Hstep in Hp3, Hr3, Ho3, Hh3, Hl3, He3.
  destruct Hcase as [(i & Hi & _ & Hhiti & _) | (_ & Hri & Hhi & Hli)].
  - exfalso. unfold hits in Hhiti. rewrite !Hzero in Hhiti by lia. lra.
  - rewrite Hr3, Ho3, Hh3, Hl3, Hp3, He3, Hri, Hhi, Hli, Ho, Hold1, Hp, Hpol1, He,
      Hev1, Hr1, Hh1.
    rewrite Nat.eqb_refl, app_nil_r. done.
Qed.

(** X18.  Under a trivial crossing flagged towards another state of the
    system, [trivial_hop] of src/mqc_qed/bomd.py and the three hopping
    routines of src/mqc_qed/sh.py (for a draw above 0) do the same: both
    engines started on the same state end on the flagged state with a hop
    pending, the same slot 0 of [pol_list] and the same event line added.
    [pol_list] is not empty, as [run] builds it. *)
Theorem X18_bomd_trivial_hop_agrees_with_sh (eps draw : R) (qed : Qed.QED)
    (s : Qed.SH) (b : Bomd.BOMD) (pol_list : list nat) :
  Qed.l_trivial qed = true ->
  (Qed.trivial_state qed < Qed.pst (Qed.pol s))%nat ->
  Qed.trivial_state qed <> Qed.rstate s ->
  0 < draw <= 1 -> (0 < length pol_list)%nat ->
  Bomd.rstate b = Qed.rstate s -> Bomd.event b = Qed.event s ->
  let rb := Bomd.trivial_hop qed b pol_list in
  let rs := Qed.step eps qed draw s pol_list in
  Bomd.rstate rb.1 = Qed.rstate rs.1 /\
  Bomd.rstate_old rb.1 = Qed.rstate_old rs.1 /\
  Bomd.l_hop rb.1 = Qed.l_hop rs.1 /\
  Bomd.event rb.1 = Qed.event rs.1 /\
  rb.2 = rs.2 /\
  Bomd.pol rb.1 = Bomd.pol b.
Proof.
  intros Htriv Ht Htr Hdraw _ Hrb Heb rb rs.
  destruct (Qed_step_trivial_hop eps qed s pol_list draw Htriv Ht Htr Hdraw)
    as (H1 & H2 & H3 & H4 & _ & H6).
  fold rs in H1, H2, H3, H4, H6. rewrite H1, H2, H3, H4, H6.
  subst rb. unfold Bomd.trivial_hop. rewrite Htriv, Hrb, Heb.
  cbn [fst snd Bomd.rstate Bomd.rstate_old Bomd.l_hop Bomd.event Bomd.pol].
  destruct (Nat.eqb_spec (Qed.trivial_state qed) (Qed.rstate s)); [done |].
  cbn [negb]. done.
Qed.

Lemma X18_witness :
  let qed := Sample.qed true 1 in
  let s := Sample.qsh Augment Reverse false 0 [1] [1] 0 1 0.5 (1, 0) (0, 0) in
  let b := {| Bomd.pol := Qed.pol s; Bomd.rstate := 0; Bomd.rstate_old := 0;
              Bomd.l_hop := false; Bomd.event := [] |} in
  let rb := Bomd.trivial_hop qed b [0%nat] in
  let rs := Qed.step Sample.eps qed 0.5 s [0%nat] in
  Bomd.rstate rb.1 = Qed.rstate rs.1 /\
  Bomd.rstate_old rb.1 = Qed.rstate_old rs.1 /\
  Bomd.l_hop rb.1 = Qed.l_hop rs.1 /\
  Bomd.event rb.1 = Qed.event rs.1 /\
  rb.2 = rs.2 /\
  Bomd.pol rb.1 = Bomd.pol b.
Proof.
  apply (X18_bomd_trivial_hop_agrees_with_sh Sample.eps 0.5 (Sample.qed true 1)
           (Sample.qsh Augment Reverse false 0 [1] [1] 0 1 0.5 (1, 0) (0, 0))
           {| Bomd.pol := Qed.pol (Sample.qsh Augment Reverse false 0 [1] [1] 0 1 0.5
                                     (1, 0) (0, 0));
              Bomd.rstate := 0; Bomd.rstate_old := 0;
              Bomd.l_hop := false; Bomd.event := [] |} [0%nat]).
  - reflexivity.
  - cbn. lia.
  - cbn. lia.
  - lra.
  - cbn. lia.
  - reflexivity.
  - reflexivity.
Defined.

(** X19.  When the crossing is flagged towards the running state itself,
    the two cavity engines part: the hopping routines of src/mqc_qed/sh.py
    select nothing whatever the draw and leave [l_hop] false, while
    [trivial_hop] of src/mqc_qed/bomd.py sets [l_hop], so that [run] asks the
    backend for forces again; neither changes the running state, slot 0 of
    a one-entry [pol_list] holding it, or the event list. *)
Theorem X19_crossing_flagged_towards_the_running_state (eps draw : R)
    (qed : Qed.QED) (s : Qed.SH) (b : Bomd.BOMD) :
  Qed.l_trivial qed = true ->
  Qed.trivial_state qed = Qed.rstate s ->
  Bomd.rstate b = Qed.rstate s ->
  let pol_list := [Qed.rstate s] in
  let rb := Bomd.trivial_hop qed b pol_list in
  let rs := Qed.step eps qed draw s pol_list in
  (Qed.l_hop rs.1 = false /\ Qed.rstate rs.1 = Qed.rstate s /\
   Qed.event rs.1 = Qed.event s /\ rs.2 = pol_list) /\
  (Bomd.l_hop rb.1 = true /\ Bomd.rstate rb.1 = Qed.rstate s /\
   Bomd.event rb.1 = Bomd.event b /\ rb.2 = pol_list).
Proof.
  intros Htriv Ht Hrb pol_list rb rs. split.
  - destruct (Qed_step_trivial_void eps qed s pol_list draw Htriv (or_introl Ht))
      as (H1 & _ & H3 & H4 & _ & H6).
    by fold rs in H1, H3, H4, H6.
  - subst rb. unfold Bomd.trivial_hop. rewrite Htriv, Hrb, Ht.
    cbn [fst snd Bomd.rstate Bomd.rstate_old Bomd.l_hop Bomd.event].
    rewrite Nat.eqb_refl. cbn [negb]. done.
Qed.

Lemma X19_witness :
  let qed := Sample.qed true 0 in
  let s := Sample.qsh Augment Reverse false 0 [1] [1] 0 1 0.5 (1, 0) (0, 0) in
  let b := {| Bomd.pol := Qed.pol s; Bomd.rstate := 0; Bomd.rstate_old := 0;
              Bomd.l_hop := false; Bomd.event := [] |} in
  let rb := Bomd.trivial_hop qed b [0%nat] in
  let rs := Qed.step Sample.eps qed 0.5 s [0%nat] in
  (Qed.l_hop rs.1 = false /\ Qed.rstate rs.1 = 0%nat /\
   Qed.event rs.1 = [] /\ rs.2 = [0%nat]) /\
  (Bomd.l_hop rb.1 = true /\ Bomd.rstate rb.1 = 0%nat /\
   Bomd.event rb.1 = [] /\ rb.2 = [0%nat]).
Proof.
  apply (X19_crossing_flagged_towards_the_running_state Sample.eps 0.5
           (Sample.qed true 0)
           (Sample.qsh Augment Reverse false 0 [1] [1] 0 1 0.5 (1, 0) (0, 0))
           {| Bomd.pol := Qed.pol (Sample.qsh Augment Reverse false 0 [1] [1] 0 1 0.5
                                     (1, 0) (0, 0));
              Bomd.rstate := 0; Bomd.rstate_old := 0;
              Bomd.l_hop := false; Bomd.event := [] |}).
  - reflexivity.
  - reflexivity.
  - reflexivity.
Defined.

(** ** Velocity rescaling in the cavity engine (src/mqc_qed/sh.py) *)

(** The polariton object after a rejected hop: under "reverse" the velocity
    block runs with [x = - b / a] and with the coupling vector read at
    [pnac[rstate_old, rstate]] after [rstate] has been put back. *)
Lemma Qed_evaluate_rejected_pol (eps : R) (qed : Qed.QED) (s : Qed.SH) (pl : list nat) :
  Qed.l_hop s = true -> Qed.l_trivial qed = false -> Qed.rejects eps s = true ->
  let r := Qed.evaluate_hop eps qed s pl in
  let p := Qed.pol s in
  let '(a, b, det) := Qed.quadratic s in
  Qed.pol r.1 =
    Qed.update_kinetic (Qed.set_vel p
      match Qed.hop_reject s with
      | Keep => Qed.vel p
      | Reverse =>
          Qed.rescale_vel p (Qed.hop_rescale s)
            (Qed.pnac p (Qed.rstate_old s) (Qed.rstate_old s))
            (- b / a) det (Qed.pot_diff s)
      end).
Proof.
  intros Hhop Htriv Hrej. unfold Qed.evaluate_hop. unfold Qed.rejects in Hrej.
  rewrite Hhop, Htriv. cbn [negb].
  destruct (Qed.quadratic s) as [[a b] det]. cbn [snd] in Hrej. rewrite Hrej.
  destruct (Rltb _ _), (Qed.hop_reject s); cbn; rewrite Nat.eqb_refl; reflexivity.
Qed.





(** X21.  In src/mqc_qed/sh.py a hop rejected under "reverse" in "energy"
    mode changes the sign of the velocities of the QM region and keeps their
    kinetic energy, the engine being back on the state it ran on. *)
Theorem X21_cavity_energy_mode_reverse_negates_velocities (eps : R)
    (qed : Qed.QED) (s : Qed.SH) (pol_list : list nat) :
  let p := Qed.pol s in
  let n := Qed.nat_qm p in
  Qed.l_hop s = true -> Qed.l_trivial qed = false -> Qed.rejects eps s = true ->
  Qed.hop_rescale s = Energy -> Qed.hop_reject s = Reverse ->
  let r := Qed.evaluate_hop eps qed s pol_list in
  Qed.vel (Qed.pol r.1) = arr_scale (-1) (take n (Qed.vel p)) ++ drop n (Qed.vel p) /\
  Qed.ekin_qm (Qed.pol r.1) = kinetic (take n (Qed.mass p)) (take n (Qed.vel p)) /\
  Qed.rstate r.1 = Qed.rstate_old s /\ Qed.l_hop r.1 = false.
Proof.
  intros p n Hhop Htriv Hrej Hresc Hkeep r.
  pose proof (Qed_evaluate_rejected_pol eps qed s pol_list Hhop Htriv Hrej) as Hpol.
  destruct (Qed_evaluate_rejected eps qed s pol_list Hhop Htriv Hrej)
    as (Hr & _ & Hl & _).
  fold r in Hpol, Hr, Hl. cbn zeta in Hpol.
  unfold Qed.quadratic in Hpol. rewrite Hresc, Hkeep in Hpol.
  cbn [Qed.rescale_vel] in Hpol. fold p n in Hpol.
  match type of Hpol with
  | context [arr_scale ?x _] => replace x with (-1) in Hpol by lra
  end.
  rewrite Hpol.
  cbn [Qed.update_kinetic Qed.set_vel Qed.ekin_qm Qed.vel Qed.nat_qm Qed.mass].
  fold n. split; [reflexivity |]. split; [| by split].
  rewrite take_assign_head by (by rewrite length_arr_scale).
  rewrite kinetic_scale. lra.
Qed.

Lemma X21_witness :
  let s := Sample.qsh Energy Reverse true 1 [1] [1] 0 1 0.5 (1, 0) (0, 0) in
  let r := Qed.evaluate_hop Sample.eps (Sample.qed false 0) s [1%nat] in
  Qed.vel (Qed.pol r.1) = arr_scale (-1) (take 1 [[1]]) ++ [] /\
  Qed.ekin_qm (Qed.pol r.1) = kinetic (take 1 [1]) (take 1 [[1]]) /\
  Qed.rstate r.1 = 0%nat /\ Qed.l_hop r.1 = false.
Proof.
  apply (X21_cavity_energy_mode_reverse_negates_velocities Sample.eps
           (Sample.qed false 0)
           (Sample.qsh Energy Reverse true 1 [1] [1] 0 1 0.5 (1, 0) (0, 0)) [1%nat]).
  - reflexivity.
  - reflexivity.
  - runR. rdecide. reflexivity.
  - reflexivity.
  - reflexivity.
Defined.

(** X22.  In src/mqc_qed/sh.py, as in src/mqc/sh.py, a hop rejected under
    "reverse" in "velocity" or "momentum" mode puts [rstate] back before the
    velocity block runs, so the block reads [pnac[rstate_old, rstate_old]];
    when that diagonal block is zero, and the factor [x = - b / a] is a
    number ([a] is not zero, no mass is zero), the velocities are left as
    they were. *)
Theorem X22_cavity_reverse_rejection_reads_diagonal_coupling (eps : R)
    (qed : Qed.QED) (s : Qed.SH) (pol_list : list nat) :
  let p := Qed.pol s in
  let n := Qed.nat_qm p in
  let d0 := Qed.pnac p (Qed.rstate_old s) (Qed.rstate_old s) in
  Qed.l_hop s = true -> Qed.l_trivial qed = false -> Qed.rejects eps s = true ->
  Qed.hop_reject s = Reverse ->
  Qed.hop_rescale s = Velocity \/ Qed.hop_rescale s = Momentum ->
  same_rows d0 (take n (Qed.vel p)) -> length (Qed.mass p) = length (Qed.vel p) ->
  zero_rows d0 ->
  (Qed.quadratic s).1.1 <> 0 -> Forall (fun y => y <> 0) (Qed.mass p) ->
  let r := Qed.evaluate_hop eps qed s pol_list in
  Qed.vel (Qed.pol r.1) = Qed.vel p /\
  In ev_reject_reverse (Qed.event r.1).
Proof.
  intros p n d0 Hhop Htriv Hrej Hkeep Hresc Hrows Hlen Hz _ _ r.
  pose proof (Qed_evaluate_rejected_pol eps qed s pol_list Hhop Htriv Hrej) as Hpol.
  destruct (Qed_evaluate_rejected eps qed s pol_list Hhop Htriv Hrej)
    as (_ & _ & _ & _ & Hev & _).
  fold r in Hpol, Hev. cbn zeta in Hpol.
  destruct (Qed.quadratic s) as [[a b] det].
  rewrite Hkeep in Hpol, Hev. fold p d0 in Hpol.
  split.
  - rewrite Hpol. cbn [Qed.update_kinetic Qed.set_vel Qed.vel].
    destruct Hresc as [-> | ->]; cbn [Qed.rescale_vel]; fold n; unfold assign_head.
    + rewrite arr_add_scale_zeros by done. apply take_drop.
    + rewrite arr_add_div_zeros by (rewrite ?length_take; first [done | lia]).
      apply take_drop.
  - rewrite Hev. rewrite !in_app_iff. right. right. by left.
Qed.

Lemma X22_witness :
  let s := Sample.qsh Velocity Reverse true 1 [1] [1] 0 1 0.5 (1, 0) (0, 0) in
  let r := Qed.evaluate_hop Sample.eps (Sample.qed false 0) s [1%nat] in
  Qed.vel (Qed.pol r.1) = [[1]] /\ In ev_reject_reverse (Qed.event r.1).
Proof.
  apply (X22_cavity_reverse_rejection_reads_diagonal_coupling Sample.eps
           (Sample.qed false 0)
           (Sample.qsh Velocity Reverse true 1 [1] [1] 0 1 0.5 (1, 0) (0, 0)) [1%nat]).
  - reflexivity.
  - reflexivity.
  - runR. rdecide. reflexivity.
  - reflexivity.
  - by left.
  - repeat constructor.
  - reflexivity.
  - repeat constructor.
  - runR. lra.
  - repeat constructor. lra.
Defined.

(** ** Reporting (src/mqc_qed/sh.py) *)

(** X23.  In src/mqc_qed/sh.py the reporting lines of [run] print every
    pending event once, in order, after at most two other lines, and leave
    the event list empty, whether or not the step is one of the printed
    ones: an event is never carried over to a later step.  Nothing else of
    the engine changes. *)
Theorem X23_report_prints_and_clears_events (fmt : nat -> nat -> R -> string)
    (au_to_K : R) (out_freq verbosity istep : Z) (ndof epot etot : R) (s : Qed.SH) :
  out_freq <> 0%Z ->
  exists head,
    (length head <= 2)%nat /\
    Qed.report fmt au_to_K out_freq verbosity istep ndof epot etot s
    = Some (head ++ (event_line istep "HOP" <$> Qed.event s), Qed.set_event s []) /\
    (Qed.event s <> [] -> head <> []).
Proof.
  intros Hfreq. unfold Qed.report.
  destruct (Z.eqb_spec out_freq 0) as [| _]; [done |].
  destruct (((istep + 1) mod out_freq =? 0)%Z || (0 <? length (Qed.event s))%nat)
    eqn:Hcond.
  - unfold Qed.print_step.
    destruct (1 <=? verbosity)%Z.
    + eexists [_; _]. split; [cbn; lia |]. split; [reflexivity | done].
    + eexists [_]. split; [cbn; lia |]. split; [reflexivity | done].
  - apply orb_false_iff in Hcond as [_ Hlen].
    destruct (Qed.event s) as [|e ev] eqn:Hev; [| done].
    exists []. split; [cbn; lia |]. split; [| done].
    cbn. do 2 f_equal. destruct s. cbn in Hev. by subst.
Qed.

Lemma X23_witness :
  let s := Sample.qsh Energy Keep false 0 [1] [1] 0 0.25 0.5 (1, 0) (0, 0) in
  exists head,
    (length head <= 2)%nat /\
    Qed.report (fun _ _ _ => "x") 1 10 0 3 3 0.25 0.75 s
    = Some (head ++ (event_line 3 "HOP" <$> Qed.event s), Qed.set_event s []) /\
    (Qed.event s <> [] -> head <> []).
Proof.
  apply (X23_report_prints_and_clears_events (fun _ _ _ => "x") 1 10 0 3 3 0.25 0.75
           (Sample.qsh Energy Keep false 0 [1] [1] 0 0.25 0.5 (1, 0) (0, 0))).
  lia.
Defined.

(** ** Reporting (src/mqc/sh.py) *)

Lemma max_fold_spec (l : list R) (x : R) :
  let m := foldl (fun m y => if Rgtb y m then y else m) x l in
  x <= m /\ Forall (fun y => y <= m) l /\ (m = x \/ In m l).
Proof.
  revert x. induction l as [|y l IH]; intros x; cbn [foldl].
  - split; [lra |]. split; [constructor | by left].
  - destruct (IH (if Rgtb y x then y else x)) as (Hle & Hall & Hin).
    set (m := foldl _ _ l) in *.
    destruct (Rgtb y x) eqn:Hyx.
    + apply Rgtb_gt in Hyx. split; [lra |]. split; [by constructor |].
      right. destruct Hin as [-> | Hin]; [by left | by right].
    + apply Rgtb_le in Hyx. split; [done |]. split; [constructor; [lra | done] |].
      destruct Hin as [Hin | Hin]; [by left | right; by right].
Qed.

Lemma where_first_spec (x : R) (l : list R) :
  In x l ->
  exists h, Mqc.where_first x l = Some h /\ (h < length l)%nat /\ l !!! h = x /\
            forall i, (i < h)%nat -> l !!! i <> x.
Proof.
  induction l as [|y l IH]; intros Hin; [done |].
  cbn [Mqc.where_first]. destruct (Req_dec_T y x) as [-> | Hne].
  - exists 0%nat. split; [done |]. split; [cbn; lia |]. split; [done |]. intros; lia.
  - destruct Hin as [-> | Hin]; [done |].
    destruct (IH Hin) as (h & -> & Hh & Hx & Hfirst).
    exists (S h). split; [done |]. split; [cbn; lia |]. split; [done |].
    intros [|i] Hi; [done |]. apply Hfirst. lia.
Qed.

(** What the first block of [print_step] computes after the initial step. *)
Lemma Mqc_max_prob_hstate_spec (istep : Z) (s : Mqc.SH) :
  istep <> (-1)%Z -> Mqc.prob s <> [] ->
  exists max_prob hstate,
    Mqc.max_prob_hstate istep s = Some (max_prob, hstate) /\
    (hstate < length (Mqc.prob s))%nat /\
    Mqc.prob s !!! hstate = max_prob /\
    (forall i, (i < length (Mqc.prob s))%nat -> Mqc.prob s !!! i <= max_prob) /\
    (forall i, (i < hstate)%nat -> Mqc.prob s !!! i < max_prob).
Proof.
  intros Histep Hne. unfold Mqc.max_prob_hstate.
  destruct (Z.eqb_spec istep (-1)); [done |].
  destruct (Mqc.prob s) as [|x l] eqn:Hprob; [done |].
  cbn [Mqc.max_list].
  destruct (max_fold_spec l x) as (Hle & Hall & Hin).
  set (m := foldl _ x l) in *.
  assert (Hmem : In m (x :: l)) by (destruct Hin as [-> | Hin]; [by left | by right]).
  assert (Hbound : forall i, (i < length (x :: l))%nat -> (x :: l) !!! i <= m).
  { intros [|i] Hi; [done |]. cbn in Hi.
    rewrite Forall_forall in Hall. change ((x :: l) !!! S i) with (l !!! i).
    apply Hall. apply list_elem_of_lookup_total_2. lia. }
  destruct (where_first_spec m (x :: l) Hmem) as (h & Hw & Hh & Hx & Hfirst).
  rewrite Hw. exists m, h. split; [done |]. split; [done |]. split; [done |].
  split; [done |].
  intros i Hi. specialize (Hfirst i Hi). specialize (Hbound i ltac:(lia)). lra.
Qed.

(** X24.  In src/mqc/sh.py [print_step], after the initial step and on the
    probability vector that [hop_prob] has built from a running state in
    range whose population is not zero (so that the probabilities are
    numbers), reports as [hstate] the first state of largest probability,
    prints its lines and leaves the event list empty; when the largest
    probability is positive, [hstate] is not the state the engine ran on.
    The number of degrees of freedom, by which the temperature divides, is
    not zero. *)
Theorem X24_print_step_reports_first_most_probable_state
    (fmt : nat -> nat -> R -> string) (au_to_K : R)
    (verbosity istep : Z) (dof epot etot : R) (s0 : Mqc.SH) :
  istep <> (-1)%Z -> (0 < Mqc.nst (Mqc.mol s0))%nat ->
  (Mqc.rstate s0 < Mqc.nst (Mqc.mol s0))%nat ->
  Cre (Mqc.rho (Mqc.mol s0) (Mqc.rstate s0) (Mqc.rstate s0)) <> 0 ->
  dof <> 0 ->
  let s := Mqc.hop_prob s0 in
  exists max_prob hstate lines,
    Mqc.max_prob_hstate istep s = Some (max_prob, hstate) /\
    Mqc.print_step fmt au_to_K verbosity istep dof epot etot s
    = Some (lines ++ (event_line istep "HOP" <$> Mqc.event s), Mqc.set_event s []) /\
    (hstate < Mqc.nst (Mqc.mol s0))%nat /\
    Mqc.prob s !!! hstate = max_prob /\
    (forall i, (i < Mqc.nst (Mqc.mol s0))%nat -> Mqc.prob s !!! i <= max_prob) /\
    (forall i, (i < hstate)%nat -> Mqc.prob s !!! i < max_prob) /\
    (max_prob = 0 \/ hstate <> Mqc.rstate s0).
Proof.
  intros Histep Hnst Hr _ _ s.
  destruct (Mqc_hop_prob_distribution s0) as (Hlen & _ & _ & Hzero & _).
  fold s in Hlen, Hzero.
  assert (Hne : Mqc.prob s <> []).
  { intros Hnil. rewrite Hnil in Hlen. cbn in Hlen. lia. }
  destruct (Mqc_max_prob_hstate_spec istep s Histep Hne)
    as (m & h & Hmh & Hh & Hm & Hall & Hfirst).
  rewrite Hlen in Hh, Hall.
  unfold Mqc.print_step. rewrite Hmh. cbv zeta.
  exists m, h.
  match goal with
  | |- context [Some (?a :: ?d1 ++ ?d2 ++ _, _)] => exists (a :: d1 ++ d2)
  end.
  split; [done |]. split.
  { rewrite <- app_comm_cons, <- app_assoc. reflexivity. }
  do 4 (split; [done |]).
  destruct (decide (h = Mqc.rstate s0)) as [-> | Hhr]; [left | by right].
  rewrite <- Hm. by apply Hzero.
Qed.

Lemma X24_witness :
  let s0 := Sample.with_coupling (Sample.sh Momentum Reverse false [1] [1] 0 1 0.5)
              (fun i j : nat => if (i =? j)%nat then (0.5, 0) else (- 0.5, 0))
              (fun _ _ => 1) 0.1 in
  let s := Mqc.hop_prob s0 in
  exists max_prob hstate lines,
    Mqc.max_prob_hstate 0 s = Some (max_prob, hstate) /\
    Mqc.print_step (fun _ _ _ => "x") 1 0 0 3 0.25 0.75 s
    = Some (lines ++ (event_line 0 "HOP" <$> Mqc.event s), Mqc.set_event s []) /\
    (hstate < 2)%nat /\
    Mqc.prob s !!! hstate = max_prob /\
    (forall i, (i < 2)%nat -> Mqc.prob s !!! i <= max_prob) /\
    (forall i, (i < hstate)%nat -> Mqc.prob s !!! i < max_prob) /\
    (max_prob = 0 \/ hstate <> 0%nat).
Proof.
  apply (X24_print_step_reports_first_most_probable_state (fun _ _ _ => "x") 1 0 0 3
           0.25 0.75
           (Sample.with_coupling (Sample.sh Momentum Reverse false [1] [1] 0 1 0.5)
              (fun i j : nat => if (i =? j)%nat then (0.5, 0) else (- 0.5, 0))
              (fun _ _ => 1) 0.1)).
  - lia.
  - cbn. lia.
  - cbn. lia.
  - cbn. lra.
  - lra.
Defined.

(** ** The energy-based correction on a populated running state *)

(** X25.  In src/mqc_qed/sh.py [correct_dec_edc], on coefficients and with
    positive QM kinetic energy, leaves a total population of exactly one
    when the running state is populated, the density matrix holds its
    population ([rho_a[r, r] = |c_r|²]), [1 + C / E_kin] is not zero and the
    decayed populations of the other states sum to at most one: every other
    coefficient whose state differs in energy from the running one is
    multiplied by [exp (- dt / tau_i)] with
    [tau_i = (1 + C / E_kin) / |E_i - E_r|], the population of the running
    coefficient becomes one minus the others', and the density matrix is
    rebuilt as the outer product of the coefficients. *)
Theorem X25_edc_restores_unit_population (s : Qed.SH) :
  let p := Qed.pol s in
  let n := Qed.pst p in
  let r := Qed.rstate s in
  let c_r := Qed.coef_a (Qed.pol_states p !!! r) in
  Qed.elec_object s = Qed.Coefficient ->
  length (Qed.pol_states p) = n -> (r < n)%nat ->
  0 < Qed.ekin_qm p -> 1 + Qed.edc_parameter s / Qed.ekin_qm p <> 0 ->
  Qed.rho_a p r r = Cmult (Cconj c_r) c_r -> Cnorm2 c_r <> 0 ->
  Qed.decayed_population s <= 1 ->
  let s' := Qed.correct_dec_edc s in
  let c' := fun i => Qed.coef_a (Qed.pol_states (Qed.pol s') !!! i) in
  (forall i, (i < n)%nat -> i <> r ->
     Qed.energy (Qed.pol_states p !!! i) <> Qed.energy (Qed.pol_states p !!! r) ->
     let c := Qed.coef_a (Qed.pol_states p !!! i) in
     let tau := (1 + Qed.edc_parameter s / Qed.ekin_qm p)
                / Rabs (Qed.energy (Qed.pol_states p !!! i)
                        - Qed.energy (Qed.pol_states p !!! r)) in
     c' i = (Cre c * exp (- Qed.dt s / tau), Cim c * exp (- Qed.dt s / tau))) /\
  Cnorm2 (c' r) = 1 - Qed.decayed_population s /\
  (forall a b, (a <= b)%nat -> (b < n)%nat ->
     Qed.rho_a (Qed.pol s') a b = Cmult (Cconj (c' a)) (c' b) /\
     Qed.rho_a (Qed.pol s') b a = Cconj (Cmult (Cconj (c' a)) (c' b))) /\
  Qed.norm s' = 1.
Proof.
  intros p n r c_r Hobj Hlen Hr Hkin HT Hrho Hcr Hpop s' c'.
  destruct (edc_restores_unit_population s Hobj Hlen Hr Hkin HT Hrho Hcr Hpop)
    as (Hco & Hnew & Hmat & Hnorm).
  split; [| by split].
  intros i Hi Hir _. by apply Hco.
Qed.

Lemma X25_witness :
  let s := Sample.qsh Augment Reverse false 0 [1] [1] 0 1 0.5 (0.6, 0) (0.8, 0) in
  let s' := Qed.correct_dec_edc s in
  let c' := fun i => Qed.coef_a (Qed.pol_states (Qed.pol s') !!! i) in
  (forall i, (i < 2)%nat -> i <> 0%nat ->
     Qed.energy (Qed.pol_states (Qed.pol s) !!! i)
     <> Qed.energy (Qed.pol_states (Qed.pol s) !!! 0%nat) ->
     let c := Qed.coef_a (Qed.pol_states (Qed.pol s) !!! i) in
     let tau := (1 + 0.1 / 0.5)
                / Rabs (Qed.energy (Qed.pol_states (Qed.pol s) !!! i)
                        - Qed.energy (Qed.pol_states (Qed.pol s) !!! 0%nat)) in
     c' i = (Cre c * exp (- 1 / tau), Cim c * exp (- 1 / tau))) /\
  Cnorm2 (c' 0%nat) = 1 - Qed.decayed_population s /\
  (forall a b, (a <= b)%nat -> (b < 2)%nat ->
     Qed.rho_a (Qed.pol s') a b = Cmult (Cconj (c' a)) (c' b) /\
     Qed.rho_a (Qed.pol s') b a = Cconj (Cmult (Cconj (c' a)) (c' b))) /\
  Qed.norm s' = 1.
Proof.
  apply (X25_edc_restores_unit_population
           (Sample.qsh Augment Reverse false 0 [1] [1] 0 1 0.5 (0.6, 0) (0.8, 0)));
    try reflexivity; try (cbn; lia); try (runR; lra).
  runR. replace (Rabs (1 - 0)) with 1
    by (replace (1 - 0) with 1 by lra; symmetry; apply Rabs_R1).
  match goal with
  | |- context [exp ?e] => pose proof (exp_below_one e ltac:(lra)) as Hexp
  end.
  nra.
Defined.
